(** * Range-Doppler sequence dataset: a shallow embedding of
    [seq_wise/utils/dataset.py]

    Conventions of the embedding.
    - Python integers are unbounded integers [Z].  Words read from the
      file are [np.uint32] scalars with values in [0, 2^32).  What an
      operation of such a scalar with a Python integer gives depends on
      the NumPy version: NumPy 1.x promotes to a signed 64-bit result,
      NumPy 2 (NEP 50) stays in [uint32] and wraps around.  The rule is
      a parameter ([Np.promotion]); for the words of a decoded frame
      ([prt_num] at most 10000) the one operation that can wrap is
      [amp_max_vr_unit - local_radius].
    - A finite [float64] value is the rational it denotes; every
      [float64] operation of the velocity axis, of the scaled
      parameters and of [np.linspace] is the exact operation followed by
      rounding to the nearest value of 53 significant bits, ties to
      even ([F64.round]).  The exponent range is not bounded: the
      values of the code stay far inside it.  NaN and the infinities
      have no counterpart; a division by zero gives 0, which fails the
      same test as the infinity it stands for.
    - The magnitudes of the spectrum and of the maps are finite values,
      as rationals; their arithmetic (the percentile) is exact.
    - A [float32] IQ value is its 32-bit pattern, or NaN; the complex
      sample is built from the two patterns as line 230 does, in
      [complex64] arithmetic.
    - The Taylor window and the FFT are not embedded: the magnitudes of
      the spectrum enter the frame loop as a parameter.
    - [None, None] results, caught exceptions and uncaught exceptions
      are separate constructors of the result types. *)

From Stdlib Require Import ZArith QArith Qround Qabs Qpower List Lia Bool.
From Stdlib Require Import Permutation Lqa.
From Stdlib Require String.
From coqutil Require Import Byte Word.LittleEndianList.
Import ListNotations.
Local Open Scope Z_scope.

(** ** [float64] arithmetic *)

Module F64.

(** Significant bits of a [float64]. *)
Definition prec : Z := 53.

(** The binary exponent of a positive rational: the [k] with
    [2^k <= x < 2^(k+1)]. *)
Definition ilog2 (x : Q) : Z :=
  let k := Z.log2 (Qnum x) - Z.log2 (Zpos (Qden x)) in
  if Qle_bool (2 ^ k) x then k else k - 1.

(** The integer nearest to [x], the even one of two that are equally
    near. *)
Definition nearest_even (x : Q) : Z :=
  let f := Qfloor x in
  match (x - inject_Z f ?= 1 # 2)%Q with
  | Lt => f
  | Gt => f + 1
  | Eq => if Z.even f then f else f + 1
  end.

(** Rounding of a positive rational to 53 significant bits. *)
Definition round_pos (x : Q) : Q :=
  let e := ilog2 x - (prec - 1) in
  (inject_Z (nearest_even (x / 2 ^ e)) * 2 ^ e)%Q.

(** Round to nearest, ties to even. *)
Definition round (x : Q) : Q :=
  match Qnum x with
  | Z0 => 0
  | Zpos _ => round_pos x
  | Zneg _ => - round_pos (- x)
  end.

(** Conversion of an integer, and the rounded operations. *)
Definition of_Z (z : Z) : Q := round (inject_Z z).
Definition add (x y : Q) : Q := round (x + y).
Definition sub (x y : Q) : Q := round (x - y).
Definition mul (x y : Q) : Q := round (x * y).
Definition div (x y : Q) : Q := round (x / y).

End F64.

(** ** NumPy helpers on lists *)

Module Np.

(** The result type of a [uint32] scalar and a Python integer:
    [int64] in NumPy 1.x, [uint32] from NumPy 2 on. *)
Inductive promotion : Type :=
| Legacy
| Nep50.

(** [a - b] for a [uint32] scalar [a] and a Python integer [b]. *)
Definition sub_u32 (rule : promotion) (a b : Z) : Z :=
  match rule with
  | Legacy => a - b
  | Nep50 => (a - b) mod 2 ^ 32
  end.

(** [np.arange(lo, hi)] on integers. *)
Definition arange (lo hi : Z) : list Z :=
  map (fun k => lo + Z.of_nat k) (seq 0 (Z.to_nat (hi - lo))).

(** Normalisation of one slice bound against an axis of length [n]:
    a negative bound counts from the end, then the bound is clipped. *)
Definition slice_bound (n i : Z) : Z :=
  let j := if i <? 0 then i + n else i in
  Z.max 0 (Z.min n j).

(** [a[start:stop] = v] on a one-dimensional array. *)
Definition slice_assign {A} (start stop : Z) (v : A) (a : list A) : list A :=
  let n := Z.of_nat (length a) in
  let lo := slice_bound n start in
  let hi := slice_bound n stop in
  map (fun p => if (lo <=? Z.of_nat (fst p)) && (Z.of_nat (fst p) <? hi)
                then v else snd p)
      (combine (seq 0 (length a)) a).

(** [a[start:] = v]. *)
Definition slice_assign_from {A} (start : Z) (v : A) (a : list A) : list A :=
  slice_assign start (Z.of_nat (length a)) v a.

(** [np.linspace(start, stop, num, dtype=int)] in [float64]: with
    [delta = stop - start] taken on the converted bounds, [num] samples
    [i * step + start] with [step = delta / (num - 1)] (for a zero
    step, [i / (num - 1) * delta + start]), the last one overwritten by
    [stop] when [num > 1], each floored. *)
Definition linspace_int (start stop : Z) (num : nat) : list Z :=
  let div := Z.of_nat num - 1 in
  let delta := F64.sub (F64.of_Z stop) (F64.of_Z start) in
  let scaled (i : nat) : Q :=
    let y := F64.of_Z (Z.of_nat i) in
    if 0 <? div then
      let step := F64.div delta (F64.of_Z div) in
      if Qeq_bool step 0
      then F64.mul (F64.div y (F64.of_Z div)) delta
      else F64.mul y step
    else F64.mul y delta in
  let y := map (fun i => F64.add (scaled i) (F64.of_Z start)) (seq 0 num) in
  let y' := if (1 <? num)%nat
            then removelast y ++ [F64.of_Z stop] else y in
  map Qfloor y'.

(** The sample [i] of [np.linspace(0, stop, num)] for [num >= 2] and a
    positive [stop], as computed before the last sample is overwritten
    and the samples are floored. *)
Definition strided (stop : Z) (num i : nat) : Q :=
  F64.add (F64.mul (F64.of_Z (Z.of_nat i))
                   (F64.div (F64.of_Z stop) (F64.of_Z (Z.of_nat num - 1))))
          (F64.of_Z 0).

(** Fancy indexing [a[indices]] along the first axis; an index out of
    range raises ([None]). *)
Fixpoint take {A} (a : list A) (indices : list Z) : option (list A) :=
  match indices with
  | [] => Some []
  | i :: rest =>
      if i <? 0 then None else
      match nth_error a (Z.to_nat i), take a rest with
      | Some x, Some xs => Some (x :: xs)
      | _, _ => None
      end
  end.

End Np.

(** ** Maps and sequences *)

(** One emitted range-Doppler map has shape (31, columns, 1). *)
Definition RDMap := list (list (list Q)).

(** [np.zeros(shape)] for the trailing three axes. *)
Definition zeros3 (shape : nat * nat * nat) : RDMap :=
  let '(r, c, ch) := shape in repeat (repeat (repeat 0%Q ch) c) r.

(** [images.shape[1:]] of the stacked array. *)
Definition shape_tail (images : list RDMap) : nat * nat * nat :=
  match images with
  | [] => (0, 0, 0)%nat
  | m :: _ => (length m, length (hd [] m), length (hd [] (hd [] m)))
  end.

Module RDSeq.

(** [RDSeq.__getitem__] after [_process_batch] returned [images] for a
    batch whose label is [label]; [None] is the failed [assert] or an
    index error. *)
Definition getitem (seq_len : nat) (label : Z) (images : list RDMap)
  : option (list RDMap * list Z * Z) :=
  let cls := label - 1 in
  let image_mask := repeat 1 seq_len in
  let step :=
    if (length images <? seq_len)%nat then
      let images' :=
        images ++ repeat (zeros3 (shape_tail images))
                         (seq_len - length images) in
      (* the mask is cut at the length of the already padded array *)
      let image_mask' :=
        Np.slice_assign_from (Z.of_nat (length images')) 0 image_mask in
      Some (images', image_mask')
    else if (seq_len <? length images)%nat then
      let indices :=
        Np.linspace_int 0 (Z.of_nat (length images) - 1) seq_len in
      match Np.take images indices with
      | Some images' => Some (images', image_mask)
      | None => None
      end
    else Some (images, image_mask) in
  match step with
  | Some (images', image_mask') =>
      if (length images' =? seq_len)%nat
      then Some (images', image_mask', cls) else None
  | None => None
  end.

End RDSeq.

(** ** Radar parameters and constants *)

(** Speed of light, sampling rate and range resolution. *)
Definition C : Q := 300000000.
Definition FS : Q := 20000000.
Definition DELTA_R : Q := F64.div C (F64.mul 2 FS).

(** The literals [0.01], [1e6] and [0.0125e-6] that scale the raw
    azimuth, frequency and repetition interval. *)
Definition AZ_UNIT : Q := F64.round (1 # 100).
Definition FREQ_UNIT : Q := 1000000.
Definition PRT_UNIT : Q := F64.round (125 # 10000000000).

(** [raw * unit] for a [uint32] scalar and a Python float. *)
Definition scaled (raw : Z) (unit : Q) : Q := F64.mul (F64.of_Z raw) unit.

Record Parameters := mkParameters {
  e_scan_az : Q;
  track_no_info : list Z;
  freq : Q;
  cpi_count : Z;
  prt_num : Z;
  prt : Q;
  data_length : Z
}.

(** ** [float32] values of the IQ data *)

Module F32.

(** A [float32] value: the bit pattern of a finite number, of a signed
    zero or of an infinity, or NaN (whose sign and payload are not
    kept). *)
Inductive t : Type :=
| Bits (w : Z)
| NaN.

Definition POS_ZERO : Z := 0.
Definition NEG_ZERO : Z := 0x80000000.

(** Fields of a 32-bit pattern. *)
Definition exponent (w : Z) : Z := (w / 2 ^ 23) mod 2 ^ 8.
Definition mantissa (w : Z) : Z := w mod 2 ^ 23.
Definition negative (w : Z) : bool := 2 ^ 31 <=? w.

Definition is_nan (w : Z) : bool :=
  (exponent w =? 255) && negb (mantissa w =? 0).
Definition is_inf (w : Z) : bool :=
  (exponent w =? 255) && (mantissa w =? 0).
Definition is_zero (w : Z) : bool := (w =? POS_ZERO) || (w =? NEG_ZERO).

(** One element of [np.frombuffer(bs, dtype='<f4')]. *)
Definition of_bits (w : Z) : t := if is_nan w then NaN else Bits w.

(** The bit pattern written for a value; NaN is written as the quiet
    NaN [0x7FC00000]. *)
Definition to_bits (x : t) : Z :=
  match x with
  | Bits w => w
  | NaN => 0x7FC00000
  end.

(** [0.0 * x]: a zero with the sign of [x] ([Some] of its sign bit), or
    NaN ([None]) for an infinite or NaN [x]. *)
Definition zero_times (x : t) : option bool :=
  match x with
  | NaN => None
  | Bits w => if is_inf w then None else Some (negative w)
  end.

(** [x + z] for a zero [z] with sign bit [z_negative]: a non-zero [x]
    is unchanged, and the sum of two zeros is [-0.0] only when both
    are. *)
Definition plus_zero (x : t) (z_negative : bool) : t :=
  match x with
  | NaN => NaN
  | Bits w =>
      if is_zero w
      then Bits (if negative w && z_negative then NEG_ZERO else POS_ZERO)
      else Bits w
  end.

(** [real + 1j * imag] for one sample, in [complex64]:
    [1j * imag = (0*imag - 1*0) + (0*0 + 1*imag)j], where subtracting
    [1*0 = +0.0] keeps the zero [0*imag], and then
    [real + (a + bj) = (real + a) + (0 + b)j]. *)
Definition complex (real imag : Z) : t * t :=
  let product_re := zero_times (of_bits imag) in
  let product_im := plus_zero (of_bits imag) false in
  (match product_re with
   | Some z_negative => plus_zero (of_bits real) z_negative
   | None => NaN
   end,
   plus_zero product_im false).

(** A value that survives line 230 unchanged in either position: the
    pattern of a finite number other than [-0.0]. *)
Definition plain (x : t) : Prop :=
  exists w, x = Bits w /\ 0 <= w < 2 ^ 32
            /\ exponent w <> 255 /\ w <> NEG_ZERO.

End F32.

(** A complex IQ sample as its real and imaginary [float32] parts, and
    the (31, prt_num) matrix of them. *)
Definition IQSample := (F32.t * F32.t)%type.
Definition IQMatrix := list (list IQSample).

Definition Qlt_bool (x y : Q) : bool := negb (Qle_bool y x).
Definition Qabs_lt_bool (x bound : Q) : bool := Qlt_bool (Qabs x) bound.

(** ** Parameter validation *)

(** The three range checks that close the decoding of the scalars in
    [read_raw_data]; [false] makes the decoder return [None, None]. *)
Definition decoded_scalars_ok (p : Parameters) : bool :=
  negb ((prt_num p <=? 0) || (10000 <? prt_num p))
  && negb (Qle_bool (prt p) 0 || Qlt_bool 1 (prt p))
  && negb (Qle_bool (freq p) 0 || Qlt_bool 1000000000000 (freq p)).

(** The three [continue] guards that open the frame loop of
    [_process_batch]; [false] skips the frame. *)
Definition frame_guards_ok (p : Parameters) : bool :=
  negb (length (track_no_info p) =? 0)%nat
  && negb (length (track_no_info p) <? 4)%nat
  && negb (Qle_bool (prt p) 0 || (prt_num p <=? 0) || Qle_bool (freq p) 0).

(** A decoded record is processed only when both sets of checks pass. *)
Definition params_valid (p : Parameters) : bool :=
  decoded_scalars_ok p && frame_guards_ok p.

(** ** Velocity axis (MTD stage) *)

Record VelocityAxis := mkVelocityAxis {
  half_prt : Z;
  delta_v : Q;
  v_axis : list Q
}.

(** The integer indices [np.arange(-half_prt, half_prt)] scaled by
    [delta_v], as built before the final length test. *)
Definition raw_v_axis (half : Z) (dv : Q) : list Q :=
  map (fun k => F64.mul (F64.of_Z k) dv) (Np.arange (- half) half).

(** [C / (2 * params.prt_num * params.prt * params.freq)]. *)
Definition doppler_step (p : Parameters) : Q :=
  F64.div C (F64.mul (F64.mul (F64.of_Z (2 * prt_num p)) (prt p)) (freq p)).

(** The velocity-axis block of [_process_batch]; [None] is one of its
    [continue] exits. *)
Definition velocity_axis (p : Parameters) : option VelocityAxis :=
  let dv := doppler_step p in
  if Qle_bool dv 0 || Qlt_bool 10000 dv then None else
  let half := prt_num p / 2 in
  if (half <=? 0) || (10000 <? half) then None else
  let v := raw_v_axis half dv in
  if negb (Z.of_nat (length v) =? prt_num p) then None
  else Some (mkVelocityAxis half dv v).

(** ** Target localisation *)

Definition center_local_bin : Z := 15.
Definition local_radius : Z := 5.

(** [np.clip(x, lo, hi)]. *)
Definition clip (x lo hi : Z) : Z := Z.min (Z.max x lo) hi.

(** Re-centring of the raw Doppler hint [track_no_info[3]]. *)
Definition recenter_hint (raw half n : Z) : Z :=
  let a := if half <? raw then raw - half else raw + half in
  clip (a - 1) 0 (n - 1).

Record Window := mkWindow {
  range_start_local : Z;
  range_end_local : Z;
  doppler_start : Z;
  doppler_end : Z
}.

(** The local search window for a spectrum of [rows] x [cols] cells
    around the re-centred hint [amp], which [np.clip] returns with the
    type of [prt_num]. *)
Definition search_window (numpy : Np.promotion) (rows cols amp : Z)
  : Window :=
  mkWindow (Z.max 0 (center_local_bin - local_radius))
           (Z.min rows (center_local_bin + local_radius + 1))
           (Z.max 0 (Np.sub_u32 numpy amp local_radius))
           (Z.min cols (amp + local_radius + 1)).

(** Extent of the basic slice [a[lo:hi]] with bounds inside [0, n]. *)
Definition extent (lo hi : Z) : Z := Z.max 0 (hi - lo).

(** [abs_target.size] for that window. *)
Definition window_size (w : Window) : Z :=
  extent (range_start_local w) (range_end_local w)
  * extent (doppler_start w) (doppler_end w).

(** [a[lo:hi]] for non-negative bounds. *)
Definition slice {A} (lo hi : Z) (a : list A) : list A :=
  firstn (Z.to_nat (hi - lo)) (skipn (Z.to_nat lo) a).

Definition crop (w : Window) (m : list (list Q)) : list (list Q) :=
  map (slice (doppler_start w) (doppler_end w))
      (slice (range_start_local w) (range_end_local w) m).

(** [np.argmax] of a flat array: first position of the largest value. *)
Fixpoint argmax_from (best : Q) (besti i : nat) (l : list Q) : nat :=
  match l with
  | [] => besti
  | x :: rest =>
      if Qlt_bool best x then argmax_from x i (S i) rest
      else argmax_from best besti (S i) rest
  end.

Definition argmax (l : list Q) : nat :=
  match l with
  | [] => 0%nat
  | x :: rest => argmax_from x 0%nat 1%nat rest
  end.

(** Shape of a matrix: rows, and columns of the first row. *)
Definition n_rows {A} (m : list (list A)) : Z := Z.of_nat (length m).
Definition n_cols {A} (m : list (list A)) : Z := Z.of_nat (length (hd [] m)).

(** The localisation block on the spectrum magnitudes [mag]: [false] is
    one of its three [continue] exits. *)
Definition localize (numpy : Np.promotion) (p : Parameters)
           (va : VelocityAxis) (mag : list (list Q)) : bool :=
  let amp := recenter_hint (nth 3 (track_no_info p) 0) (half_prt va)
                           (prt_num p) in
  let w := search_window numpy (n_rows mag) (n_cols mag) amp in
  let abs_target := crop w mag in
  let width := length (hd [] abs_target) in
  if (length (concat abs_target) =? 0)%nat then false else
  let k := argmax (concat abs_target) in
  let amp_max_index_row := Z.of_nat (k / width) in
  let amp_max_index_col := Z.of_nat (k mod width) in
  let global_range_bin := nth 2 (track_no_info p) 0 in
  let range_plot :=
    map (fun b => F64.mul (F64.of_Z b) DELTA_R)
        (Np.arange (global_range_bin - 15) (global_range_bin + 15 + 1)) in
  let detected_range_bin := range_start_local w + amp_max_index_row in
  if Z.of_nat (length range_plot) <=? detected_range_bin then false else
  let doppler_idx := doppler_start w + amp_max_index_col in
  if Z.of_nat (length (v_axis va)) <=? doppler_idx then false else true.

(** ** Map builder *)

(** What one statement of the frame loop does: it yields a value, leaves
    the iteration through [continue], or raises. *)
Inductive outcome (A : Type) : Type :=
| Emit (a : A)
| Skip
| Raise.
Arguments Emit {A} a.
Arguments Skip {A}.
Arguments Raise {A}.

(** [np.abs(velocity_axis) < 56]. *)
Definition velocity_mask (v : list Q) : list bool :=
  map (fun x => Qabs_lt_bool x 56) v.

(** Boolean indexing of one row. *)
Fixpoint compress {A} (mask : list bool) (row : list A) : list A :=
  match mask, row with
  | b :: ms, x :: xs => if b then x :: compress ms xs else compress ms xs
  | _, _ => []
  end.

(** [m[:, mask]]; a mask whose length is not the number of columns is
    an index error. *)
Definition select_columns {A} (mask : list bool) (m : list (list A))
  : option (list (list A)) :=
  if Z.of_nat (length mask) =? n_cols m
  then Some (map (compress mask) m) else None.

(** Position of the first element satisfying [f]. *)
Fixpoint find_index {A} (f : A -> bool) (l : list A) : option nat :=
  match l with
  | [] => None
  | x :: rest =>
      if f x then Some 0%nat
      else match find_index f rest with
           | Some i => Some (S i)
           | None => None
           end
  end.

(** [np.where(velocity_axis == 0)[0][0]], on the axis as it was built
    (before masking); no zero entry is an index error. *)
Definition velocity_index (v : list Q) : option Z :=
  match find_index (fun x => Qeq_bool x 0) v with
  | Some i => Some (Z.of_nat i)
  | None => None
  end.

(** [rd_matrix[:, i - 4 : i + 3] = 0]. *)
Definition notch (i : Z) (m : list (list Q)) : list (list Q) :=
  map (Np.slice_assign (i - 4) (i + 3) 0%Q) m.

Fixpoint insert_sorted (x : Q) (l : list Q) : list Q :=
  match l with
  | [] => [x]
  | y :: rest => if Qle_bool x y then x :: l else y :: insert_sorted x rest
  end.

Definition sort (l : list Q) : list Q := fold_right insert_sorted [] l.

(** [np.percentile(a, q)] with the default linear interpolation; the
    empty array has no percentile (NaN). *)
Definition percentile (q : Q) (a : list Q) : option Q :=
  match a with
  | [] => None
  | _ =>
      let s := sort a in
      let n := Z.of_nat (length s) in
      let virtual_index := (inject_Z (n - 1) * (q / 100))%Q in
      let previous := Qfloor virtual_index in
      let next := Z.min (previous + 1) (n - 1) in
      let gamma := (virtual_index - inject_Z previous)%Q in
      let lo := nth (Z.to_nat previous) s 0%Q in
      let hi := nth (Z.to_nat next) s 0%Q in
      Some (lo + (hi - lo) * gamma)%Q
  end.

(** [m[m < t] = 0]. *)
Definition zero_below (t : Q) (m : list (list Q)) : list (list Q) :=
  map (map (fun x => if Qlt_bool x t then 0%Q else x)) m.

(** [rd_matrix[rd_matrix < np.percentile(rd_matrix, 5)] = 0]; against
    NaN no comparison holds and nothing is changed. *)
Definition noise_floor (m : list (list Q)) : list (list Q) :=
  match percentile 5 (concat m) with
  | Some t => zero_below t m
  | None => m
  end.

(** [m[:, :, None]]. *)
Definition add_channel (m : list (list Q)) : RDMap :=
  map (map (fun x => [x])) m.

(** The matrix after the clutter notch: columns selected by the velocity
    mask, then the band around [velocity_index] zeroed.  The magnitudes
    [mag] are those of the full spectrum (taking magnitudes commutes
    with selecting columns). *)
Definition notched (mag : list (list Q)) (v : list Q)
  : outcome (list (list Q)) :=
  match select_columns (velocity_mask v) mag with
  | None => Raise
  | Some rd_matrix =>
      match velocity_index v with
      | None => Raise
      | Some i => Emit (notch i rd_matrix)
      end
  end.

(** ** Binary frames: the file handle and [read_raw_data] *)

Module File.

(** Result of running part of [read_raw_data] from a cursor position. *)
Inductive result (A : Type) : Type :=
| Val (a : A) (pos : Z)  (* a value, and the cursor afterwards *)
| NoFrame                (* [return None, None] *)
| Exn                    (* an exception that leaves the function *)
| Fuel.                  (* iteration budget of a loop used up *)
Arguments Val {A} a pos.
Arguments NoFrame {A}.
Arguments Exn {A}.
Arguments Fuel {A}.

Definition FRAME_HEAD : Z := 0xFA55FA55.
Definition FRAME_END : Z := 0x55FA55FA.

(** [struct.unpack('<I', bs)[0]]. *)
Definition unpack_u32 (bs : list byte) : Z := le_combine bs.

(** [np.frombuffer(bs, dtype='<u4')]. *)
Fixpoint words_from (n : nat) (bs : list byte) : list Z :=
  match n with
  | O => []
  | S n' => unpack_u32 (firstn 4 bs) :: words_from n' (skipn 4 bs)
  end.

Definition frombuffer_u32 (bs : list byte) : list Z :=
  words_from (length bs / 4) bs.

(** [a[::2]]. *)
Fixpoint stride2 {A} (l : list A) : list A :=
  match l with
  | [] => []
  | x :: rest => x :: match rest with
                      | [] => []
                      | _ :: rest' => stride2 rest'
                      end
  end.

(** [a.reshape(rows, cols)], row-major. *)
Definition reshape {A} (rows cols : nat) (flat : list A) : list (list A) :=
  map (fun r => firstn cols (skipn (r * cols) flat)) (seq 0 rows).

Section Handle.

(** Content of the open file. *)
Variable buf : list byte.

Definition file_size : Z := Z.of_nat (length buf).

(** A computation on the handle, from the cursor position. *)
Definition io (A : Type) : Type := Z -> result A.

Definition ret {A} (a : A) : io A := fun pos => Val a pos.

Definition bind {A B} (m : io A) (k : A -> io B) : io B :=
  fun pos =>
    match m pos with
    | Val a pos' => k a pos'
    | NoFrame => NoFrame
    | Exn => Exn
    | Fuel => Fuel
    end.

Notation "x <- m ;; k" := (bind m (fun x => k))
  (at level 61, m at next level, right associativity).
Notation "m ;;; k" := (bind m (fun _ => k))
  (at level 61, right associativity).

Definition none {A} : io A := fun _ => NoFrame.
Definition out_of_fuel {A} : io A := fun _ => Fuel.

(** [fid.read(n)]: at most [n] bytes, fewer at the end of the file. *)
Definition read (n : Z) : io (list byte) :=
  fun pos =>
    let bs := firstn (Z.to_nat n) (skipn (Z.to_nat pos) buf) in
    Val bs (pos + Z.of_nat (length bs)).

(** [fid.tell()]. *)
Definition tell : io Z := fun pos => Val pos pos.

(** [fid.seek(d, 1)] and [fid.seek(p, 0)]; a negative target is an
    [OSError]. *)
Definition seek_cur (d : Z) : io unit :=
  fun pos => if pos + d <? 0 then Exn else Val tt (pos + d).

Definition seek_set (p : Z) : io unit :=
  fun _ => if p <? 0 then Exn else Val tt p.

(** [try: m except OSError: return None, None]. *)
Definition catch_os {A} (m : io A) : io A :=
  fun pos => match m pos with Exn => NoFrame | r => r end.

(** Read four bytes and unpack them; a short read returns
    [None, None]. *)
Definition read_u32 : io Z :=
  bs <- read 4 ;;
  if (length bs <? 4)%nat then none else ret (unpack_u32 bs).

(** The header search loop: while the word is not the header and the
    cursor is inside the file, step back three bytes and read again. *)
Fixpoint scan_header (fuel : nat) (head_find : Z) : io Z :=
  fun pos =>
    if negb (head_find =? FRAME_HEAD) && (pos <? file_size) then
      match fuel with
      | O => Fuel
      | S fuel' =>
          (seek_cur (-3) ;;;
           h <- read_u32 ;;
           scan_header fuel' h) pos
      end
    else Val head_find pos.

Definition bad_length (frame_data_length : Z) : bool :=
  (frame_data_length <=? 0) || (1000000 <? frame_data_length).

(** State of the verification loop.  [head_pos] is not a variable of
    the source: it records where the current [head_find] was read. *)
Record Candidate := mkCandidate {
  head_pos : Z;
  head_find : Z;
  frame_data_length : Z;
  end_find : Z
}.

Definition mismatch (c : Candidate) : bool :=
  negb (head_find c =? FRAME_HEAD) || negb (end_find c =? FRAME_END).

(** The header/trailer verification loop. *)
Fixpoint resync (fuel : nat) (c : Candidate) : io Candidate :=
  fun pos =>
    if mismatch c then
      match fuel with
      | O => Fuel
      | S fuel' =>
          (seek_cur (- frame_data_length c + 1) ;;;
           start <- tell ;;
           h <- read_u32 ;;
           len <- read_u32 ;;
           let fdl := len * 4 in
           if bad_length fdl then none else
           seek_cur (fdl - 8) ;;;
           e <- read_u32 ;;
           let c' := mkCandidate start h fdl e in
           now <- tell ;;
           if (file_size <=? now) && mismatch c' then none
           else resync fuel' c') pos
      end
    else Val c pos.

(** Frame location: everything up to "back to the start of the data".
    The value is the accepted candidate; the cursor is left where
    decoding starts. *)
Definition locate : io Candidate :=
  h <- read_u32 ;;
  h <- scan_header (length buf) h ;;
  at_head <- tell ;;
  if negb (h =? FRAME_HEAD) then none else
  len <- read_u32 ;;
  let fdl := len * 4 in
  if bad_length fdl then none else
  current_pos <- tell ;;
  e <- catch_os (seek_set (current_pos + fdl - 12) ;;; read_u32) ;;
  c <- resync (length buf) (mkCandidate (at_head - 4) h fdl e) ;;
  seek_cur (- frame_data_length c + 4) ;;;
  ret c.

(** Decoding of the parameters and of the IQ matrix, from the cursor
    left by [locate]. *)
Definition decode : io (Parameters * IQMatrix) :=
  data_temp1_bytes <- read 12 ;;
  if (length data_temp1_bytes <? 12)%nat then none else
  let data_temp1 := frombuffer_u32 data_temp1_bytes in
  let e_scan_az := scaled (nth 1 data_temp1 0) AZ_UNIT in
  let point_num_in_bowei := nth 2 data_temp1 0 in
  if (point_num_in_bowei <? 0) || (1000 <? point_num_in_bowei) then none else
  let param_count := point_num_in_bowei * 4 + 5 in
  param_bytes <- read (param_count * 4) ;;
  if Z.of_nat (length param_bytes) <? param_count * 4 then none else
  let data_temp := frombuffer_u32 param_bytes in
  let track_no_info :=
    if 0 <? point_num_in_bowei
    then firstn (Z.to_nat (point_num_in_bowei * 4)) data_temp else [] in
  let base_idx := Z.to_nat (point_num_in_bowei * 4) in
  let params :=
    mkParameters
      e_scan_az
      track_no_info
      (scaled (nth base_idx data_temp 0) FREQ_UNIT)
      (nth (base_idx + 1)%nat data_temp 0)
      (nth (base_idx + 2)%nat data_temp 0)
      (scaled (nth (base_idx + 3)%nat data_temp 0) PRT_UNIT)
      (nth (base_idx + 4)%nat data_temp 0) in
  if negb (decoded_scalars_ok params) then none else
  let iq_data_len := prt_num params * 31 * 2 in
  data_bytes <- read (iq_data_len * 4) ;;
  if Z.of_nat (length data_bytes) <? iq_data_len * 4 then none else
  let data_out_temp := frombuffer_u32 data_bytes in
  let data_out_real := stride2 data_out_temp in
  let data_out_imag := stride2 (tl data_out_temp) in
  let data_out_complex :=
    map (fun s => F32.complex (fst s) (snd s))
        (combine data_out_real data_out_imag) in
  if negb (length data_out_complex =? 31 * Z.to_nat (prt_num params))%nat
  then none else
  let data_out := reshape 31 (Z.to_nat (prt_num params)) data_out_complex in
  seek_cur 4 ;;;
  ret (params, data_out).

(** [read_raw_data(fid)] with the cursor at [pos]. *)
Definition read_raw_data : io (Parameters * IQMatrix) :=
  locate ;;; decode.

(** The little-endian word stored at byte offset [k]. *)
Definition word_at (k : Z) : Z :=
  unpack_u32 (firstn 4 (skipn (Z.to_nat k) buf)).

(** A structurally valid frame of [fdl] bytes at header offset [o]:
    header sentinel at [o], declared length [fdl] (a word count times 4,
    within bounds) after it, trailer sentinel in the last four bytes. *)
Definition valid_frame_at (o fdl : Z) : Prop :=
  0 <= o /\ o + fdl <= file_size
  /\ word_at o = FRAME_HEAD
  /\ word_at (o + 4) * 4 = fdl
  /\ bad_length fdl = false
  /\ word_at (o + fdl - 4) = FRAME_END.

(** No header sentinel starts at a byte offset in [[from, o)]. *)
Definition first_header_at (from o : Z) : Prop :=
  forall k, from <= k < o -> word_at k <> FRAME_HEAD.

(** The header word and the length of a candidate are those stored at
    its position. *)
Definition candidate_ok (c : Candidate) : Prop :=
  0 <= head_pos c
  /\ head_pos c + 8 <= file_size
  /\ head_find c = word_at (head_pos c)
  /\ frame_data_length c = word_at (head_pos c + 4) * 4
  /\ bad_length (frame_data_length c) = false.

End Handle.

End File.

(** ** The frame loop of [_process_batch] *)

(** Shape of one map, and [np.stack(maps, axis=0)]: an empty list or
    maps of different shapes are a [ValueError]. *)
Definition shape3 (m : RDMap) : nat * nat * nat :=
  (length m, length (hd [] m), length (hd [] (hd [] m))).

Definition same_shape (a b : RDMap) : bool :=
  let '(r, c, ch) := shape3 a in
  let '(r', c', ch') := shape3 b in
  ((r =? r') && (c =? c') && (ch =? ch'))%nat.

Definition stack (maps : list RDMap) : option (list RDMap) :=
  match maps with
  | [] => None
  | m :: rest => if forallb (same_shape m) rest then Some maps else None
  end.

Section Pipeline.

(** The optional [transform] hook of the dataset. *)
Variable transform : option (RDMap -> RDMap).

(** Magnitudes of [fftshift(fft(data * taylor_window, axis=1), axes=1)];
    the window and the transform themselves are not embedded. *)
Variable spectrum_abs : IQMatrix -> list (list Q).

(** The promotion rule of the installed NumPy. *)
Variable numpy : Np.promotion.

Definition apply_transform (m : RDMap) : RDMap :=
  match transform with
  | Some f => f m
  | None => m
  end.

(** From "save the MTD result" to the [append]. *)
Definition map_builder (mag : list (list Q)) (v : list Q) : outcome RDMap :=
  match notched mag v with
  | Emit rd_matrix =>
      Emit (apply_transform (add_channel (noise_floor rd_matrix)))
  | Skip => Skip
  | Raise => Raise
  end.

(** Localisation followed by the map builder. *)
Definition frame_tail (p : Parameters) (va : VelocityAxis)
           (mag : list (list Q)) : outcome RDMap :=
  if localize numpy p va mag then map_builder mag (v_axis va) else Skip.

(** The inner [try ... except Exception: continue] of the frame loop. *)
Definition try_frame {A} (o : outcome A) : outcome A :=
  match o with
  | Raise => Skip
  | _ => o
  end.

(** One iteration of the frame loop on a decoded frame. *)
Definition process_frame (p : Parameters) (data : IQMatrix) : outcome RDMap :=
  if negb (frame_guards_ok p) then Skip else
  try_frame
    match velocity_axis p with
    | None => Skip
    | Some va => frame_tail p va (spectrum_abs data)
    end.

(** Content of the raw file of the batch. *)
Variable buf : list byte.

(** [while True: ...] from the cursor [pos], with the maps appended so
    far. *)
Fixpoint frame_loop (fuel : nat) (pos : Z) (rd_matrices : list RDMap)
  : File.result (list RDMap) :=
  match fuel with
  | O => File.Fuel
  | S fuel' =>
      match File.read_raw_data buf pos with
      | File.Val (params, data) pos' =>
          match process_frame params data with
          | Emit rd_matrix =>
              frame_loop fuel' pos' (rd_matrices ++ [rd_matrix])
          | Skip => frame_loop fuel' pos' rd_matrices
          | Raise => File.Exn
          end
      | File.NoFrame => File.Val rd_matrices pos
      | File.Exn => File.Exn
      | File.Fuel => File.Fuel
      end
  end.

(** [RDSeq._process_batch] on an opened file: [None] is a raised
    [ValueError], from the outer handler or from [np.stack]. *)
Definition process_batch : option (list RDMap) :=
  match frame_loop (S (length buf)) 0 [] with
  | File.Val rd_matrices _ => stack rd_matrices
  | _ => None
  end.

End Pipeline.

(** ** Test encoders *)

Module Encoder.

(** Modelled from the spec: [struct.pack('<I', w)], the little-endian
    word of the frame-format table. *)
Definition pack_u32 (w : Z) : list byte := le_split 4 w.

(** Modelled from the spec: a run of little-endian words. *)
Definition pack_words (ws : list Z) : list byte := flat_map pack_u32 ws.

(** Modelled from the spec: the raw integer behind a scaled field
    (azimuth = raw x 0.01, freq = raw x 1e6, prt = raw x 0.0125e-6),
    rounded to the nearest. *)
Definition unscale (x scale : Q) : Z := Qfloor (x / scale + (1 # 2)).

(** Modelled from the spec: IQ samples in file order, range-major, real
    then imaginary. *)
Definition interleave (iq : IQMatrix) : list Z :=
  flat_map (fun s => [F32.to_bits (fst s); F32.to_bits (snd s)]) (concat iq).

(** Modelled from the spec: the words from the raw azimuth to the range
    bin count, in the order of the frame-format table. *)
Definition parameter_words (p : Parameters) : list Z :=
  [unscale (e_scan_az p) (1 # 100);
   Z.of_nat (length (track_no_info p)) / 4]
  ++ track_no_info p
  ++ [unscale (freq p) 1000000;
      cpi_count p;
      prt_num p;
      unscale (prt p) (1 # 80000000);
      data_length p].

(** Modelled from the spec: a frame around [payload]: header, declared
    length in words (the trailer ends the declared length), payload,
    trailer. *)
Definition frame (payload : list Z) : list byte :=
  pack_words
    ([File.FRAME_HEAD; Z.of_nat (length payload) + 3]
     ++ payload ++ [File.FRAME_END]).

(** Modelled from the spec: the symmetric test encoder, which is not in
    the repository (as are the helpers above, which it is made of); it
    writes the fields of the frame-format table of the spec in the
    documented order, the unused scan index as 0. *)
Definition encode_documented (p : Parameters) (iq : IQMatrix) : list byte :=
  frame ([0] ++ parameter_words p ++ interleave iq).

(** Modelled from the spec: the same test encoder without the
    scan-index word, so that the azimuth follows the declared length. *)
Definition encode (p : Parameters) (iq : IQMatrix) : list byte :=
  frame (parameter_words p ++ interleave iq).

(** A value that fits an unsigned 32-bit word. *)
Definition u32 (w : Z) : Prop := 0 <= w < 2 ^ 32.

(** What the encoder can write without loss: scaled fields that come
    from raw words, words within 32 bits, a track block of whole hints
    (at most 1000 of them), scalars within the documented bounds, and an
    IQ matrix of 31 rows of [prt_num] samples whose parts are finite
    and not [-0.0]. *)
Definition representable (p : Parameters) (iq : IQMatrix) : Prop :=
  (exists az f r,
      u32 az /\ u32 f /\ u32 r
      /\ e_scan_az p = scaled az AZ_UNIT
      /\ freq p = scaled f FREQ_UNIT
      /\ prt p = scaled r PRT_UNIT)
  /\ Forall u32 (track_no_info p)
  /\ (exists count, 0 <= count <= 1000
                    /\ Z.of_nat (length (track_no_info p)) = count * 4)
  /\ u32 (cpi_count p) /\ u32 (data_length p)
  /\ decoded_scalars_ok p = true
  /\ length iq = 31%nat
  /\ Forall (fun row => length row = Z.to_nat (prt_num p)) iq
  /\ Forall (Forall (fun s => F32.plain (fst s) /\ F32.plain (snd s))) iq.

(** Bytes of the frame written by [encode]: ten words around the track
    block and the IQ payload. *)
Definition frame_bytes (p : Parameters) : Z :=
  4 * (10 + Z.of_nat (length (track_no_info p)) + 62 * prt_num p).

End Encoder.

(** ** Sample frames *)

Module Sample.

(** A frame of two pulses at 1 GHz with a 0.75 ms repetition interval,
    azimuth 20 degrees, one track hint. *)
Definition params (cpi : Z) : Parameters :=
  mkParameters (scaled 2000 AZ_UNIT) [1; 2; 3; 1]
               (scaled 1000 FREQ_UNIT) cpi 2
               (scaled 60000 PRT_UNIT) 31.

Definition zero_sample : IQSample := (F32.Bits 0, F32.Bits 0).

Definition iq : IQMatrix := repeat [zero_sample; zero_sample] 31.

(** A flat spectrum in place of the MTD output: magnitude 1 in every
    cell of the data. *)
Definition flat_spectrum (data : IQMatrix) : list (list Q) :=
  map (map (fun _ => 1%Q)) data.

(** A frame of twelve pulses whose Doppler hint is re-centred to
    column 6. *)
Definition wide_params (cpi : Z) : Parameters :=
  mkParameters (scaled 2000 AZ_UNIT) [1; 2; 3; 1]
               (scaled 1000 FREQ_UNIT) cpi 12
               (scaled 60000 PRT_UNIT) 31.

Definition wide_iq : IQMatrix := repeat (repeat zero_sample 12) 31.


(** A header sentinel followed by a zero length, then a minimal valid
    frame (header, length 3 words, trailer) at offset 8. *)
Definition decoy_then_frame : list byte :=
  Encoder.pack_words [File.FRAME_HEAD; 0]
  ++ Encoder.frame [].

(** A frame of 5000 pulses: within the documented bounds of the
    fields, 1,240,056 bytes long. *)
Definition long_params : Parameters :=
  mkParameters (scaled 2000 AZ_UNIT) [1; 2; 3; 1]
               (scaled 1000 FREQ_UNIT) 0 5000
               (scaled 60000 PRT_UNIT) 31.

Definition long_iq : IQMatrix := repeat (repeat zero_sample 5000) 31.

(** Two pulses whose samples are [1.0 + inf j] and [-0.0 + 0.0 j], and
    what line 230 makes of them: [nan + inf j] and [0.0 + 0.0 j]. *)
Definition special_iq : IQMatrix :=
  repeat [(F32.Bits 0x3F800000, F32.Bits 0x7F800000);
          (F32.Bits F32.NEG_ZERO, F32.Bits F32.POS_ZERO)] 31.

Definition special_iq_decoded : IQMatrix :=
  repeat [(F32.NaN, F32.Bits 0x7F800000); zero_sample] 31.

(** Three stray bytes, then a minimal valid frame at offset 3. *)
Definition misaligned_frame : list byte :=
  [Byte.x01; Byte.x02; Byte.x03] ++ Encoder.frame [].

End Sample.

(** ** Outcomes of file computations *)

(** A result that is a value satisfying [P] or [None, None]: neither an
    escaping exception nor an exhausted iteration budget. *)
Definition safe {A} (P : A -> Z -> Prop) (r : File.result A) : Prop :=
  match r with
  | File.Val a pos => P a pos
  | File.NoFrame => True
  | File.Exn => False
  | File.Fuel => False
  end.

(** What every decoded frame satisfies, for a read that started at
    [pos] in a file of [size] bytes and ended at [pos']. *)
Definition decoded_frame_ok (size pos : Z) (frame : Parameters * IQMatrix)
           (pos' : Z) : Prop :=
  let (p, data) := frame in
  decoded_scalars_ok p = true
  /\ (exists count, 0 <= count <= 1000
                    /\ Z.of_nat (length (track_no_info p)) = count * 4)
  /\ Forall Encoder.u32 (track_no_info p)
  /\ length data = 31%nat
  /\ Forall (fun row => Z.of_nat (length row) = prt_num p) data
  /\ pos + 288 <= pos' <= size + 4.

(** ** Files of several frames *)




(** ** Shapes *)

(** A matrix of [rows] rows of [cols] cells each. *)
Definition has_shape {A} (rows cols : Z) (m : list (list A)) : Prop :=
  Z.of_nat (length m) = rows
  /\ Forall (fun row => Z.of_nat (length row) = cols) m.

(** Number of columns kept by a boolean mask. *)
Definition kept (mask : list bool) : nat := length (filter (fun b => b) mask).

(** ** Train/validation split *)

Record BatchFile := mkBatchFile {
  batch_num : Z;
  label : Z;
  raw_file : String.string;
  point_file : String.string;
  track_file : String.string
}.

Module Split.

(** [l[i] = f(l[i])] for an index inside the list. *)
Fixpoint update_at {A} (i : nat) (f : A -> A) (l : list A) : list A :=
  match l, i with
  | [], _ => []
  | x :: rest, O => f x :: rest
  | x :: rest, S j => x :: update_at j f rest
  end.

(** [l[lo:hi]] on a list. *)
Definition py_slice {A} (lo hi : Z) (l : list A) : list A :=
  let n := Z.of_nat (length l) in
  let a := Np.slice_bound n lo in
  let b := Np.slice_bound n hi in
  firstn (Z.to_nat (b - a)) (skipn (Z.to_nat a) l).

(** [int(x)]: truncation toward zero. *)
Definition int_of_float (x : Q) : Z :=
  if Qle_bool 0 x then Qfloor x else Qceiling x.

(** One turn of the counting loop: files whose class is outside
    [0, num_classes) are passed over. *)
Definition add_batch (num_classes : Z)
           (st : list Z * list (list BatchFile)) (batch_file : BatchFile)
  : list Z * list (list BatchFile) :=
  let cls := label batch_file - 1 in
  if (cls <? 0) || (num_classes <=? cls) then st
  else (update_at (Z.to_nat cls) (fun k => k + 1) (fst st),
        update_at (Z.to_nat cls) (fun l => l ++ [batch_file]) (snd st)).

(** [label_nums] and [batch_files_by_cls] after the counting loop. *)
Definition count_by_class (num_classes : Z) (batch_files : list BatchFile)
  : list Z * list (list BatchFile) :=
  fold_left (add_batch num_classes) batch_files
            (repeat 0 (Z.to_nat num_classes), repeat [] (Z.to_nat num_classes)).

Section SplitTrainVal.

(** The permutation that [random.shuffle] applies to the list of class
    [i]. *)
Variable rng_shuffle : nat -> list BatchFile -> list BatchFile.

(** One turn of the splitting loop. *)
Definition split_class (shuffle : bool) (train_nums val_nums : list Z)
           (acc : list BatchFile * list BatchFile)
           (entry : nat * list BatchFile)
  : list BatchFile * list BatchFile :=
  let (i, batch_file) := entry in
  let batch_file' := if shuffle then rng_shuffle i batch_file
                     else batch_file in
  let t := nth i train_nums 0 in
  let v := nth i val_nums 0 in
  (fst acc ++ py_slice 0 t batch_file',
   snd acc ++ py_slice t (t + v) batch_file').

(** [split_train_val] from the list returned by
    [get_batch_file_list]. *)
Definition split_train_val (batch_files : list BatchFile) (num_classes : Z)
           (val_ratio : Q) (shuffle : bool)
  : list BatchFile * list BatchFile :=
  let (label_nums, batch_files_by_cls) :=
    count_by_class num_classes batch_files in
  let train_nums :=
    map (fun num => int_of_float (inject_Z num * (1 - val_ratio)))
        label_nums in
  let val_nums :=
    map (fun nt => fst nt - snd nt) (combine label_nums train_nums) in
  fold_left (split_class shuffle train_nums val_nums)
            (combine (seq 0 (length batch_files_by_cls)) batch_files_by_cls)
            ([], []).

End SplitTrainVal.

(** A file whose label names one of the classes. *)
Definition in_classes (num_classes : Z) (b : BatchFile) : bool :=
  (1 <=? label b) && (label b <=? num_classes).

(** A listing with labels 1, 2, 3, 0, 1, 1, 2. *)
Section SampleFiles.

Import String.StringSyntax.
Local Open Scope string_scope.

Definition sample_files : list BatchFile :=
  map (fun nl => mkBatchFile (fst nl) (snd nl) "raw.dat"
                             "PointTracks.txt" "Tracks.txt")
      [(1, 1); (2, 2); (3, 3); (4, 0); (5, 1); (6, 1); (7, 2)].

End SampleFiles.

End Split.


(** * Properties *)

(** ** Rounding to [float64] *)

Section Rounding.

Local Open Scope Q_scope.

Lemma pow2_pos (e : Z) : 0 < 2 ^ e.
Proof. apply Qpower_0_lt. reflexivity. Qed.

Lemma pow2_plus (a b : Z) : 2 ^ (a + b) == 2 ^ a * 2 ^ b.
Proof. apply Qpower_plus. discriminate. Qed.

Lemma pow2_of_Z (a : Z) : (0 <= a)%Z -> inject_Z (2 ^ a) == 2 ^ a.
Proof. intros H. apply (Zpower_Qpower 2 a H). Qed.

Lemma pow2_le (a b : Z) : (a <= b)%Z -> 2 ^ a <= 2 ^ b.
Proof. intros H. apply Qpower_le_compat_l; [exact H | discriminate]. Qed.

(** [ilog2 x] is the binary exponent of a positive [x]. *)
Lemma ilog2_spec (x : Q) :
  0 < x -> 2 ^ F64.ilog2 x <= x /\ x < 2 ^ (F64.ilog2 x + 1).
Proof.
  intros Hx. destruct x as [n d].
  assert (Hn : (0 < n)%Z) by (unfold Qlt in Hx; simpl in Hx; lia).
  unfold F64.ilog2. cbn [Qnum Qden].
  set (a := Z.log2 n). set (b := Z.log2 (Zpos d)).
  destruct (Z.log2_spec n Hn) as [Ha1 Ha2]. fold a in Ha1, Ha2.
  destruct (Z.log2_spec (Zpos d) (Pos2Z.is_pos d)) as [Hb1 Hb2].
  fold b in Hb1, Hb2.
  assert (Ha0 : (0 <= a)%Z) by apply Z.log2_nonneg.
  assert (Hb0 : (0 <= b)%Z) by apply Z.log2_nonneg.
  assert (Hxe : n # d == inject_Z n / inject_Z (Zpos d)) by apply Qmake_Qdiv.
  assert (Hd : 0 < inject_Z (Zpos d)) by reflexivity.
  assert (Hlow : 2 ^ (a - b - 1) <= n # d).
  { rewrite Hxe. apply Qle_shift_div_l; [exact Hd|].
    apply Qle_trans with (2 ^ (a - b - 1) * 2 ^ (b + 1)).
    - apply Qmult_le_l; [apply pow2_pos|].
      rewrite <- pow2_of_Z by lia. rewrite <- Zle_Qle.
      replace (Z.succ b) with (b + 1)%Z in Hb2 by lia. lia.
    - rewrite <- pow2_plus. replace (a - b - 1 + (b + 1))%Z with a by lia.
      rewrite <- pow2_of_Z by lia. rewrite <- Zle_Qle. exact Ha1. }
  assert (Hhigh : n # d < 2 ^ (a - b + 1)).
  { rewrite Hxe. apply Qlt_shift_div_r; [exact Hd|].
    apply Qlt_le_trans with (2 ^ (a - b + 1) * 2 ^ b).
    - rewrite <- pow2_plus. replace (a - b + 1 + b)%Z with (a + 1)%Z by lia.
      rewrite <- pow2_of_Z by lia. rewrite <- Zlt_Qlt.
      replace (Z.succ a) with (a + 1)%Z in Ha2 by lia. exact Ha2.
    - apply Qmult_le_l; [apply pow2_pos|].
      rewrite <- pow2_of_Z by lia. rewrite <- Zle_Qle. exact Hb1. }
  destruct (Qle_bool (2 ^ (a - b)) (n # d)) eqn:E.
  - apply Qle_bool_iff in E. split; [exact E | exact Hhigh].
  - split; [exact Hlow|].
    replace (a - b - 1 + 1)%Z with (a - b)%Z by lia.
    apply Qnot_le_lt. intro H. apply Qle_bool_iff in H. congruence.
Qed.

Lemma ilog2_le (x y : Q) : 0 < x -> x <= y -> (F64.ilog2 x <= F64.ilog2 y)%Z.
Proof.
  intros Hx Hxy.
  destruct (ilog2_spec x Hx) as [Hx1 _].
  destruct (ilog2_spec y) as [_ Hy2]; [lra|].
  assert (H : (F64.ilog2 x < F64.ilog2 y + 1)%Z); [|lia].
  apply (Qpower_lt_compat_l_inv 2); [lra | reflexivity].
Qed.

(** [nearest_even x] is an integer nearest to [x]. *)
Lemma nearest_even_spec (x : Q) :
  Qabs (inject_Z (F64.nearest_even x) - x) <= 1 # 2
  /\ (Qfloor x <= F64.nearest_even x <= Qfloor x + 1)%Z.
Proof.
  unfold F64.nearest_even.
  pose proof (Qfloor_le x) as Hlo. pose proof (Qlt_floor x) as Hhi.
  rewrite inject_Z_plus in Hhi. change (inject_Z 1) with 1 in Hhi.
  set (f := Qfloor x) in *.
  destruct (Qcompare_spec (x - inject_Z f) (1 # 2)) as [E|E|E].
  - destruct (Z.even f); (split; [|lia]); apply Qabs_Qle_condition;
      rewrite ?inject_Z_plus; change (inject_Z 1) with 1; split; lra.
  - split; [|lia]. apply Qabs_Qle_condition. split; lra.
  - split; [|lia]. apply Qabs_Qle_condition.
    rewrite inject_Z_plus. change (inject_Z 1) with 1. split; lra.
Qed.

Lemma nearest_even_Z (z : Z) : F64.nearest_even (inject_Z z) = z.
Proof.
  unfold F64.nearest_even. rewrite Qfloor_Z.
  destruct (Qcompare_spec (inject_Z z - inject_Z z) (1 # 2)) as [E|E|E].
  - exfalso. lra.
  - reflexivity.
  - exfalso. lra.
Qed.

Lemma nearest_even_comp (x y : Q) :
  x == y -> F64.nearest_even x = F64.nearest_even y.
Proof.
  intros H. unfold F64.nearest_even.
  rewrite (Qfloor_comp x y H).
  assert (E : (x - inject_Z (Qfloor y) ?= 1 # 2)
              = (y - inject_Z (Qfloor y) ?= 1 # 2)).
  { apply Qcompare_comp; [rewrite H; reflexivity | reflexivity]. }
  rewrite E. reflexivity.
Qed.

Lemma nearest_even_le (a b : Q) :
  a <= b -> (F64.nearest_even a <= F64.nearest_even b)%Z.
Proof.
  intros Hab.
  destruct (nearest_even_spec a) as [_ [Ha1 Ha2]].
  destruct (nearest_even_spec b) as [_ [Hb1 Hb2]].
  pose proof (Qfloor_resp_le a b Hab) as Hf.
  destruct (Z.eq_dec (Qfloor a) (Qfloor b)) as [E|Hne]; [|lia].
  clear Ha1 Ha2 Hb1 Hb2. unfold F64.nearest_even. rewrite <- E.
  set (f := Qfloor a) in *.
  destruct (Qcompare_spec (a - inject_Z f) (1 # 2)) as [Ea|Ea|Ea];
    destruct (Qcompare_spec (b - inject_Z f) (1 # 2)) as [Eb|Eb|Eb];
    try destruct (Z.even f); try lia; exfalso; lra.
Qed.

(** A positive number is rounded to a multiple [m * 2^e] of the unit
    in its last place, with [2^52 <= m <= 2^53], at most half a unit
    away. *)
Lemma round_pos_spec (x : Q) :
  0 < x ->
  let e := (F64.ilog2 x - 52)%Z in
  exists m : Z,
    F64.round_pos x = inject_Z m * 2 ^ e
    /\ (2 ^ 52 <= m <= 2 ^ 53)%Z
    /\ Qabs (inject_Z m * 2 ^ e - x) <= 2 ^ e * (1 # 2)
    /\ 2 ^ e * inject_Z (2 ^ 52) <= x.
Proof.
  intros Hx e. destruct (ilog2_spec x Hx) as [Hlo Hhi].
  pose proof (pow2_pos e) as He.
  set (s := x / 2 ^ e).
  assert (Hs : x == s * 2 ^ e) by (unfold s; field; lra).
  assert (Hs1 : inject_Z (2 ^ 52) <= s).
  { unfold s. apply Qle_shift_div_l; [exact He|].
    rewrite pow2_of_Z by lia. rewrite <- pow2_plus.
    replace (52 + e)%Z with (F64.ilog2 x) by (unfold e; lia). exact Hlo. }
  assert (Hs2 : s < inject_Z (2 ^ 53)).
  { unfold s. apply Qlt_shift_div_r; [exact He|].
    rewrite pow2_of_Z by lia. rewrite <- pow2_plus.
    replace (53 + e)%Z with (F64.ilog2 x + 1)%Z by (unfold e; lia). exact Hhi. }
  destruct (nearest_even_spec s) as [Hnear [Hf1 Hf2]].
  exists (F64.nearest_even s). split; [reflexivity|]. split; [|split].
  - split.
    + apply Z.le_trans with (Qfloor s); [|exact Hf1].
      rewrite <- (Qfloor_Z (2 ^ 52)). apply Qfloor_resp_le. exact Hs1.
    + assert (Qfloor s < 2 ^ 53)%Z; [|lia].
      assert (H : inject_Z (Qfloor s) < inject_Z (2 ^ 53))
        by (eapply Qle_lt_trans; [apply Qfloor_le | exact Hs2]).
      rewrite <- Zlt_Qlt in H. exact H.
  - rewrite Hs.
    setoid_replace (inject_Z (F64.nearest_even s) * 2 ^ e - s * 2 ^ e)
      with ((inject_Z (F64.nearest_even s) - s) * 2 ^ e) by ring.
    rewrite Qabs_Qmult. rewrite (Qabs_pos (2 ^ e)) by lra.
    rewrite (Qmult_comm (2 ^ e)). apply Qmult_le_compat_r; [exact Hnear | lra].
  - rewrite Hs. rewrite (Qmult_comm (2 ^ e)).
    apply Qmult_le_compat_r; [exact Hs1 | lra].
Qed.

Lemma round_pos_error (x : Q) :
  0 < x ->
  0 < F64.round_pos x
  /\ Qabs (F64.round_pos x - x) <= x * (1 # 2 ^ 53).
Proof.
  intros Hx. destruct (round_pos_spec x Hx) as (m & Em & [Hm1 Hm2] & Herr & Hxe).
  set (e := (F64.ilog2 x - 52)%Z) in *.
  pose proof (pow2_pos e) as He.
  rewrite Em. split.
  - apply Qmult_lt_0_compat; [|exact He].
    change 0 with (inject_Z 0). rewrite <- Zlt_Qlt. lia.
  - eapply Qle_trans; [exact Herr|].
    apply Qle_trans with (2 ^ e * inject_Z (2 ^ 52) * (1 # 2 ^ 53)).
    + assert (H : inject_Z (2 ^ 52) * (1 # 2 ^ 53) == 1 # 2) by reflexivity.
      rewrite <- Qmult_assoc, H. apply Qle_refl.
    + apply Qmult_le_compat_r; [exact Hxe | discriminate].
Qed.

Lemma round_pos_le (x y : Q) :
  0 < x -> x <= y -> F64.round_pos x <= F64.round_pos y.
Proof.
  intros Hx Hxy. assert (Hy : 0 < y) by lra.
  pose proof (ilog2_le x y Hx Hxy) as Hl.
  destruct (Z.eq_dec (F64.ilog2 x) (F64.ilog2 y)) as [E|Hne].
  - unfold F64.round_pos. rewrite <- E.
    set (e := (F64.ilog2 x - (F64.prec - 1))%Z).
    pose proof (pow2_pos e) as He.
    apply Qmult_le_compat_r; [|lra].
    rewrite <- Zle_Qle. apply nearest_even_le.
    apply Qmult_le_compat_r; [exact Hxy|].
    apply Qlt_le_weak, Qinv_lt_0_compat. exact He.
  - destruct (round_pos_spec x Hx) as (mx & Ex & [_ Hmx] & _).
    destruct (round_pos_spec y Hy) as (my & Ey & [Hmy _] & _).
    rewrite Ex, Ey.
    apply Qle_trans with (2 ^ (F64.ilog2 x + 1)).
    + apply Qle_trans with (inject_Z (2 ^ 53) * 2 ^ (F64.ilog2 x - 52)).
      * apply Qmult_le_compat_r; [|apply Qlt_le_weak, pow2_pos].
        rewrite <- Zle_Qle. exact Hmx.
      * rewrite pow2_of_Z by lia. rewrite <- pow2_plus.
        replace (53 + (F64.ilog2 x - 52))%Z with (F64.ilog2 x + 1)%Z by lia.
        apply Qle_refl.
    + apply Qle_trans with (inject_Z (2 ^ 52) * 2 ^ (F64.ilog2 y - 52)).
      * rewrite pow2_of_Z by lia. rewrite <- pow2_plus.
        apply pow2_le. lia.
      * apply Qmult_le_compat_r; [|apply Qlt_le_weak, pow2_pos].
        rewrite <- Zle_Qle. exact Hmy.
Qed.

Lemma round_pos_lt (x : Q) : 0 < x -> 0 < F64.round x.
Proof.
  intros Hx. destruct x as [[|n|n] d]; try discriminate Hx.
  unfold F64.round. cbn [Qnum]. apply round_pos_error. exact Hx.
Qed.

(** Rounding commutes with the change of sign. *)
Lemma round_opp (x : Q) : F64.round (- x) = - F64.round x.
Proof.
  destruct x as [[|n|n] d]; unfold F64.round; cbn [Qnum Qopp Z.opp].
  - reflexivity.
  - reflexivity.
  - destruct (F64.round_pos (Z.pos n # d)) as [a b].
    unfold Qopp. cbn [Qnum Qden]. rewrite Z.opp_involutive. reflexivity.
Qed.

Lemma round_neg_lt (x : Q) : x < 0 -> F64.round x < 0.
Proof.
  intros Hx. assert (H : 0 < F64.round (- x)) by (apply round_pos_lt; lra).
  rewrite round_opp in H. lra.
Qed.

Lemma round_zero (x : Q) : x == 0 -> F64.round x = 0.
Proof.
  intros Hx. destruct x as [[|n|n] d]; try discriminate Hx. reflexivity.
Qed.

(** Rounding gives zero for zero only. *)
Lemma round_eq_0_iff (x : Q) : F64.round x == 0 <-> x == 0.
Proof.
  split; intros H.
  - destruct (Q_dec x 0) as [[Hlt|Hgt]|Heq]; [| |exact Heq].
    + apply round_neg_lt in Hlt. lra.
    + apply round_pos_lt in Hgt. lra.
  - rewrite (round_zero x H). reflexivity.
Qed.

(** The relative error of one rounding is at most [2^-53]. *)
Lemma round_error (x : Q) :
  Qabs (F64.round x - x) <= Qabs x * (1 # 2 ^ 53).
Proof.
  destruct (Q_dec x 0) as [[Hlt|Hgt]|Heq].
  - assert (Hx : 0 < - x) by lra.
    destruct (round_pos_error (- x) Hx) as [_ H].
    assert (E : F64.round x = - F64.round_pos (- x)).
    { destruct x as [[|n|n] d]; try discriminate Hlt. reflexivity. }
    rewrite E. rewrite (Qabs_neg x) by lra.
    setoid_replace (- F64.round_pos (- x) - x)
      with (- (F64.round_pos (- x) - - x)) by ring.
    rewrite Qabs_opp. exact H.
  - destruct (round_pos_error x Hgt) as [_ H].
    assert (E : F64.round x = F64.round_pos x).
    { destruct x as [[|n|n] d]; try discriminate Hgt. reflexivity. }
    rewrite E. rewrite (Qabs_pos x) by lra. exact H.
  - rewrite (round_zero x Heq). rewrite Heq. discriminate.
Qed.

(** The error bound for a non-negative number, on both sides. *)
Lemma round_near (x : Q) :
  0 <= x ->
  x * (1 - (1 # 2 ^ 53)) <= F64.round x <= x * (1 + (1 # 2 ^ 53)).
Proof.
  intros Hx. pose proof (round_error x) as H.
  rewrite (Qabs_pos x) in H by exact Hx.
  apply Qabs_Qle_condition in H. split; lra.
Qed.

(** Rounding is monotone. *)
Lemma round_le (x y : Q) : x <= y -> F64.round x <= F64.round y.
Proof.
  intros Hxy.
  destruct (Q_dec x 0) as [[Hx|Hx]|Hx]; destruct (Q_dec y 0) as [[Hy|Hy]|Hy].
  - assert (E : forall z, z < 0 -> F64.round z = - F64.round_pos (- z)).
    { intros [[|n|n] d] Hz; try discriminate Hz. reflexivity. }
    rewrite (E x Hx), (E y Hy).
    assert (H : F64.round_pos (- y) <= F64.round_pos (- x))
      by (apply round_pos_le; lra).
    lra.
  - apply Qlt_le_weak. apply Qlt_trans with 0;
      [apply round_neg_lt | apply round_pos_lt]; assumption.
  - rewrite (round_zero y Hy). apply Qlt_le_weak, round_neg_lt. exact Hx.
  - exfalso. lra.
  - assert (E : forall z, 0 < z -> F64.round z = F64.round_pos z).
    { intros [[|n|n] d] Hz; try discriminate Hz. reflexivity. }
    rewrite (E x Hx), (E y); [|lra]. apply round_pos_le; assumption.
  - exfalso. lra.
  - exfalso. lra.
  - rewrite (round_zero x Hx). apply Qlt_le_weak, round_pos_lt. exact Hy.
  - rewrite (round_zero x Hx), (round_zero y Hy). apply Qle_refl.
Qed.

(** Rounding respects the equality of rationals. *)
Lemma round_comp (x y : Q) : x == y -> F64.round x == F64.round y.
Proof.
  intros H. apply Qle_antisym; apply round_le; rewrite H; apply Qle_refl.
Qed.

(** Integers below [2^53] are [float64] values. *)
Lemma round_Z (z : Z) :
  (0 <= z < 2 ^ 53)%Z -> F64.round (inject_Z z) == inject_Z z.
Proof.
  intros [Hz0 Hz]. destruct (Z.eq_dec z 0) as [->|Hne]; [reflexivity|].
  assert (Hx : 0 < inject_Z z)
    by (change 0 with (inject_Z 0); rewrite <- Zlt_Qlt; lia).
  assert (E : F64.round (inject_Z z) = F64.round_pos (inject_Z z)).
  { destruct z as [|n|n]; try lia. reflexivity. }
  rewrite E. unfold F64.round_pos.
  destruct (ilog2_spec _ Hx) as [Hlo _].
  set (l := F64.ilog2 (inject_Z z)) in *.
  assert (Hl : (l < 53)%Z).
  { apply (Qpower_lt_compat_l_inv 2); [|reflexivity].
    eapply Qle_lt_trans; [exact Hlo|].
    rewrite <- pow2_of_Z by lia. rewrite <- Zlt_Qlt. exact Hz. }
  change (F64.prec - 1)%Z with 52%Z.
  set (k := (52 - l)%Z).
  assert (Hk : (0 <= k)%Z) by (unfold k; lia).
  replace (l - 52)%Z with (- k)%Z by (unfold k; lia).
  assert (Hp : 2 ^ (- k) == / inject_Z (2 ^ k)).
  { rewrite Qpower_opp, pow2_of_Z by exact Hk. reflexivity. }
  assert (Hpk : 0 < inject_Z (2 ^ k)).
  { rewrite pow2_of_Z by exact Hk. apply pow2_pos. }
  rewrite (nearest_even_comp _ (inject_Z (z * 2 ^ k))).
  - rewrite nearest_even_Z, Hp, inject_Z_mult. field. lra.
  - rewrite Hp, inject_Z_mult. field. lra.
Qed.

End Rounding.

(** ** Sequence assembly *)

Section SliceFacts.

Context {A : Type}.

(** Assigning to a slice that selects no position changes nothing. *)
Lemma masked_map_id (cond : nat -> bool) (v : A) (a : list A) (s : nat) :
  (forall i, (s <= i < s + length a)%nat -> cond i = false) ->
  map (fun p : nat * A => if cond (fst p) then v else snd p)
      (combine (seq s (length a)) a) = a.
Proof.
  revert s; induction a as [|x a IH]; intros s H; simpl; [reflexivity|].
  rewrite (H s) by (simpl; lia).
  f_equal. apply IH. intros i Hi. apply H. simpl; lia.
Qed.

Lemma slice_assign_from_length (v : A) (a : list A) :
  Np.slice_assign_from (Z.of_nat (length a)) v a = a.
Proof.
  unfold Np.slice_assign_from, Np.slice_assign.
  apply (masked_map_id
           (fun i => (Np.slice_bound (Z.of_nat (length a))
                                     (Z.of_nat (length a)) <=? Z.of_nat i)
                     && (Z.of_nat i <? Np.slice_bound (Z.of_nat (length a))
                                                      (Z.of_nat (length a))))).
  intros i _. apply andb_false_iff.
  destruct (Z.leb_spec (Np.slice_bound (Z.of_nat (length a))
                                       (Z.of_nat (length a))) (Z.of_nat i));
    [right; apply Z.ltb_ge; assumption | left; reflexivity].
Qed.

End SliceFacts.

(** C1: for a batch of N maps with 0 < N < L the sequence returned by
    [__getitem__] is the N maps followed by L - N zero maps, but the
    mask is cut at the length of the padded array, so all L of its
    entries stay 1 instead of N ones followed by L - N zeros. *)
Theorem C1_padding_mask_stays_all_ones :
  forall (L : nat) (label : Z) (images : list RDMap),
    (0 < length images < L)%nat ->
    RDSeq.getitem L label images =
      Some (images ++ repeat (zeros3 (shape_tail images)) (L - length images),
            repeat 1 L, label - 1)
    /\ count_occ Z.eq_dec (repeat 1 L) 1 = L
    /\ repeat 1 L <> repeat 1 (length images) ++ repeat 0 (L - length images).
Proof.
  intros L label images [Hpos Hlt].
  split; [|split].
  - unfold RDSeq.getitem.
    destruct (Nat.ltb_spec (length images) L) as [_|]; [|lia].
    assert (Hlen : length (images ++ repeat (zeros3 (shape_tail images))
                                            (L - length images)) = L)
      by (rewrite length_app, repeat_length; lia).
    rewrite Hlen, Nat.eqb_refl.
    replace (Z.of_nat L) with (Z.of_nat (length (repeat 1 L)))
      by (rewrite repeat_length; reflexivity).
    rewrite slice_assign_from_length. reflexivity.
  - clear. induction L as [|L IH]; simpl; [reflexivity|].
    destruct (Z.eq_dec 1 1); [f_equal; exact IH | contradiction].
  - intro Heq.
    assert (Hn : nth (length images) (repeat 1 L) 1 = 1)
      by (apply nth_repeat).
    rewrite Heq in Hn.
    rewrite app_nth2 in Hn by (rewrite repeat_length; lia).
    rewrite repeat_length, Nat.sub_diag in Hn.
    destruct (L - length images)%nat eqn:E; [lia|].
    simpl in Hn. discriminate.
Qed.

(** The documented instance: 100 maps for L = 180. *)
Lemma C1_padding_mask_100_of_180 :
  let images := repeat (zeros3 (31, 4, 1)%nat) 100 in
  (0 < length images < 180)%nat
  /\ RDSeq.getitem 180 1 images =
       Some (images ++ repeat (zeros3 (shape_tail images)) (180 - length images),
             repeat 1 180%nat, 1 - 1)
  /\ count_occ Z.eq_dec (repeat 1 180%nat) 1 = 180%nat.
Proof.
  assert (H : (0 < length (repeat (zeros3 (31, 4, 1)%nat) 100) < 180)%nat)
    by (rewrite repeat_length; lia).
  destruct (C1_padding_mask_stays_all_ones 180 1 _ H) as (H1 & H2 & _).
  split; [exact H | split; [exact H1 | exact H2]].
Defined.

(** *** Uniform resampling *)

Lemma linspace_int_length (start stop : Z) (num : nat) :
  length (Np.linspace_int start stop num) = num.
Proof.
  unfold Np.linspace_int. rewrite length_map.
  destruct (1 <? num)%nat eqn:E.
  - apply Nat.ltb_lt in E. destruct num as [|k]; [lia|].
    rewrite seq_S, map_app. cbn [map].
    rewrite removelast_last, length_app, length_map, length_seq. simpl. lia.
  - rewrite length_map, length_seq. reflexivity.
Qed.

Lemma nth_map_in {A B} (f : A -> B) (l : list A) (i : nat) (d : B) (d' : A) :
  (i < length l)%nat -> nth i (map f l) d = f (nth i l d').
Proof.
  revert i; induction l as [|x l IH]; intros [|i] Hi; simpl in *;
    try lia; [reflexivity | apply IH; lia].
Qed.

Lemma of_Z_pos (z : Z) : 0 < z -> (0 < F64.of_Z z)%Q.
Proof.
  intros Hz. apply round_pos_lt.
  change 0%Q with (inject_Z 0). rewrite <- Zlt_Qlt. exact Hz.
Qed.

Lemma of_Z_exact (z : Z) : 0 <= z < 2 ^ 53 -> (F64.of_Z z == inject_Z z)%Q.
Proof. apply round_Z. Qed.

Lemma linspace_int_nth (stop : Z) (num i : nat) :
  (2 <= num)%nat -> (i < num)%nat -> 0 < stop < 2 ^ 53 ->
  nth i (Np.linspace_int 0 stop num) 0 =
    if (i =? num - 1)%nat then Qfloor (F64.of_Z stop)
    else Qfloor (Np.strided stop num i).
Proof.
  intros Hnum Hi Hstop. unfold Np.linspace_int.
  destruct (Nat.ltb_spec 1 num) as [_|]; [|lia].
  set (delta := F64.sub (F64.of_Z stop) (F64.of_Z 0)).
  assert (Hdelta : (delta == F64.of_Z stop)%Q).
  { unfold delta, F64.sub. change (F64.of_Z 0) with 0%Q.
    rewrite (round_comp _ (inject_Z stop))
      by (rewrite (of_Z_exact stop) by lia; ring).
    reflexivity. }
  destruct (Z.ltb_spec 0 (Z.of_nat num - 1)) as [Hdiv|]; [|lia].
  assert (Hstep : Qeq_bool (F64.div delta (F64.of_Z (Z.of_nat num - 1))) 0
                  = false).
  { destruct (Qeq_bool _ 0) eqn:E; [|reflexivity].
    apply Qeq_bool_iff in E. unfold F64.div in E.
    apply (proj1 (round_eq_0_iff _)) in E.
    pose proof (of_Z_pos stop ltac:(lia)) as H1.
    pose proof (of_Z_pos _ Hdiv) as H2.
    assert (H3 : (0 < delta / F64.of_Z (Z.of_nat num - 1))%Q)
      by (apply Qlt_shift_div_l; [exact H2 | rewrite Hdelta; lra]).
    rewrite E in H3. discriminate H3. }
  rewrite Hstep.
  destruct num as [|k]; [lia|].
  rewrite seq_S, map_app. cbn [map].
  rewrite (map_app _ (seq 0 k)). cbn [map]. rewrite removelast_last.
  replace (S k - 1)%nat with k by lia.
  destruct (Nat.eqb_spec i k) as [->|Hne].
  - rewrite app_nth2 by (rewrite !length_map, length_seq; lia).
    rewrite !length_map, length_seq, Nat.sub_diag. reflexivity.
  - rewrite app_nth1 by (rewrite !length_map, length_seq; lia).
    rewrite map_map.
    rewrite (nth_map_in _ _ _ _ 0%nat) by (rewrite length_seq; lia).
    rewrite seq_nth by lia. cbn [Nat.add].
    apply Qfloor_comp. unfold Np.strided, F64.add. apply round_comp.
    apply Qplus_comp; [|reflexivity].
    unfold F64.mul. apply round_comp.
    apply Qmult_comp; [reflexivity|].
    unfold F64.div. apply round_comp.
    apply Qdiv_comp; [exact Hdelta | reflexivity].
Qed.

Lemma scale_between (a lo hi c : Q) :
  (0 <= c -> lo <= a <= hi -> c * lo <= c * a <= c * hi)%Q.
Proof. intros Hc [H1 H2]. split; nra. Qed.

(** Three roundings in a row, each of relative error at most [u], stay
    within [4 * u] of the exact product. *)
Lemma three_roundings (u s q i t y : Q) :
  (0 <= u -> u <= 1 # 4 -> 0 <= s -> 0 <= i ->
   s * (1 - u) <= q <= s * (1 + u) ->
   i * q * (1 - u) <= t <= i * q * (1 + u) ->
   t * (1 - u) <= y <= t * (1 + u) ->
   i * s * (1 - 4 * u) <= y <= i * s * (1 + 4 * u))%Q.
Proof.
  intros Hu0 Hu1 Hs Hi Hq Ht Hy.
  assert (Hx : (0 <= i * s)%Q) by nra.
  set (x := (i * s)%Q) in *.
  assert (Hiq : (x * (1 - u) <= i * q <= x * (1 + u))%Q).
  { unfold x. destruct Hq. split; nra. }
  set (w := (i * q)%Q) in *.
  assert (Hw : (0 <= w)%Q) by nra.
  assert (Ht0 : (0 <= t)%Q) by nra.
  assert (Ht2 : (x * ((1 - u) * (1 - u)) <= t
                 <= x * ((1 + u) * (1 + u)))%Q).
  { destruct Hiq, Ht. split.
    - apply Qle_trans with (w * (1 - u))%Q; [|assumption]. nra.
    - apply Qle_trans with (w * (1 + u))%Q; [assumption|]. nra. }
  assert (Hy3 : (x * ((1 - u) * (1 - u) * (1 - u)) <= y
                 <= x * ((1 + u) * (1 + u) * (1 + u)))%Q).
  { destruct Ht2, Hy. split.
    - apply Qle_trans with (t * (1 - u))%Q; [|assumption]. nra.
    - apply Qle_trans with (t * (1 + u))%Q; [assumption|]. nra. }
  assert (Hc1 : (1 - 4 * u <= (1 - u) * (1 - u) * (1 - u))%Q) by nra.
  assert (Hc2 : ((1 + u) * (1 + u) * (1 + u) <= 1 + 4 * u)%Q) by nra.
  destruct Hy3. split.
  - apply Qle_trans with (x * ((1 - u) * (1 - u) * (1 - u)))%Q; [|assumption].
    nra.
  - apply Qle_trans with (x * ((1 + u) * (1 + u) * (1 + u)))%Q; [assumption|].
    nra.
Qed.

Lemma near_nonneg (u s q : Q) :
  (u <= 1 -> 0 <= s -> s * (1 - u) <= q -> 0 <= q)%Q.
Proof. intros. nra. Qed.

Lemma inject_Z_nonneg (z : Z) : 0 <= z -> (0 <= inject_Z z)%Q.
Proof. intros H. change 0%Q with (inject_Z 0). rewrite <- Zle_Qle. exact H. Qed.

(** A sample of the stride is within [2^-51] (relative) of its exact
    position [i * stop / (num - 1)]. *)
Lemma strided_near (stop : Z) (num i : nat) :
  (2 <= num)%nat -> 0 <= stop < 2 ^ 53 -> Z.of_nat num < 2 ^ 53 ->
  (i < num)%nat ->
  let x := (inject_Z (Z.of_nat i)
            * (inject_Z stop / inject_Z (Z.of_nat num - 1)))%Q in
  (x * (1 - (1 # 2 ^ 51)) <= Np.strided stop num i
   <= x * (1 + (1 # 2 ^ 51)))%Q.
Proof.
  intros Hnum Hstop Hbig Hi x.
  set (d := Z.of_nat num - 1) in *.
  assert (Hd : 0 < d) by (unfold d; lia).
  assert (HdQ : (0 < inject_Z d)%Q)
    by (change 0%Q with (inject_Z 0); rewrite <- Zlt_Qlt; exact Hd).
  set (s := (inject_Z stop / inject_Z d)%Q) in *.
  assert (Hs : (0 <= s)%Q).
  { unfold s. apply Qle_shift_div_l; [exact HdQ|].
    rewrite Qmult_0_l. apply inject_Z_nonneg. lia. }
  assert (HiQ : (0 <= inject_Z (Z.of_nat i))%Q) by (apply inject_Z_nonneg; lia).
  unfold Np.strided. fold d.
  set (q := F64.div (F64.of_Z stop) (F64.of_Z d)).
  set (t := F64.mul (F64.of_Z (Z.of_nat i)) q).
  assert (Eq : (q == F64.round s)%Q).
  { unfold q, F64.div. apply round_comp. unfold s.
    rewrite (of_Z_exact stop) by lia. rewrite (of_Z_exact d) by lia.
    reflexivity. }
  assert (Hq : (s * (1 - (1 # 2 ^ 53)) <= q <= s * (1 + (1 # 2 ^ 53)))%Q).
  { rewrite Eq. apply round_near. exact Hs. }
  assert (Hq0 : (0 <= q)%Q).
  { apply (near_nonneg (1 # 2 ^ 53) s); [discriminate | exact Hs | apply Hq]. }
  assert (Hiq0 : (0 <= inject_Z (Z.of_nat i) * q)%Q)
    by (apply Qmult_le_0_compat; assumption).
  assert (Et : (t == F64.round (inject_Z (Z.of_nat i) * q))%Q).
  { unfold t, F64.mul. apply round_comp.
    rewrite (of_Z_exact (Z.of_nat i)) by lia. reflexivity. }
  assert (Ht : (inject_Z (Z.of_nat i) * q * (1 - (1 # 2 ^ 53)) <= t
                <= inject_Z (Z.of_nat i) * q * (1 + (1 # 2 ^ 53)))%Q).
  { rewrite Et. apply round_near. exact Hiq0. }
  assert (Ht0 : (0 <= t)%Q).
  { apply (near_nonneg (1 # 2 ^ 53) (inject_Z (Z.of_nat i) * q));
      [discriminate | exact Hiq0 | apply Ht]. }
  assert (Ey : (F64.add t (F64.of_Z 0) == F64.round t)%Q).
  { unfold F64.add. apply round_comp. change (F64.of_Z 0) with 0%Q. ring. }
  assert (Hy : (t * (1 - (1 # 2 ^ 53)) <= F64.add t (F64.of_Z 0)
                <= t * (1 + (1 # 2 ^ 53)))%Q).
  { rewrite Ey. apply round_near. exact Ht0. }
  pose proof (three_roundings (1 # 2 ^ 53) s q (inject_Z (Z.of_nat i)) t
                _ ltac:(discriminate) ltac:(discriminate) Hs HiQ Hq Ht Hy)
    as [H1 H2].
  assert (E4 : (1 # 2 ^ 51 == 4 * (1 # 2 ^ 53))%Q) by reflexivity.
  unfold x. rewrite E4. split; assumption.
Qed.

Lemma below_next_integer (X Y A D F e : Q) :
  (0 < D -> X * D == A -> Y <= X * (1 + e) -> A * e <= 1 # 2 ->
   A + 1 <= F * D + D -> Y < F + 1)%Q.
Proof.
  intros HD HX HY He HF.
  assert (H : (Y * D <= A + (1 # 2))%Q).
  { apply Qle_trans with (X * (1 + e) * D)%Q.
    - apply Qmult_le_compat_r; [exact HY | lra].
    - setoid_replace (X * (1 + e) * D)%Q with (X * D + X * D * e)%Q by ring.
      rewrite HX. lra. }
  apply (Qmult_lt_r _ _ D HD). lra.
Qed.

Lemma above_previous_integer (X Y A D K e : Q) :
  (0 < D -> X * D == A -> X * (1 - e) <= Y -> A * e <= 1 # 2 ->
   K * D <= A - 1 -> K <= Y)%Q.
Proof.
  intros HD HX HY He HK.
  assert (H : (A - (1 # 2) <= Y * D)%Q).
  { apply Qle_trans with (X * (1 - e) * D)%Q.
    - setoid_replace (X * (1 - e) * D)%Q with (X * D - X * D * e)%Q by ring.
      rewrite HX. lra.
    - apply Qmult_le_compat_r; [exact HY | lra]. }
  apply (Qmult_le_r _ _ D HD). lra.
Qed.

(** The floored sample is the floor of its exact position, or one less
    when rounding falls short of an integer position. *)
Lemma strided_bracket (stop : Z) (num i : nat) :
  (2 <= num)%nat -> 0 <= stop < 2 ^ 25 -> Z.of_nat num <= 2 ^ 25 ->
  (i < num)%nat ->
  (Z.of_nat i * stop - 1) / (Z.of_nat num - 1)
  <= Qfloor (Np.strided stop num i)
  <= Z.of_nat i * stop / (Z.of_nat num - 1).
Proof.
  intros Hnum Hstop Hbig Hi.
  pose proof (strided_near stop num i Hnum ltac:(lia) ltac:(lia) Hi)
    as [Hlo Hhi]. cbv zeta in Hlo, Hhi.
  set (y := Np.strided stop num i) in *.
  set (d := Z.of_nat num - 1) in *.
  set (a := Z.of_nat i * stop).
  assert (Hd : 0 < d) by (unfold d; lia).
  assert (HdQ : (0 < inject_Z d)%Q)
    by (change 0%Q with (inject_Z 0); rewrite <- Zlt_Qlt; exact Hd).
  assert (Ha : 0 <= a <= 2 ^ 50) by (unfold a; nia).
  set (x := (inject_Z (Z.of_nat i) * (inject_Z stop / inject_Z d))%Q) in *.
  assert (Hx : (x * inject_Z d == inject_Z a)%Q).
  { unfold x, a. rewrite inject_Z_mult. field. lra. }
  assert (He : (inject_Z a * (1 # 2 ^ 51) <= 1 # 2)%Q).
  { apply Qle_trans with (inject_Z (2 ^ 50) * (1 # 2 ^ 51))%Q.
    - apply Qmult_le_compat_r; [|discriminate].
      rewrite <- Zle_Qle. lia.
    - discriminate. }
  split.
  - rewrite <- (Qfloor_Z ((a - 1) / d)). apply Qfloor_resp_le.
    apply (above_previous_integer x y (inject_Z a) (inject_Z d) _ (1 # 2 ^ 51)
             HdQ Hx Hlo He).
    rewrite <- inject_Z_mult.
    change (inject_Z a - 1)%Q with (inject_Z a + - inject_Z 1)%Q.
    rewrite <- inject_Z_opp, <- inject_Z_plus, <- Zle_Qle.
    pose proof (Z.mul_div_le (a - 1) d Hd). lia.
  - assert (H : (y < inject_Z (a / d) + 1)%Q).
    { apply (below_next_integer x y (inject_Z a) (inject_Z d) _ (1 # 2 ^ 51)
               HdQ Hx Hhi He).
      rewrite <- inject_Z_mult.
      change 1%Q with (inject_Z 1).
      rewrite <- !inject_Z_plus, <- Zle_Qle.
      pose proof (Z.mul_succ_div_gt a d Hd). lia. }
    assert (H' : (inject_Z (Qfloor y) < inject_Z (a / d + 1))%Q).
    { rewrite inject_Z_plus. eapply Qle_lt_trans; [apply Qfloor_le | exact H]. }
    rewrite <- Zlt_Qlt in H'. lia.
Qed.

Lemma round_nonneg (x : Q) : (0 <= x -> 0 <= F64.round x)%Q.
Proof. intros H. exact (round_le 0 x H). Qed.

Lemma before_last (S D I s q u : Q) :
  (0 < D -> 0 <= s -> s * D == S -> 0 <= I -> I <= D - 1 ->
   0 <= q -> q <= s * (1 + u) -> (D - 1) * u <= 1 -> I * q <= S)%Q.
Proof.
  intros HD Hs HS HI0 HI Hq0 Hq Hu.
  assert (H1 : (I * q <= (D - 1) * q)%Q) by nra.
  assert (H2 : ((D - 1) * q <= (D - 1) * (s * (1 + u)))%Q) by nra.
  assert (H3 : ((D - 1) * (s * (1 + u)) <= s * D)%Q) by nra.
  lra.
Qed.

(** Every sample before the last lies between 0 and [stop]. *)
Lemma strided_in_range (stop : Z) (num i : nat) :
  (2 <= num)%nat -> 0 <= stop < 2 ^ 53 -> Z.of_nat num <= 2 ^ 53 ->
  (i < num - 1)%nat ->
  (0 <= Np.strided stop num i <= inject_Z stop)%Q.
Proof.
  intros Hnum Hstop Hbig Hi.
  set (d := Z.of_nat num - 1).
  assert (Hd : 0 < d) by (unfold d; lia).
  assert (HdQ : (0 < inject_Z d)%Q)
    by (change 0%Q with (inject_Z 0); rewrite <- Zlt_Qlt; exact Hd).
  set (s := (inject_Z stop / inject_Z d)%Q).
  assert (Hs : (0 <= s)%Q).
  { unfold s. apply Qle_shift_div_l; [exact HdQ|].
    rewrite Qmult_0_l. apply inject_Z_nonneg. lia. }
  assert (HsD : (s * inject_Z d == inject_Z stop)%Q) by (unfold s; field; lra).
  assert (HiQ : (0 <= inject_Z (Z.of_nat i))%Q) by (apply inject_Z_nonneg; lia).
  unfold Np.strided. fold d.
  set (q := F64.div (F64.of_Z stop) (F64.of_Z d)).
  set (t := F64.mul (F64.of_Z (Z.of_nat i)) q).
  assert (Eq : (q == F64.round s)%Q).
  { unfold q, F64.div. apply round_comp. unfold s.
    rewrite (of_Z_exact stop) by lia. rewrite (of_Z_exact d) by (unfold d; lia).
    reflexivity. }
  assert (Hq : (0 <= q <= s * (1 + (1 # 2 ^ 53)))%Q).
  { rewrite Eq. split; [apply round_nonneg; exact Hs|].
    apply round_near. exact Hs. }
  assert (Hiq : (0 <= inject_Z (Z.of_nat i) * q <= inject_Z stop)%Q).
  { split; [apply Qmult_le_0_compat; [exact HiQ | apply Hq]|].
    apply (before_last _ (inject_Z d) _ s q (1 # 2 ^ 53)); try assumption.
    - change 1%Q with (inject_Z 1) at 1.
      change (inject_Z d - inject_Z 1)%Q
        with (inject_Z d + - inject_Z 1)%Q.
      rewrite <- inject_Z_opp, <- inject_Z_plus, <- Zle_Qle. unfold d. lia.
    - apply Hq.
    - apply Hq.
    - apply Qle_trans with (inject_Z (2 ^ 53) * (1 # 2 ^ 53))%Q; [|discriminate].
      apply Qmult_le_compat_r; [|discriminate].
      change 1%Q with (inject_Z 1).
      change (inject_Z d - inject_Z 1)%Q
        with (inject_Z d + - inject_Z 1)%Q.
      rewrite <- inject_Z_opp, <- inject_Z_plus, <- Zle_Qle. unfold d. lia. }
  assert (Et : (t == F64.round (inject_Z (Z.of_nat i) * q))%Q).
  { unfold t, F64.mul. apply round_comp.
    rewrite (of_Z_exact (Z.of_nat i)) by lia. reflexivity. }
  assert (Ht : (0 <= t <= inject_Z stop)%Q).
  { rewrite Et. split; [apply round_nonneg; apply Hiq|].
    rewrite <- (round_Z stop) by lia. apply round_le. apply Hiq. }
  assert (Ey : (F64.add t (F64.of_Z 0) == F64.round t)%Q).
  { unfold F64.add. apply round_comp. change (F64.of_Z 0) with 0%Q. ring. }
  rewrite Ey. split; [apply round_nonneg; apply Ht|].
  rewrite <- (round_Z stop) by lia. apply round_le. apply Ht.
Qed.

(** Every index that [np.linspace] yields for a batch longer than the
    sequence lies inside the batch. *)
Lemma linspace_int_in_range (N : Z) (L : nat) :
  Z.of_nat L < N -> N <= 2 ^ 53 ->
  Forall (fun i => 0 <= i < N) (Np.linspace_int 0 (N - 1) L).
Proof.
  intros HN Hbig.
  destruct L as [|[|L]].
  - constructor.
  - assert (E : Np.linspace_int 0 (N - 1) 1 = [0]).
    { unfold Np.linspace_int. cbn [Nat.ltb Nat.leb seq map Z.of_nat].
      change (0 <? Z.pos 1 - 1) with false. cbv iota. reflexivity. }
    rewrite E. constructor; [lia | constructor].
  - apply Forall_forall. intros x Hx.
    destruct (In_nth _ _ 0 Hx) as (i & Hi & <-).
    rewrite linspace_int_length in Hi.
    rewrite linspace_int_nth by lia.
    destruct (Nat.eqb_spec i (S (S L) - 1)) as [_|Hne].
    + rewrite (Qfloor_comp _ (inject_Z (N - 1))) by (apply of_Z_exact; lia).
      rewrite Qfloor_Z. lia.
    + destruct (strided_in_range (N - 1) (S (S L)) i) as [H0 H1]; try lia.
      apply Qfloor_resp_le in H0, H1. rewrite Qfloor_Z in H1.
      change (Qfloor 0) with 0 in H0. lia.
Qed.

(** Each index is the floor of its exact position on the stride, or one
    less. *)
Lemma linspace_int_bracket (N : Z) (L i : nat) :
  (2 <= L)%nat -> Z.of_nat L < N -> N <= 2 ^ 25 -> (i < L)%nat ->
  (Z.of_nat i * (N - 1) - 1) / (Z.of_nat L - 1)
  <= nth i (Np.linspace_int 0 (N - 1) L) 0
  <= Z.of_nat i * (N - 1) / (Z.of_nat L - 1).
Proof.
  intros HL HN Hbig Hi.
  rewrite linspace_int_nth by lia.
  destruct (Nat.eqb_spec i (L - 1)) as [->|Hne].
  - rewrite (Qfloor_comp _ (inject_Z (N - 1))) by (apply of_Z_exact; lia).
    rewrite Qfloor_Z.
    replace (Z.of_nat (L - 1)) with (Z.of_nat L - 1) by lia.
    rewrite (Z.mul_comm (Z.of_nat L - 1) (N - 1)), Z.div_mul by lia.
    split; [|lia].
    apply Z.lt_succ_r. apply Z.div_lt_upper_bound; nia.
  - apply strided_bracket; lia.
Qed.

(** Consecutive positions of the stride are more than one apart, so the
    indices increase strictly. *)
Lemma linspace_int_increasing (N : Z) (L i j : nat) :
  (2 <= L)%nat -> Z.of_nat L < N -> N <= 2 ^ 25 -> (i < j < L)%nat ->
  nth i (Np.linspace_int 0 (N - 1) L) 0
  < nth j (Np.linspace_int 0 (N - 1) L) 0.
Proof.
  intros HL HN Hbig [Hij Hj].
  pose proof (linspace_int_bracket N L i HL HN Hbig ltac:(lia)) as [_ Hi2].
  pose proof (linspace_int_bracket N L j HL HN Hbig Hj) as [Hj1 _].
  assert (Hstep : Z.of_nat i * (N - 1) / (Z.of_nat L - 1) + 1
                  <= (Z.of_nat j * (N - 1) - 1) / (Z.of_nat L - 1)).
  { rewrite <- Z.div_add by lia. apply Z.div_le_mono; nia. }
  lia.
Qed.

(** The positions of the stride never decrease: every operation of the
    stride is a rounding of an increasing exact operation. *)
Lemma strided_monotone (stop : Z) (num i j : nat) :
  (2 <= num)%nat -> 0 <= stop -> (i <= j)%nat ->
  (Np.strided stop num i <= Np.strided stop num j)%Q.
Proof.
  intros Hnum Hstop Hij. unfold Np.strided.
  set (q := F64.div (F64.of_Z stop) (F64.of_Z (Z.of_nat num - 1))).
  assert (Hq : (0 <= q)%Q).
  { unfold q, F64.div. apply round_nonneg.
    assert (H1 : (0 <= F64.of_Z stop)%Q)
      by (apply round_nonneg, inject_Z_nonneg; exact Hstop).
    assert (H2 : (0 < F64.of_Z (Z.of_nat num - 1))%Q) by (apply of_Z_pos; lia).
    apply Qle_shift_div_l; [exact H2 | lra]. }
  assert (Hk : (F64.of_Z (Z.of_nat i) <= F64.of_Z (Z.of_nat j))%Q).
  { apply round_le. rewrite <- Zle_Qle. lia. }
  unfold F64.add. apply round_le. apply Qplus_le_l.
  unfold F64.mul. apply round_le. apply Qmult_le_compat_r; assumption.
Qed.

(** The indices of [np.linspace] never decrease. *)
Lemma linspace_int_nondecreasing (N : Z) (L i j : nat) :
  (2 <= L)%nat -> Z.of_nat L < N -> N <= 2 ^ 53 -> (i <= j < L)%nat ->
  nth i (Np.linspace_int 0 (N - 1) L) 0
  <= nth j (Np.linspace_int 0 (N - 1) L) 0.
Proof.
  intros HL HN Hbig [Hij Hj].
  destruct (Nat.eqb_spec j (L - 1)) as [Ej|Hne].
  - pose proof (linspace_int_in_range N L HN Hbig) as Hrange.
    rewrite Forall_forall in Hrange.
    assert (Hi : 0 <= nth i (Np.linspace_int 0 (N - 1) L) 0 < N)
      by (apply Hrange, nth_In; rewrite linspace_int_length; lia).
    rewrite (linspace_int_nth (N - 1) L j) by lia.
    rewrite (proj2 (Nat.eqb_eq j (L - 1)) Ej).
    rewrite (Qfloor_comp _ (inject_Z (N - 1))) by (apply of_Z_exact; lia).
    rewrite Qfloor_Z. lia.
  - rewrite !linspace_int_nth by lia.
    destruct (Nat.eqb_spec i (L - 1)) as [|_]; [lia|].
    destruct (Nat.eqb_spec j (L - 1)) as [|_]; [contradiction|].
    apply Qfloor_resp_le. apply strided_monotone; lia.
Qed.

(** The lower end of the bracket is taken: for 31 maps and L = 23 the
    exact position 11 * 30 / 22 is 15, the [float64] product is just
    below it, and the index is 14. *)
Lemma linspace_int_below_exact :
  nth 11 (Np.linspace_int 0 30 23) 0 = 14 /\ 11 * 30 / 22 = 15.
Proof. split; vm_compute; reflexivity. Qed.

(** Beyond 2^53 the last index need not be inside the batch: for
    2^53 + 4 maps the bound 2^53 + 3 is converted to 2^53 + 4. *)
Lemma linspace_int_beyond_float_range :
  nth 1 (Np.linspace_int 0 (2 ^ 53 + 3) 2) 0 = 2 ^ 53 + 4.
Proof. vm_compute. reflexivity. Qed.

(** Fancy indexing with indices inside the array succeeds. *)
Lemma take_in_range {A} (d : A) (a : list A) (indices : list Z) :
  Forall (fun i => 0 <= i < Z.of_nat (length a)) indices ->
  Np.take a indices = Some (map (fun i => nth (Z.to_nat i) a d) indices).
Proof.
  induction 1 as [|i rest Hi _ IH]; simpl; [reflexivity|].
  destruct (Z.ltb_spec i 0) as [|_]; [lia|].
  rewrite IH.
  destruct (nth_error a (Z.to_nat i)) as [x|] eqn:E.
  - rewrite (nth_error_nth _ _ d E). reflexivity.
  - apply nth_error_None in E. lia.
Qed.

Lemma take_length {A} (a : list A) (indices : list Z) (out : list A) :
  Np.take a indices = Some out -> length out = length indices.
Proof.
  revert out; induction indices as [|i rest IH]; simpl; intros out H.
  - injection H as <-. reflexivity.
  - destruct (i <? 0); [discriminate|].
    destruct (nth_error a (Z.to_nat i)); [|discriminate].
    destruct (Np.take a rest) as [xs|]; [|discriminate].
    injection H as <-. simpl. f_equal. apply IH. reflexivity.
Qed.

(** C9, as the code has it: for L >= 2 and N > L maps (N at most 2^53,
    the integers that [float64] holds exactly), [__getitem__] selects
    exactly L maps, at the indices [np.linspace(0, N-1, L, dtype=int)]:
    the stride starts at 0, ends at N-1, stays inside the batch and never
    decreases, and the mask is all ones.  The stride is uniform: for N up
    to 2^25, index [i] is the floor of [i * (N-1) / (L-1)], or one less
    where the [float64] product falls short of an integer position. *)
Theorem C9_uniform_stride_selection :
  forall (L : nat) (label : Z) (images : list RDMap) (d : RDMap),
    (2 <= L)%nat -> (L < length images)%nat ->
    Z.of_nat (length images) <= 2 ^ 53 ->
    let N := Z.of_nat (length images) in
    let indices := Np.linspace_int 0 (N - 1) L in
    length indices = L
    /\ nth 0 indices 0 = 0
    /\ nth (L - 1) indices 0 = N - 1
    /\ (forall i j, (i <= j < L)%nat ->
                    0 <= nth i indices 0 <= nth j indices 0
                    /\ nth j indices 0 < N)
    /\ RDSeq.getitem L label images =
         Some (map (fun i => nth (Z.to_nat i) images d) indices,
               repeat 1 L, label - 1)
    /\ (N <= 2 ^ 25 ->
        forall i, (i < L)%nat ->
          (Z.of_nat i * (N - 1) - 1) / (Z.of_nat L - 1)
          <= nth i indices 0
          <= Z.of_nat i * (N - 1) / (Z.of_nat L - 1)).
Proof.
  intros L label images d HL HN Hbig N indices.
  assert (Hlen : length indices = L) by apply linspace_int_length.
  assert (Hrange : Forall (fun i => 0 <= i < N) indices)
    by (apply linspace_int_in_range; lia).
  assert (Hin : forall i, (i < L)%nat -> 0 <= nth i indices 0 < N).
  { intros i Hi. rewrite Forall_forall in Hrange. apply Hrange.
    apply nth_In. rewrite Hlen. exact Hi. }
  split; [exact Hlen|].
  split; [|split; [|split; [|split]]].
  - unfold indices. rewrite linspace_int_nth by lia.
    destruct (Nat.eqb_spec 0 (L - 1)) as [|_]; [lia|].
    rewrite (Qfloor_comp _ 0%Q); [reflexivity|].
    unfold Np.strided, F64.add, F64.mul.
    rewrite (round_comp _ 0%Q); [reflexivity|].
    rewrite (round_comp (F64.of_Z (Z.of_nat 0) * _)%Q 0%Q).
    + reflexivity.
    + change (F64.of_Z (Z.of_nat 0)) with 0%Q. ring.
  - unfold indices. rewrite linspace_int_nth by lia.
    rewrite Nat.eqb_refl.
    rewrite (Qfloor_comp _ (inject_Z (N - 1))) by (apply of_Z_exact; lia).
    apply Qfloor_Z.
  - intros i j [Hij Hj].
    pose proof (Hin i ltac:(lia)) as [Hi0 _].
    pose proof (Hin j Hj) as [_ HjN].
    split; [|exact HjN]. split; [exact Hi0|].
    apply linspace_int_nondecreasing; lia.
  - unfold RDSeq.getitem.
    destruct (Nat.ltb_spec (length images) L) as [|_]; [lia|].
    destruct (Nat.ltb_spec L (length images)) as [_|]; [|lia].
    fold N. fold indices.
    rewrite (take_in_range d) by exact Hrange.
    rewrite length_map, Hlen, Nat.eqb_refl. reflexivity.
  - intros Hsmall i Hi. apply linspace_int_bracket; lia.
Qed.

(** The documented instance: 300 maps for L = 180 give 180 indices from
    0 to 299. *)
Lemma C9_stride_300_to_180 :
  let images := repeat (zeros3 (31, 4, 1)%nat) 300 in
  let indices := Np.linspace_int 0 (Z.of_nat (length images) - 1) 180 in
  ((2 <= 180)%nat /\ (180 < length images)%nat
   /\ Z.of_nat (length images) <= 2 ^ 53)
  /\ length indices = 180%nat
  /\ nth 0 indices 0 = 0
  /\ nth (180 - 1) indices 0 = Z.of_nat (length images) - 1.
Proof.
  assert (H2 : (2 <= 180)%nat) by lia.
  assert (HN : (180 < length (repeat (zeros3 (31, 4, 1)%nat) 300))%nat)
    by (rewrite repeat_length; lia).
  assert (Hb : Z.of_nat (length (repeat (zeros3 (31, 4, 1)%nat) 300))
               <= 2 ^ 53)
    by (rewrite repeat_length; lia).
  destruct (C9_uniform_stride_selection 180 1 _ [] H2 HN Hb)
    as (H1 & H3 & H4 & _).
  split; [repeat split; assumption|].
  split; [exact H1 | split; [exact H3 | exact H4]].
Defined.

(** With L = 1 the single index selected is 0: the last map of the
    batch is not among the selected ones. *)
Lemma C9_single_sample_misses_last :
  let first := zeros3 (1, 1, 1)%nat in
  let last := [[[1%Q]]] in
  let images := [first; last] in
  (1 < length images)%nat
  /\ Np.linspace_int 0 (Z.of_nat (length images) - 1) 1 = [0]
  /\ RDSeq.getitem 1 1 images = Some ([first], [1], 0)
  /\ ~ In (Z.of_nat (length images) - 1)
          (Np.linspace_int 0 (Z.of_nat (length images) - 1) 1).
Proof.
  cbv zeta. split; [simpl; lia|].
  split; [vm_compute; reflexivity|].
  split; [vm_compute; reflexivity|].
  vm_compute. intros [H|[]]. discriminate.
Qed.

(** ** Parameter validation *)

Lemma Qle_bool_false (x y : Q) : Qle_bool x y = false <-> (y < x)%Q.
Proof.
  split; intro H.
  - apply Qnot_le_lt. intro Hle. apply Qle_bool_iff in Hle. congruence.
  - destruct (Qle_bool x y) eqn:E; [|reflexivity].
    apply Qle_bool_iff in E. exfalso. exact (Qlt_not_le _ _ H E).
Qed.

Lemma Qlt_bool_iff (x y : Q) : Qlt_bool x y = true <-> (x < y)%Q.
Proof.
  unfold Qlt_bool. rewrite negb_true_iff. apply Qle_bool_false.
Qed.

Lemma Qlt_bool_false (x y : Q) : Qlt_bool x y = false <-> (y <= x)%Q.
Proof.
  unfold Qlt_bool. rewrite negb_false_iff. apply Qle_bool_iff.
Qed.

Lemma decoded_scalars_ok_iff (p : Parameters) :
  decoded_scalars_ok p = true <->
  1 <= prt_num p <= 10000
  /\ (0 < prt p /\ prt p <= 1)%Q
  /\ (0 < freq p /\ freq p <= 1000000000000)%Q.
Proof.
  unfold decoded_scalars_ok.
  repeat rewrite ?andb_true_iff, ?orb_false_iff, ?negb_true_iff,
    ?negb_false_iff, ?Qle_bool_false, ?Qlt_bool_false, ?Z.leb_gt, ?Z.ltb_ge,
    ?Nat.eqb_neq, ?Nat.ltb_ge.
  intuition lia.
Qed.

Lemma frame_guards_ok_iff (p : Parameters) :
  frame_guards_ok p = true <->
  (4 <= length (track_no_info p))%nat
  /\ (0 < prt p)%Q /\ 0 < prt_num p /\ (0 < freq p)%Q.
Proof.
  unfold frame_guards_ok.
  repeat rewrite ?andb_true_iff, ?orb_false_iff, ?negb_true_iff,
    ?negb_false_iff, ?Qle_bool_false, ?Qlt_bool_false, ?Z.leb_gt, ?Z.ltb_ge,
    ?Nat.eqb_neq, ?Nat.ltb_ge.
  intuition lia.
Qed.

(** C5: a decoded record passes validation exactly when [prt_num] is in
    [1, 10000], [prt] in (0, 1], [freq] in (0, 1e12] and [track_no_info]
    has at least 4 elements; every other record is rejected, and the
    inclusive bounds are accepted. *)
Theorem C5_params_valid_iff :
  forall p : Parameters,
    params_valid p = true <->
    1 <= prt_num p <= 10000
    /\ (0 < prt p /\ prt p <= 1)%Q
    /\ (0 < freq p /\ freq p <= 1000000000000)%Q
    /\ (4 <= length (track_no_info p))%nat.
Proof.
  intros p. unfold params_valid.
  rewrite andb_true_iff, decoded_scalars_ok_iff, frame_guards_ok_iff.
  intuition lia.
Qed.

(** ** Velocity axis *)

Lemma arange_length (lo hi : Z) :
  length (Np.arange lo hi) = Z.to_nat (hi - lo).
Proof. unfold Np.arange. rewrite length_map, length_seq. reflexivity. Qed.

Lemma arange_nth (lo hi : Z) (i : nat) (d : Z) :
  (i < Z.to_nat (hi - lo))%nat ->
  nth i (Np.arange lo hi) d = lo + Z.of_nat i.
Proof.
  intros Hi. unfold Np.arange.
  rewrite (nth_map_in _ _ _ _ 0%nat) by (rewrite length_seq; exact Hi).
  rewrite seq_nth by exact Hi. reflexivity.
Qed.

Lemma raw_v_axis_length (half : Z) (dv : Q) :
  length (raw_v_axis half dv) = Z.to_nat (2 * half).
Proof.
  unfold raw_v_axis. rewrite length_map, arange_length. f_equal. lia.
Qed.

Lemma raw_v_axis_nth (half : Z) (dv : Q) (i : Z) :
  0 <= i < 2 * half ->
  nth (Z.to_nat i) (raw_v_axis half dv) 0%Q
  = F64.mul (F64.of_Z (i - half)) dv.
Proof.
  intros Hi. unfold raw_v_axis.
  rewrite (nth_map_in _ _ _ _ 0) by (rewrite arange_length; lia).
  rewrite arange_nth by lia.
  do 2 f_equal. lia.
Qed.

(** The axis entries at [k] and [-k] are opposite. *)
Lemma scaled_index_opp (k : Z) (dv : Q) :
  (F64.mul (F64.of_Z (- k)) dv == - F64.mul (F64.of_Z k) dv)%Q.
Proof.
  unfold F64.mul, F64.of_Z.
  change (inject_Z (- k)) with (- inject_Z k)%Q.
  rewrite (round_opp (inject_Z k)).
  rewrite <- (round_opp (F64.round (inject_Z k) * dv)).
  apply round_comp. ring.
Qed.

(** What a built axis looks like, whatever the record. *)
Lemma velocity_axis_some (p : Parameters) (va : VelocityAxis) :
  velocity_axis p = Some va ->
  prt_num p = 2 * (prt_num p / 2)
  /\ 0 < prt_num p / 2 <= 10000
  /\ (0 < doppler_step p /\ doppler_step p <= 10000)%Q
  /\ half_prt va = prt_num p / 2
  /\ delta_v va = doppler_step p
  /\ v_axis va = raw_v_axis (half_prt va) (delta_v va).
Proof.
  unfold velocity_axis.
  destruct (Qle_bool (doppler_step p) 0) eqn:E1; [discriminate|].
  destruct (Qlt_bool 10000 (doppler_step p)) eqn:E2; [discriminate|].
  cbn [orb].
  destruct (Z.leb_spec (prt_num p / 2) 0) as [|Hhalf]; [discriminate|].
  cbn [orb].
  destruct (Z.ltb_spec 10000 (prt_num p / 2)) as [|Hhalf2]; [discriminate|].
  destruct (Z.eqb_spec (Z.of_nat (length (raw_v_axis (prt_num p / 2)
              (doppler_step p)))) (prt_num p)) as [Hlen|]; [|discriminate].
  cbn [negb]. intros H; injection H as <-. cbn [half_prt delta_v v_axis].
  rewrite raw_v_axis_length in Hlen.
  apply Qle_bool_false in E1. apply Qlt_bool_false in E2.
  repeat split; try reflexivity; try assumption; lia.
Qed.

(** C2, as the code has it: a validated frame gets a velocity axis only
    when [prt_num] is even (and [delta_v], as computed in [float64],
    passes its range check); that axis is [(i - prt_num // 2) * delta_v]
    for [i] in [0, prt_num), each product rounded to [float64], has
    length [prt_num] and is antisymmetric about index [prt_num // 2].
    For odd [prt_num] the array built has [prt_num - 1] entries and the
    frame is skipped. *)
Theorem C2_velocity_axis_even_only :
  forall p : Parameters,
    params_valid p = true ->
    let n := prt_num p in
    let dv := doppler_step p in
    (Z.even n = true -> (0 < dv /\ dv <= 10000)%Q ->
     exists va, velocity_axis p = Some va)
    /\ (forall va, velocity_axis p = Some va ->
          Z.even n = true
          /\ delta_v va = dv
          /\ Z.of_nat (length (v_axis va)) = n
          /\ (forall i, 0 <= i < n ->
                nth (Z.to_nat i) (v_axis va) 0%Q
                = F64.mul (F64.of_Z (i - n / 2)) dv)
          /\ (forall k, 0 <= n / 2 + k < n -> 0 <= n / 2 - k < n ->
                (nth (Z.to_nat (n / 2 + k)) (v_axis va) 0
                 == - nth (Z.to_nat (n / 2 - k)) (v_axis va) 0)%Q))
    /\ (Z.odd n = true ->
          velocity_axis p = None
          /\ Z.of_nat (length (raw_v_axis (n / 2) dv)) = n - 1).
Proof.
  intros p Hvalid n dv.
  unfold params_valid in Hvalid. apply andb_true_iff in Hvalid.
  destruct Hvalid as [Hscalars _].
  apply decoded_scalars_ok_iff in Hscalars.
  destruct Hscalars as (Hn & _ & _).
  fold n in Hn.
  split; [|split].
  - intros Heven [Hpos Hle].
    apply Z.even_spec in Heven. destruct Heven as [h Hh].
    assert (Hhalf : n / 2 = h)
      by (rewrite Hh, Z.mul_comm; apply Z.div_mul; lia).
    unfold velocity_axis. fold n. fold dv.
    replace (Qle_bool dv 0) with false
      by (symmetry; apply Qle_bool_false; exact Hpos).
    replace (Qlt_bool 10000 dv) with false
      by (symmetry; apply Qlt_bool_false; exact Hle).
    cbn [orb]. rewrite Hhalf.
    destruct (Z.leb_spec h 0) as [|_]; [lia|].
    destruct (Z.ltb_spec 10000 h) as [|_]; [lia|].
    cbn [orb]. rewrite raw_v_axis_length.
    destruct (Z.eqb_spec (Z.of_nat (Z.to_nat (2 * h))) n) as [_|]; [|lia].
    cbn [negb]. eexists. reflexivity.
  - intros va Hva.
    destruct (velocity_axis_some p va Hva)
      as (H2 & Hh & _ & Ehalf & Edv & Eax).
    fold n in H2, Hh, Ehalf. fold dv in Edv.
    rewrite Eax, Ehalf, Edv.
    split; [|split; [|split; [|split]]].
    + rewrite H2, Z.even_mul. reflexivity.
    + reflexivity.
    + rewrite raw_v_axis_length. lia.
    + intros i Hi. apply raw_v_axis_nth. lia.
    + intros k Hk1 Hk2.
      rewrite !raw_v_axis_nth by lia.
      replace (n / 2 + k - n / 2) with k by lia.
      replace (n / 2 - k - n / 2) with (- k) by lia.
      rewrite scaled_index_opp. ring.
  - intros Hodd. split.
    + destruct (velocity_axis p) as [va|] eqn:E; [|reflexivity].
      destruct (velocity_axis_some p va E) as (H2 & _).
      fold n in H2. rewrite H2, Z.odd_mul in Hodd. discriminate.
    + rewrite raw_v_axis_length.
      apply Z.odd_spec in Hodd. destruct Hodd as [h Hh].
      assert (n / 2 = h).
      { rewrite Hh. rewrite Z.mul_comm, Z.div_add_l by lia.
        rewrite Z.div_small; lia. }
      lia.
Qed.

(** A frame of two pulses at 1 GHz with a 0.75 ms repetition interval. *)
Lemma C2_axis_of_two_pulses :
  let p := mkParameters 0 [1; 2; 3; 4] (scaled 1000 FREQ_UNIT) 0 2
                        (scaled 60000 PRT_UNIT) 31 in
  params_valid p = true
  /\ exists va, velocity_axis p = Some va
                /\ Z.of_nat (length (v_axis va)) = prt_num p.
Proof.
  set (p := mkParameters 0 [1; 2; 3; 4] (scaled 1000 FREQ_UNIT) 0 2
                         (scaled 60000 PRT_UNIT) 31).
  assert (Hv : params_valid p = true) by (vm_compute; reflexivity).
  destruct (C2_velocity_axis_even_only p Hv) as (_ & H & _).
  split; [exact Hv|].
  exists (mkVelocityAxis 1 (doppler_step p) (raw_v_axis 1 (doppler_step p))).
  assert (E : velocity_axis p =
              Some (mkVelocityAxis 1 (doppler_step p)
                                   (raw_v_axis 1 (doppler_step p))))
    by (vm_compute; reflexivity).
  split; [exact E|].
  destruct (H _ E) as (_ & _ & Hlen & _). exact Hlen.
Defined.

(** A validated frame of three pulses: the array built has two entries
    and the frame is skipped. *)
Lemma C2_odd_prt_num_has_no_axis :
  let p := mkParameters 0 [1; 2; 3; 4] (scaled 1000 FREQ_UNIT) 0 3
                        (scaled 60000 PRT_UNIT) 31 in
  let dv := doppler_step p in
  params_valid p = true
  /\ (0 < dv /\ dv <= 10000)%Q
  /\ length (raw_v_axis (prt_num p / 2) dv) = 2%nat
  /\ velocity_axis p = None.
Proof.
  cbv zeta. split; [vm_compute; reflexivity|].
  split; [split; vm_compute; [reflexivity | discriminate]|].
  split; vm_compute; reflexivity.
Qed.

(** The range check of [delta_v] is made on the [float64] value: for
    twelve pulses at 1 GHz with a 1.25 us repetition interval the exact
    quotient is 10000, the value computed is just above it, and the
    frame is skipped. *)
Lemma doppler_step_above_limit :
  let p := mkParameters 0 [1; 2; 3; 4] (scaled 1000 FREQ_UNIT) 0 12
                        (scaled 100 PRT_UNIT) 31 in
  params_valid p = true
  /\ (C / (inject_Z (2 * 12) * (100 * (125 # 10000000000))
           * (1000 * 1000000)) == 10000)%Q
  /\ (10000 < doppler_step p)%Q
  /\ velocity_axis p = None.
Proof.
  cbv zeta. split; [vm_compute; reflexivity|].
  split; [vm_compute; reflexivity|].
  split; vm_compute; reflexivity.
Qed.

(** ** Target localisation *)

Lemma clip_range (x lo hi : Z) : lo <= hi -> lo <= clip x lo hi <= hi.
Proof. unfold clip. lia. Qed.

Lemma recenter_hint_range (raw half n : Z) :
  1 <= n -> 0 <= recenter_hint raw half n <= n - 1.
Proof. intros Hn. unfold recenter_hint. apply clip_range. lia. Qed.

Lemma slice_length {A} (lo hi : Z) (a : list A) :
  0 <= lo -> hi <= Z.of_nat (length a) ->
  Z.of_nat (length (slice lo hi a)) = extent lo hi.
Proof.
  intros Hlo Hhi. unfold slice, extent.
  rewrite length_firstn, length_skipn. lia.
Qed.

Lemma slice_incl {A} (lo hi : Z) (a : list A) (x : A) :
  In x (slice lo hi a) -> In x a.
Proof.
  unfold slice. intros H.
  rewrite <- (firstn_skipn (Z.to_nat lo) a). apply in_or_app. right.
  rewrite <- (firstn_skipn (Z.to_nat (hi - lo)) (skipn (Z.to_nat lo) a)).
  apply in_or_app. left. exact H.
Qed.

Lemma length_concat_cons_pos {A} (r : list A) (rows : list (list A)) :
  (0 < length r)%nat -> (0 < length (concat (r :: rows)))%nat.
Proof. intros H. simpl. rewrite length_app. lia. Qed.

(** Without wrap-around the [uint32] difference is the difference. *)
Lemma sub_u32_exact (numpy : Np.promotion) (a b : Z) :
  numpy = Np.Legacy \/ 0 <= a - b < 2 ^ 32 ->
  Np.sub_u32 numpy a b = a - b.
Proof.
  intros H. destruct numpy; cbn [Np.sub_u32]; [reflexivity|].
  destruct H as [H|H]; [discriminate|]. apply Z.mod_small. exact H.
Qed.

(** A negative difference wraps around to the top of the [uint32]
    range. *)
Lemma sub_u32_wraps (a b : Z) :
  - 2 ^ 32 <= a - b < 0 -> Np.sub_u32 Np.Nep50 a b = a - b + 2 ^ 32.
Proof.
  intros H. cbn [Np.sub_u32].
  rewrite <- (Z.mod_add (a - b) 1 (2 ^ 32)) by lia.
  apply Z.mod_small. lia.
Qed.

(** A window whose Doppler range is reversed selects nothing. *)
Lemma crop_reversed (w : Window) (m : list (list Q)) :
  doppler_end w <= doppler_start w -> concat (crop w m) = [].
Proof.
  intros H. unfold crop.
  induction (slice (range_start_local w) (range_end_local w) m)
    as [|r rest IH]; [reflexivity|].
  cbn [map concat]. rewrite IH. unfold slice.
  replace (Z.to_nat (doppler_end w - doppler_start w)) with 0%nat by lia.
  reflexivity.
Qed.

(** C10: for a frame that reaches localisation ([prt_num >= 1] and
    the raw hint 32-bit words, [half_prt] in [1, 10000]), a spectrum of
    31 rows of [prt_num] cells and the Doppler hint re-centred and
    clamped as the code does, the local search window has 11 rows.
    Where [uint32 - int] is promoted to a signed result (NumPy 1.x),
    or the hint is at least 5, the window has at least one column, its
    slice of the spectrum is not empty and the zero-area test is false.
    Where the difference stays [uint32] (NumPy 2) and the hint is below
    5, [hint - 5] wraps around to [2^32 + hint - 5], [max(0, .)] does
    not clamp it, the window is empty and the zero-area test skips the
    frame. *)
Theorem C10_search_window_nonempty :
  forall (numpy : Np.promotion) (raw half n : Z) (mag : list (list Q)),
    1 <= n < 2 ^ 32 ->
    0 <= raw < 2 ^ 32 ->
    1 <= half <= 10000 ->
    n_rows mag = 31 ->
    Forall (fun row => Z.of_nat (length row) = n) mag ->
    let amp := recenter_hint raw half n in
    let w := search_window numpy (n_rows mag) (n_cols mag) amp in
    0 <= amp <= n - 1
    /\ range_start_local w = 10 /\ range_end_local w = 21
    /\ doppler_end w = Z.min n (amp + 6)
    /\ (numpy = Np.Legacy \/ 5 <= amp ->
        doppler_start w = Z.max 0 (amp - 5)
        /\ doppler_start w <= amp < doppler_end w
        /\ 0 < window_size w
        /\ (length (concat (crop w mag)) =? 0)%nat = false)
    /\ (numpy = Np.Nep50 -> amp < 5 ->
        doppler_start w = 2 ^ 32 + amp - 5
        /\ window_size w = 0
        /\ (length (concat (crop w mag)) =? 0)%nat = true).
Proof.
  intros numpy raw half n mag Hn _ _ Hrows Hcols amp w.
  assert (Hamp : 0 <= amp <= n - 1) by (apply recenter_hint_range; lia).
  assert (Hc : n_cols mag = n).
  { unfold n_rows, n_cols in *. destruct mag as [|r rest]; [simpl in Hrows; lia|].
    inversion Hcols; subst. reflexivity. }
  assert (Hrs : range_start_local w = 10) by reflexivity.
  assert (Hre : range_end_local w = 21)
    by (subst w; cbn [search_window range_end_local]; rewrite Hrows; reflexivity).
  assert (Hds : doppler_start w = Z.max 0 (Np.sub_u32 numpy amp 5))
    by reflexivity.
  assert (Hde : doppler_end w = Z.min n (amp + 6)).
  { subst w. cbn [search_window doppler_end]. rewrite Hc.
    unfold local_radius. f_equal. lia. }
  split; [exact Hamp|]. split; [exact Hrs|]. split; [exact Hre|].
  split; [exact Hde|]. split.
  - intros Hrule.
    assert (Hsub : Np.sub_u32 numpy amp 5 = amp - 5)
      by (apply sub_u32_exact; destruct Hrule; [left; assumption | right; lia]).
    rewrite Hsub in Hds.
    split; [exact Hds|]. split; [lia|]. split.
    + unfold window_size, extent. rewrite Hrs, Hre, Hds, Hde. lia.
    + apply Nat.eqb_neq. unfold crop. rewrite Hrs, Hre.
      assert (Hlen : Z.of_nat (length (slice 10 21 mag)) = 11).
      { rewrite slice_length; unfold n_rows in Hrows; [reflexivity|lia|lia]. }
      destruct (slice 10 21 mag) as [|r rest] eqn:E; [simpl in Hlen; lia|].
      assert (Hr : In r mag).
      { apply (slice_incl 10 21). rewrite E. left. reflexivity. }
      rewrite Forall_forall in Hcols. specialize (Hcols r Hr).
      cbn [map].
      assert (Hpos : (0 < length (slice (doppler_start w) (doppler_end w) r))%nat).
      { apply Nat2Z.inj_lt. rewrite slice_length by lia.
        unfold extent. lia. }
      pose proof (length_concat_cons_pos _
                    (map (slice (doppler_start w) (doppler_end w)) rest) Hpos).
      lia.
  - intros -> Hlow.
    assert (Hsub : Np.sub_u32 Np.Nep50 amp 5 = amp - 5 + 2 ^ 32)
      by (apply sub_u32_wraps; lia).
    rewrite Hsub in Hds.
    split; [lia|]. split.
    + unfold window_size, extent. rewrite Hds, Hde. lia.
    + rewrite crop_reversed by lia. reflexivity.
Qed.

(** A spectrum of 31 rows of four cells, hint 3 with half = 2: the
    re-centred hint is 0, the window is columns 0 .. 5 under the
    promotion of NumPy 1.x and empty under that of NumPy 2. *)
Lemma C10_window_of_four_pulses :
  let mag := repeat (repeat 1%Q 4) 31 in
  let amp := recenter_hint 3 2 4 in
  let w1 := search_window Np.Legacy (n_rows mag) (n_cols mag) amp in
  let w2 := search_window Np.Nep50 (n_rows mag) (n_cols mag) amp in
  (1 <= 4 < 2 ^ 32 /\ 0 <= 3 < 2 ^ 32 /\ 1 <= 2 <= 10000
   /\ n_rows mag = 31 /\ amp < 5)
  /\ (0 < window_size w1
      /\ (length (concat (crop w1 mag)) =? 0)%nat = false)
  /\ (doppler_start w2 = 2 ^ 32 + amp - 5
      /\ window_size w2 = 0
      /\ (length (concat (crop w2 mag)) =? 0)%nat = true).
Proof.
  assert (H1 : 1 <= 4 < 2 ^ 32) by lia.
  assert (H2 : n_rows (repeat (repeat 1%Q 4) 31) = 31) by reflexivity.
  assert (H3 : Forall (fun row => Z.of_nat (length row) = 4)
                      (repeat (repeat 1%Q 4) 31)).
  { apply Forall_forall. intros r Hr. apply repeat_spec in Hr. subst r.
    reflexivity. }
  assert (H4 : recenter_hint 3 2 4 < 5) by (vm_compute; reflexivity).
  assert (H5 : 0 <= 3 < 2 ^ 32) by lia.
  assert (H6 : 1 <= 2 <= 10000) by lia.
  destruct (C10_search_window_nonempty Np.Legacy 3 2 4 _ H1 H5 H6 H2 H3)
    as (_ & _ & _ & _ & Hl & _).
  destruct (C10_search_window_nonempty Np.Nep50 3 2 4 _ H1 H5 H6 H2 H3)
    as (_ & _ & _ & _ & _ & Hw).
  destruct (Hl (or_introl eq_refl)) as (_ & _ & Hs & He).
  cbv zeta.
  split; [split; [exact H1 | split; [exact H5 | split; [exact H6 |
          split; [exact H2 | exact H4]]]]|].
  split; [split; assumption|].
  exact (Hw eq_refl H4).
Defined.

(** ** Map builder *)

Lemma zero_below_cell (t x : Q) :
  let x' := if Qlt_bool x t then 0%Q else x in
  ((x < t)%Q -> x' = 0%Q) /\ ((x' < t)%Q -> x' = 0%Q).
Proof.
  cbv zeta. destruct (Qlt_bool x t) eqn:E.
  - split; reflexivity.
  - apply Qlt_bool_false in E. split; intro H;
      exfalso; exact (Qlt_not_le _ _ H E).
Qed.

Lemma zero_below_cells (t : Q) (m : list (list Q)) (row : list Q) (x : Q) :
  In row (zero_below t m) -> In x row -> (x < t)%Q -> x = 0%Q.
Proof.
  unfold zero_below. intros Hrow Hx Hlt.
  apply in_map_iff in Hrow. destruct Hrow as (row0 & <- & _).
  apply in_map_iff in Hx. destruct Hx as (y & <- & _).
  apply (zero_below_cell t y). exact Hlt.
Qed.

(** C8: when the matrix left by the clutter notch has 5th percentile
    [t], the noise-floor step replaces every cell below [t] by zero and
    keeps the others, so that in the emitted map every cell whose value
    is strictly below [t] is exactly zero. *)
Theorem C8_noise_floor_zeroes_below_percentile :
  forall (mag : list (list Q)) (v : list Q) (rd_matrix : list (list Q)) (t : Q),
    notched mag v = Emit rd_matrix ->
    percentile 5 (concat rd_matrix) = Some t ->
    map_builder None mag v = Emit (add_channel (noise_floor rd_matrix))
    /\ noise_floor rd_matrix =
         map (map (fun x => if Qlt_bool x t then 0%Q else x)) rd_matrix
    /\ (forall row x, In row (noise_floor rd_matrix) -> In x row ->
                      (x < t)%Q -> x = 0%Q)
    /\ (forall row cell, In row (add_channel (noise_floor rd_matrix)) ->
                         In cell row ->
                         exists x, cell = [x] /\ ((x < t)%Q -> x = 0%Q)).
Proof.
  intros mag v rd_matrix t Hnotch Hperc.
  assert (Hnf : noise_floor rd_matrix = zero_below t rd_matrix)
    by (unfold noise_floor; rewrite Hperc; reflexivity).
  split; [|split; [|split]].
  - unfold map_builder. rewrite Hnotch. reflexivity.
  - exact Hnf.
  - rewrite Hnf. apply zero_below_cells.
  - intros row cell Hrow Hcell. unfold add_channel in Hrow.
    apply in_map_iff in Hrow. destruct Hrow as (row0 & <- & Hrow0).
    apply in_map_iff in Hcell. destruct Hcell as (x & <- & Hx).
    exists x. split; [reflexivity|].
    rewrite Hnf in Hrow0. apply (zero_below_cells t rd_matrix row0 x Hrow0 Hx).
Qed.

(** One range row of 160 Doppler cells at 0.5 m/s per bin, magnitudes
    1 .. 160: the threshold is positive. *)
Lemma C8_noise_floor_on_one_row :
  let mag := [map (fun k => inject_Z (Z.of_nat k) + 1)%Q (seq 0 160)] in
  let v := raw_v_axis 80 (1 # 2) in
  exists rd_matrix t,
    notched mag v = Emit rd_matrix
    /\ percentile 5 (concat rd_matrix) = Some t
    /\ (0 < t)%Q
    /\ forall row x, In row (noise_floor rd_matrix) -> In x row ->
                     (x < t)%Q -> x = 0%Q.
Proof.
  eexists. eexists.
  split; [vm_compute; reflexivity|].
  split; [vm_compute; reflexivity|].
  split; [reflexivity|].
  eapply (fun H1 H2 => proj1 (proj2 (proj2
            (C8_noise_floor_zeroes_below_percentile
               [map (fun k => inject_Z (Z.of_nat k) + 1)%Q (seq 0 160)]
               (raw_v_axis 80 (1 # 2)) _ _ H1 H2))));
    vm_compute; reflexivity.
Defined.

(** C3 at a frame of 200 pulses with [delta_v] = 1 m/s (1 GHz, 0.75 ms
    repetition interval) and a spectrum of magnitude 1 everywhere: the
    velocity mask keeps the 111 columns of velocities -55 .. 55, whose
    zero-velocity column is number 55, but the band is placed with the
    index 100 that the zero has in the unmasked axis, so columns
    96 .. 102 of the map (velocities 41 .. 47) are zeroed and the
    columns around zero Doppler are untouched. *)
Theorem C3_notch_uses_unmasked_index :
  let p := mkParameters 0 [0; 0; 1000; 100] (scaled 1000 FREQ_UNIT) 0 200
                        (scaled 60000 PRT_UNIT) 31 in
  let mag := repeat (repeat 1%Q 200) 31 in
  params_valid p = true
  /\ exists va,
       velocity_axis p = Some va
       /\ (delta_v va == 1)%Q
       /\ (forall numpy, localize numpy p va mag = true)
       /\ (let masked_axis := compress (velocity_mask (v_axis va)) (v_axis va) in
           length masked_axis = 111%nat
           /\ find_index (fun x => Qeq_bool x 0) masked_axis = Some 55%nat)
       /\ velocity_index (v_axis va) = Some 100
       /\ notched mag (v_axis va) =
            Emit (repeat (repeat 1%Q 96 ++ repeat 0%Q 7 ++ repeat 1%Q 8) 31).
Proof.
  cbv zeta. split; [vm_compute; reflexivity|].
  eexists. split; [vm_compute; reflexivity|].
  split; [vm_compute; reflexivity|].
  split; [intros []; vm_compute; reflexivity|].
  split; [split; vm_compute; reflexivity|].
  split; vm_compute; reflexivity.
Qed.

(** ** Frame location *)

Section LocateFacts.

Variable buf : list byte.

Lemma bind_val {A B} (m : File.io A) (k : A -> File.io B) pos b pos' :
  File.bind m k pos = File.Val b pos' ->
  exists a p1, m pos = File.Val a p1 /\ k a p1 = File.Val b pos'.
Proof.
  unfold File.bind. destruct (m pos) as [a p1| | |]; try discriminate.
  intros H. exists a, p1. split; [reflexivity | exact H].
Qed.

(** A full word is available: the read succeeds and yields it. *)
Lemma read_u32_in (q : Z) :
  0 <= q -> q + 4 <= File.file_size buf ->
  File.read_u32 buf q = File.Val (File.word_at buf q) (q + 4).
Proof.
  intros Hq Hsz. unfold File.file_size in Hsz.
  unfold File.read_u32, File.bind, File.read, File.word_at.
  change (Z.to_nat 4) with 4%nat.
  assert (Hlen : length (firstn 4 (skipn (Z.to_nat q) buf)) = 4%nat)
    by (rewrite length_firstn, length_skipn; lia).
  rewrite Hlen. reflexivity.
Qed.

(** A successful read yields the word under the cursor. *)
Lemma read_u32_val (q w q' : Z) :
  0 <= q -> File.read_u32 buf q = File.Val w q' ->
  q' = q + 4 /\ q + 4 <= File.file_size buf /\ w = File.word_at buf q.
Proof.
  intros Hq. unfold File.read_u32, File.bind, File.read, File.word_at.
  change (Z.to_nat 4) with 4%nat.
  set (bs := firstn 4 (skipn (Z.to_nat q) buf)).
  assert (Hbs : length bs = Nat.min 4 (length buf - Z.to_nat q))
    by (subst bs; rewrite length_firstn, length_skipn; reflexivity).
  destruct (Nat.ltb_spec (length bs) 4) as [|Hlen]; [discriminate|].
  unfold File.ret. intros H. injection H as Hw Hq'.
  unfold File.file_size. repeat split; try lia; symmetry; exact Hw.
Qed.

Lemma seek_cur_val (d pos : Z) (u : unit) (pos' : Z) :
  File.seek_cur d pos = File.Val u pos' -> pos' = pos + d /\ 0 <= pos'.
Proof.
  unfold File.seek_cur.
  destruct (Z.ltb_spec (pos + d) 0) as [|Hge]; [discriminate|].
  intros H; injection H as <-. split; lia.
Qed.

(** The search loop walks byte by byte to the first header sentinel. *)
Lemma scan_header_finds (o : Z) :
  o + 4 <= File.file_size buf ->
  File.word_at buf o = File.FRAME_HEAD ->
  forall (d fuel : nat) (q : Z),
    (d <= fuel)%nat -> 0 <= q -> q + Z.of_nat d = o ->
    File.first_header_at buf q o ->
    File.scan_header buf fuel (File.word_at buf q) (q + 4)
    = File.Val File.FRAME_HEAD (o + 4).
Proof.
  intros Ho Hhead. induction d as [|d IH]; intros fuel q Hfuel Hq Hqo Hfirst.
  - replace q with o by lia. rewrite Hhead.
    destruct fuel; cbn [File.scan_header]; rewrite Z.eqb_refl; reflexivity.
  - destruct fuel as [|fuel]; [lia|].
    cbn [File.scan_header].
    assert (Hne : File.word_at buf q <> File.FRAME_HEAD)
      by (apply Hfirst; lia).
    apply Z.eqb_neq in Hne. rewrite Hne. cbn [negb andb].
    destruct (Z.ltb_spec (q + 4) (File.file_size buf)) as [_|Hge];
      [|lia].
    unfold File.bind at 1. unfold File.seek_cur.
    destruct (Z.ltb_spec (q + 4 + -3) 0) as [|_]; [lia|].
    unfold File.bind.
    replace (q + 4 + -3) with (q + 1) by lia.
    rewrite read_u32_in by lia.
    replace (q + 1 + 4) with ((q + 1) + 4) by lia.
    apply IH; try lia.
    intros k Hk. apply Hfirst. lia.
Qed.

(** One turn of the search loop: after a word that is not the header,
    read at byte [q], the next word is read at byte [q + 1]. *)
Lemma scan_header_step (fuel : nat) (q : Z) :
  0 <= q -> q + 5 <= File.file_size buf ->
  File.word_at buf q <> File.FRAME_HEAD ->
  File.scan_header buf (S fuel) (File.word_at buf q) (q + 4)
  = File.scan_header buf fuel (File.word_at buf (q + 1)) (q + 5).
Proof.
  intros Hq Hsz Hne. cbn [File.scan_header].
  apply Z.eqb_neq in Hne. rewrite Hne. cbn [negb andb].
  destruct (Z.ltb_spec (q + 4) (File.file_size buf)) as [_|Hge]; [|lia].
  unfold File.bind at 1. unfold File.seek_cur.
  destruct (Z.ltb_spec (q + 4 + -3) 0) as [|_]; [lia|].
  unfold File.bind.
  replace (q + 4 + -3) with (q + 1) by lia.
  rewrite read_u32_in by lia.
  f_equal. lia.
Qed.

(** Whatever the search loop returns is the word just before the
    cursor. *)
Lemma scan_header_val (fuel : nat) :
  forall (h c h' c' : Z),
    4 <= c -> c <= File.file_size buf -> h = File.word_at buf (c - 4) ->
    File.scan_header buf fuel h c = File.Val h' c' ->
    4 <= c' /\ c' <= File.file_size buf
    /\ h' = File.word_at buf (c' - 4).
Proof.
  induction fuel as [|fuel IH]; intros h c h' c' Hc Hsz Hh;
    cbn [File.scan_header];
    destruct (negb (h =? File.FRAME_HEAD) && (c <? File.file_size buf));
    try discriminate;
    try (intros H; injection H as <- <-; repeat split; assumption).
  intros H.
  apply bind_val in H. destruct H as (u & p1 & Hseek & H).
  apply seek_cur_val in Hseek. destruct Hseek as [-> Hp1].
  apply bind_val in H. destruct H as (w & p2 & Hread & H).
  apply read_u32_val in Hread; [|exact Hp1].
  destruct Hread as (-> & Hp2 & ->).
  refine (IH _ _ _ _ _ _ _ H); [lia | lia | f_equal; lia].
Qed.

Lemma resync_val (fuel : nat) :
  forall (c : File.Candidate) (pos : Z) (c' : File.Candidate) (pos' : Z),
    File.candidate_ok buf c ->
    File.resync buf fuel c pos = File.Val c' pos' ->
    File.candidate_ok buf c' /\ File.mismatch c' = false.
Proof.
  induction fuel as [|fuel IH]; intros c pos c' pos' Hok;
    cbn [File.resync]; destruct (File.mismatch c) eqn:Hmis;
    try discriminate;
    try (intros H; injection H as <- <-; split; assumption).
  intros H.
  apply bind_val in H. destruct H as (u & p1 & Hseek & H).
  apply seek_cur_val in Hseek. destruct Hseek as [_ Hp1].
  apply bind_val in H. destruct H as (start & p2 & Htell & H).
  unfold File.tell in Htell. injection Htell as <- <-.
  apply bind_val in H. destruct H as (h & p3 & Hread1 & H).
  apply read_u32_val in Hread1; [|exact Hp1].
  destruct Hread1 as (-> & Hp3 & ->).
  apply bind_val in H. destruct H as (len & p4 & Hread2 & H).
  apply read_u32_val in Hread2; [|lia].
  destruct Hread2 as (-> & Hp4 & ->).
  destruct (File.bad_length (File.word_at buf (p1 + 4) * 4)) eqn:Hbad;
    [discriminate|].
  apply bind_val in H. destruct H as (u' & p5 & _ & H).
  apply bind_val in H. destruct H as (e & p6 & _ & H).
  apply bind_val in H. destruct H as (now & p7 & _ & H).
  match type of H with
  | (if ?b then _ else _) _ = _ => destruct b; [discriminate|]
  end.
  refine (IH _ _ _ _ _ H).
  unfold File.candidate_ok. cbn [File.head_pos File.head_find
                                          File.frame_data_length].
  repeat split; try assumption; try reflexivity; lia.
Qed.

End LocateFacts.

Section LocateTheorems.

Variable buf : list byte.

Lemma bind_step {A B} (m : File.io A) (k : A -> File.io B) pos a p1 :
  m pos = File.Val a p1 -> File.bind m k pos = k a p1.
Proof. intros H. unfold File.bind. rewrite H. reflexivity. Qed.

Lemma resync_done (fuel : nat) (c : File.Candidate) (pos : Z) :
  File.mismatch c = false -> File.resync buf fuel c pos = File.Val c pos.
Proof. intros H. destruct fuel; cbn [File.resync]; rewrite H; reflexivity. Qed.

(** From a cursor at or before the first header sentinel, a valid frame
    starting there is located, with the cursor left four bytes after
    its header offset. *)
Lemma locate_finds_first_frame (from o fdl : Z) :
  0 <= from <= o ->
  File.valid_frame_at buf o fdl ->
  File.first_header_at buf from o ->
  File.locate buf from
  = File.Val (File.mkCandidate o File.FRAME_HEAD fdl File.FRAME_END) (o + 4).
Proof.
  intros Hfrom (Ho & Hsz & Hhead & Hlen & Hbad & Hend) Hfirst.
  assert (Hfdl : 0 < fdl <= 1000000).
  { unfold File.bad_length in Hbad. apply orb_false_iff in Hbad.
    destruct Hbad as [H1 H2]. apply Z.leb_gt in H1. apply Z.ltb_ge in H2.
    lia. }
  assert (Hfdl8 : 8 <= fdl).
  { destruct (Z.eq_dec fdl 4) as [E|Hne]; [|lia].
    rewrite E in Hend. replace (o + 4 - 4) with o in Hend by lia.
    rewrite Hhead in Hend. discriminate Hend. }
  unfold File.file_size in Hsz.
  unfold File.locate.
  rewrite (bind_step _ _ _ _ _ (read_u32_in buf from ltac:(lia)
                                  ltac:(unfold File.file_size; lia))).
  rewrite (bind_step _ _ _ _ _
             (scan_header_finds buf o ltac:(unfold File.file_size; lia) Hhead
                (Z.to_nat (o - from)) (length buf) from
                ltac:(lia) ltac:(lia) ltac:(lia) Hfirst)).
  rewrite (bind_step File.tell _ _ _ _ eq_refl).
  rewrite Z.eqb_refl. cbn [negb].
  rewrite (bind_step _ _ _ _ _ (read_u32_in buf (o + 4) ltac:(lia)
                                  ltac:(unfold File.file_size; lia))).
  cbv zeta. rewrite Hlen, Hbad.
  rewrite (bind_step File.tell _ _ _ _ eq_refl).
  assert (Hcatch :
    File.catch_os
      (File.bind (File.seek_set (o + 4 + 4 + fdl - 12))
                 (fun _ => File.read_u32 buf)) (o + 4 + 4)
    = File.Val File.FRAME_END (o + fdl)).
  { unfold File.catch_os, File.bind, File.seek_set.
    destruct (Z.ltb_spec (o + 4 + 4 + fdl - 12) 0) as [|_]; [lia|].
    replace (o + 4 + 4 + fdl - 12) with (o + fdl - 4) by lia.
    rewrite read_u32_in by (unfold File.file_size; lia).
    rewrite Hend. f_equal. lia. }
  rewrite (bind_step _ _ _ _ _ Hcatch).
  replace (o + 4 - 4) with o by lia.
  rewrite (bind_step _ _ _ _ _
             (resync_done (length buf)
                (File.mkCandidate o File.FRAME_HEAD fdl File.FRAME_END)
                (o + fdl) eq_refl)).
  cbn [File.frame_data_length].
  unfold File.bind, File.seek_cur, File.ret.
  destruct (Z.ltb_spec (o + fdl + (- fdl + 4)) 0) as [|_]; [lia|].
  f_equal. lia.
Qed.

(** Whatever is located has the header sentinel at its position and a
    declared length within bounds. *)
Lemma locate_val (from : Z) (c : File.Candidate) (pos' : Z) :
  0 <= from ->
  File.locate buf from = File.Val c pos' ->
  File.candidate_ok buf c /\ File.mismatch c = false.
Proof.
  intros Hfrom H. unfold File.locate in H.
  apply bind_val in H. destruct H as (h0 & p1 & Hread & H).
  apply read_u32_val in Hread; [|exact Hfrom].
  destruct Hread as (-> & Hp1 & ->).
  apply bind_val in H. destruct H as (h & p2 & Hscan & H).
  apply scan_header_val in Hscan; [|lia|exact Hp1|f_equal; lia].
  destruct Hscan as (Hp2 & Hp2' & ->).
  apply bind_val in H. destruct H as (at_head & p3 & Htell & H).
  unfold File.tell in Htell. injection Htell as <- <-.
  destruct (negb (File.word_at buf (p2 - 4) =? File.FRAME_HEAD));
    [discriminate|].
  apply bind_val in H. destruct H as (len & p4 & Hread & H).
  apply read_u32_val in Hread; [|lia].
  destruct Hread as (-> & Hp4 & ->).
  cbv zeta in H.
  destruct (File.bad_length (File.word_at buf p2 * 4)) eqn:Hbad;
    [discriminate|].
  apply bind_val in H. destruct H as (cur & p5 & _ & H).
  apply bind_val in H. destruct H as (e & p6 & _ & H).
  apply bind_val in H. destruct H as (c0 & p7 & Hres & H).
  apply resync_val in Hres.
  - apply bind_val in H. destruct H as (u & p8 & _ & H).
    unfold File.ret in H. injection H as <- _. exact Hres.
  - unfold File.candidate_ok. cbn [File.head_pos File.head_find
                                            File.frame_data_length].
    replace (p2 - 4 + 4) with p2 by lia.
    repeat split; try assumption; try reflexivity; lia.
Qed.

End LocateTheorems.

(** C7, as the code has it: when the first header sentinel at or after
    the cursor starts a structurally valid frame, the locator finds
    exactly that header offset and declared length; the search reads
    four bytes and steps back three on a mismatch, one byte forward per
    turn, so the offset need not be aligned; and whatever position the
    locator accepts holds the header sentinel, never the trailer
    sentinel, with a declared length within bounds. *)
Theorem C7_locate_first_header_frame :
  forall buf : list byte,
    (forall fuel q,
        0 <= q -> q + 5 <= File.file_size buf ->
        File.word_at buf q <> File.FRAME_HEAD ->
        File.scan_header buf (S fuel) (File.word_at buf q) (q + 4)
        = File.scan_header buf fuel (File.word_at buf (q + 1)) (q + 5))
    /\
    (forall from o fdl,
        0 <= from <= o ->
        File.valid_frame_at buf o fdl ->
        File.first_header_at buf from o ->
        File.locate buf from
        = File.Val (File.mkCandidate o File.FRAME_HEAD fdl File.FRAME_END)
                   (o + 4))
    /\ (forall from c pos',
          0 <= from ->
          File.locate buf from = File.Val c pos' ->
          File.word_at buf (File.head_pos c) = File.FRAME_HEAD
          /\ File.word_at buf (File.head_pos c) <> File.FRAME_END
          /\ 0 <= File.head_pos c
          /\ File.head_pos c + 8 <= File.file_size buf
          /\ File.frame_data_length c
             = File.word_at buf (File.head_pos c + 4) * 4
          /\ 0 < File.frame_data_length c <= 1000000).
Proof.
  intros buf. split; [|split].
  - intros fuel q. apply scan_header_step.
  - intros from o fdl. apply locate_finds_first_frame.
  - intros from c pos' Hfrom H.
    destruct (locate_val buf from c pos' Hfrom H)
      as ((Hpos & Hsz & Hh & Hl & Hbad) & Hmis).
    unfold File.mismatch in Hmis. apply orb_false_iff in Hmis.
    destruct Hmis as [Hmh _]. apply negb_false_iff, Z.eqb_eq in Hmh.
    rewrite <- Hh, Hmh.
    unfold File.bad_length in Hbad. apply orb_false_iff in Hbad.
    destruct Hbad as [H1 H2]. apply Z.leb_gt in H1. apply Z.ltb_ge in H2.
    repeat split; try assumption; try lia.
    discriminate.
Qed.

(** A three-byte prefix, then a minimal frame: found at offset 3. *)
Lemma C7_misaligned_frame_located :
  File.locate Sample.misaligned_frame 0
  = File.Val (File.mkCandidate 3 File.FRAME_HEAD 12 File.FRAME_END) 7.
Proof.
  apply (proj1 (proj2 (C7_locate_first_header_frame Sample.misaligned_frame))
               0 3 12).
  - lia.
  - unfold File.valid_frame_at.
    repeat split; try (vm_compute; reflexivity); vm_compute; discriminate.
  - intros k Hk.
    assert (Hcases : k = 0 \/ k = 1 \/ k = 2) by lia.
    destruct Hcases as [-> | [-> | ->]]; vm_compute; discriminate.
Defined.

(** A buffer that contains a structurally valid frame at offset 8,
    after a header sentinel with a zero length: the out-of-bounds
    length ends the search and nothing is located. *)
Lemma C7_decoy_header_hides_frame :
  File.valid_frame_at Sample.decoy_then_frame 8 12
  /\ File.locate Sample.decoy_then_frame 0 = File.NoFrame.
Proof.
  split.
  - unfold File.valid_frame_at.
    repeat split; try (vm_compute; reflexivity); vm_compute; discriminate.
  - vm_compute. reflexivity.
Qed.

(** ** Decoding *)

Lemma pack_u32_length (w : Z) : length (Encoder.pack_u32 w) = 4%nat.
Proof. apply length_le_split. Qed.

Lemma pack_words_length (ws : list Z) :
  length (Encoder.pack_words ws) = (4 * length ws)%nat.
Proof.
  induction ws as [|w ws IH]; [reflexivity|].
  unfold Encoder.pack_words in *. cbn [flat_map].
  rewrite length_app, pack_u32_length, IH. cbn [length]. lia.
Qed.

Lemma pack_words_app (a b : list Z) :
  Encoder.pack_words (a ++ b) = Encoder.pack_words a ++ Encoder.pack_words b.
Proof. apply flat_map_app. Qed.

Lemma unpack_pack_u32 (w : Z) :
  Encoder.u32 w -> File.unpack_u32 (Encoder.pack_u32 w) = w.
Proof.
  intros Hw. unfold File.unpack_u32, Encoder.pack_u32.
  rewrite le_combine_split. apply Z.mod_small. exact Hw.
Qed.

Lemma words_from_pack (ws : list Z) (rest : list byte) :
  Forall Encoder.u32 ws ->
  File.words_from (length ws) (Encoder.pack_words ws ++ rest) = ws.
Proof.
  induction 1 as [|w ws Hw _ IH]; [reflexivity|].
  cbn [length File.words_from]. unfold Encoder.pack_words. cbn [flat_map].
  rewrite <- app_assoc.
  rewrite firstn_app, pack_u32_length, Nat.sub_diag, firstn_O, app_nil_r.
  rewrite firstn_all2 by (rewrite pack_u32_length; lia).
  rewrite skipn_app, pack_u32_length, Nat.sub_diag, skipn_O.
  rewrite skipn_all2 by (rewrite pack_u32_length; lia).
  cbn [app]. rewrite unpack_pack_u32 by exact Hw.
  f_equal. exact IH.
Qed.

Lemma frombuffer_pack (ws : list Z) :
  Forall Encoder.u32 ws ->
  File.frombuffer_u32 (Encoder.pack_words ws) = ws.
Proof.
  intros H. unfold File.frombuffer_u32.
  rewrite pack_words_length, Nat.mul_comm, Nat.div_mul by lia.
  rewrite <- (app_nil_r (Encoder.pack_words ws)).
  apply words_from_pack. exact H.
Qed.

(** The bytes of the words [B] that follow the words [A]. *)
Lemma pack_words_segment (A B C : list Z) :
  firstn (4 * length B) (skipn (4 * length A)
                               (Encoder.pack_words (A ++ B ++ C)))
  = Encoder.pack_words B.
Proof.
  rewrite !pack_words_app, <- !pack_words_length.
  rewrite skipn_app, Nat.sub_diag, skipn_O, skipn_all, app_nil_l.
  rewrite firstn_app, Nat.sub_diag, firstn_O, app_nil_r, firstn_all.
  reflexivity.
Qed.

Lemma read_pack (A B C : list Z) (n pos : Z) :
  n = 4 * Z.of_nat (length B) ->
  pos = 4 * Z.of_nat (length A) ->
  File.read (Encoder.pack_words (A ++ B ++ C)) n pos
  = File.Val (Encoder.pack_words B) (pos + n).
Proof.
  intros -> ->. unfold File.read.
  replace (Z.to_nat (4 * Z.of_nat (length A))) with (4 * length A)%nat by lia.
  replace (Z.to_nat (4 * Z.of_nat (length B))) with (4 * length B)%nat by lia.
  rewrite pack_words_segment, pack_words_length. f_equal. lia.
Qed.

Lemma word_at_pack (A C : list Z) (w k : Z) :
  Encoder.u32 w -> k = 4 * Z.of_nat (length A) ->
  File.word_at (Encoder.pack_words (A ++ w :: C)) k = w.
Proof.
  intros Hw ->. unfold File.word_at.
  replace (Z.to_nat (4 * Z.of_nat (length A))) with (4 * length A)%nat by lia.
  change (A ++ w :: C) with (A ++ [w] ++ C).
  change 4%nat with (4 * length [w])%nat at 1.
  rewrite (pack_words_segment A [w] C).
  unfold Encoder.pack_words. cbn [flat_map]. rewrite app_nil_r.
  apply unpack_pack_u32. exact Hw.
Qed.

Lemma stride2_cons {A} (x : A) (l : list A) :
  File.stride2 (x :: l) = x :: File.stride2 (tl l).
Proof. destruct l; reflexivity. Qed.

Lemma stride2_interleave {A} (g : A -> Z) (samples : list (A * A)) :
  let flat := flat_map (fun s => [g (fst s); g (snd s)]) samples in
  File.stride2 flat = map (fun s => g (fst s)) samples
  /\ File.stride2 (tl flat) = map (fun s => g (snd s)) samples.
Proof.
  cbv zeta. induction samples as [|s rest [IH1 IH2]]; [split; reflexivity|].
  cbn [flat_map app map tl]. split.
  - rewrite stride2_cons. cbn [tl]. f_equal. exact IH1.
  - rewrite stride2_cons. f_equal. exact IH2.
Qed.

(** The bit pattern of a plain value is a 32-bit word that is neither
    NaN nor an infinity. *)
Lemma plain_bits (x : F32.t) :
  F32.plain x ->
  Encoder.u32 (F32.to_bits x) /\ F32.of_bits (F32.to_bits x) = x
  /\ F32.zero_times x = Some (F32.negative (F32.to_bits x))
  /\ forall z, F32.plus_zero x z = x.
Proof.
  intros (w & -> & Hw & Hexp & Hneg). cbn [F32.to_bits].
  assert (Hnan : F32.is_nan w = false).
  { unfold F32.is_nan. destruct (Z.eqb_spec (F32.exponent w) 255); [lia|].
    reflexivity. }
  assert (Hinf : F32.is_inf w = false).
  { unfold F32.is_inf. destruct (Z.eqb_spec (F32.exponent w) 255); [lia|].
    reflexivity. }
  split; [exact Hw|]. split; [|split].
  - unfold F32.of_bits. rewrite Hnan. reflexivity.
  - cbn [F32.zero_times]. rewrite Hinf. reflexivity.
  - intros z. cbn [F32.plus_zero]. unfold F32.is_zero.
    destruct (Z.eqb_spec w F32.NEG_ZERO) as [|_]; [contradiction|].
    destruct (Z.eqb_spec w F32.POS_ZERO) as [->|_]; reflexivity.
Qed.

(** Line 230 gives back a sample whose two parts are plain. *)
Lemma complex_plain (s : IQSample) :
  F32.plain (fst s) -> F32.plain (snd s) ->
  F32.complex (F32.to_bits (fst s)) (F32.to_bits (snd s)) = s.
Proof.
  destruct s as [re im]. cbn [fst snd]. intros Hre Him.
  destruct (plain_bits re Hre) as (_ & Ere & _ & Pre).
  destruct (plain_bits im Him) as (_ & Eim & Zim & Pim).
  unfold F32.complex. rewrite Ere, Eim, Zim, Pre, !Pim. reflexivity.
Qed.

Lemma decode_samples (samples : list IQSample) :
  Forall (fun s => F32.plain (fst s) /\ F32.plain (snd s)) samples ->
  map (fun s => F32.complex (fst s) (snd s))
      (combine (map (fun s => F32.to_bits (fst s)) samples)
               (map (fun s => F32.to_bits (snd s)) samples))
  = samples.
Proof.
  induction 1 as [|s rest [H1 H2] _ IH]; [reflexivity|].
  cbn [map combine fst snd]. rewrite IH, complex_plain by assumption.
  reflexivity.
Qed.

Lemma Forall_concat_of {A} (P : A -> Prop) (m : list (list A)) :
  Forall (Forall P) m -> Forall P (concat m).
Proof.
  induction 1 as [|row m Hrow _ IH]; [constructor|].
  cbn [concat]. apply Forall_app. split; assumption.
Qed.

Lemma Forall_concat_length {A} (cols : nat) (m : list (list A)) :
  Forall (fun row => length row = cols) m ->
  length (concat m) = (length m * cols)%nat.
Proof.
  induction 1 as [|row m Hrow _ IH]; [reflexivity|].
  cbn [concat length]. rewrite length_app, Hrow, IH. lia.
Qed.

Lemma reshape_concat_from {A} (cols : nat) (m pre : list (list A)) :
  Forall (fun row => length row = cols) pre ->
  Forall (fun row => length row = cols) m ->
  map (fun r => firstn cols (skipn (r * cols) (concat pre ++ concat m)))
      (seq (length pre) (length m)) = m.
Proof.
  intros Hpre Hm. revert pre Hpre.
  induction Hm as [|row m Hrow Hm IH]; intros pre Hpre; [reflexivity|].
  cbn [length seq map concat]. f_equal.
  - rewrite skipn_app, (Forall_concat_length cols pre Hpre), Nat.sub_diag,
      skipn_O.
    rewrite skipn_all2 by (rewrite (Forall_concat_length cols pre Hpre); lia).
    cbn [app]. rewrite firstn_app, Hrow, Nat.sub_diag, firstn_O, app_nil_r.
    apply firstn_all2. lia.
  - specialize (IH (pre ++ [row])).
    rewrite length_app, concat_app in IH. cbn [length concat] in IH.
    rewrite app_nil_r, <- app_assoc, Nat.add_1_r in IH.
    apply IH. apply Forall_app. split; [exact Hpre|].
    constructor; [exact Hrow | constructor].
Qed.

Lemma reshape_concat {A} (rows cols : nat) (m : list (list A)) :
  length m = rows ->
  Forall (fun row => length row = cols) m ->
  File.reshape rows cols (concat m) = m.
Proof.
  intros <- Hm. unfold File.reshape.
  apply (reshape_concat_from cols m [] (Forall_nil _) Hm).
Qed.

Lemma interleave_length (iq : IQMatrix) :
  length (Encoder.interleave iq) = (2 * length (concat iq))%nat.
Proof.
  unfold Encoder.interleave.
  induction (concat iq) as [|s rest IH]; [reflexivity|].
  cbn [flat_map app length]. rewrite IH. lia.
Qed.

Lemma interleave_u32 (iq : IQMatrix) :
  Forall (Forall (fun s => F32.plain (fst s) /\ F32.plain (snd s))) iq ->
  Forall Encoder.u32 (Encoder.interleave iq).
Proof.
  intros Hiq. unfold Encoder.interleave. apply Forall_flat_map.
  eapply Forall_impl; [|apply Forall_concat_of; exact Hiq].
  intros s [Hs1 Hs2].
  repeat (apply Forall_cons; [apply plain_bits; assumption|]).
  apply Forall_nil.
Qed.

Lemma read_pack_of (buf : list byte) (A B C : list Z) (n pos : Z) :
  buf = Encoder.pack_words (A ++ B ++ C) ->
  n = 4 * Z.of_nat (length B) ->
  pos = 4 * Z.of_nat (length A) ->
  File.read buf n pos = File.Val (Encoder.pack_words B) (pos + n).
Proof. intros ->. apply read_pack. Qed.

Lemma decode_layout (W az count f cpi n r dl : Z) (track : list Z)
      (iq : IQMatrix) :
  Forall Encoder.u32 [W; az; count; f; cpi; n; r; dl] ->
  Forall Encoder.u32 track ->
  0 <= count <= 1000 ->
  Z.of_nat (length track) = count * 4 ->
  let p := mkParameters (scaled az AZ_UNIT) track
                        (scaled f FREQ_UNIT) cpi n
                        (scaled r PRT_UNIT) dl in
  decoded_scalars_ok p = true ->
  length iq = 31%nat ->
  Forall (fun row => length row = Z.to_nat n) iq ->
  Forall (Forall (fun s => F32.plain (fst s) /\ F32.plain (snd s))) iq ->
  let ws := [File.FRAME_HEAD] ++ [W; az; count]
            ++ (track ++ [f; cpi; n; r; dl])
            ++ Encoder.interleave iq ++ [File.FRAME_END] in
  File.decode (Encoder.pack_words ws) 4
  = File.Val (p, iq) (4 * Z.of_nat (length ws)).
Proof.
  intros Hu Htrack Hcount Hlen p Hok Hrows Hcols Hiq ws. subst p.
  inversion Hu as [|? ? HW Hu1]; inversion Hu1 as [|? ? Haz Hu2];
  inversion Hu2 as [|? ? Hc Hu3]; inversion Hu3 as [|? ? Hf Hu4];
  inversion Hu4 as [|? ? Hcpi Hu5]; inversion Hu5 as [|? ? Hn Hu6];
  inversion Hu6 as [|? ? Hr Hu7]; inversion Hu7 as [|? ? Hdl _]; subst.
  remember (Encoder.pack_words ws) as buf eqn:Ebuf.
  assert (E1 : buf = Encoder.pack_words
                       ([File.FRAME_HEAD] ++ [W; az; count]
                        ++ ((track ++ [f; cpi; n; r; dl])
                            ++ Encoder.interleave iq ++ [File.FRAME_END])))
    by exact Ebuf.
  assert (E2 : buf = Encoder.pack_words
                       ([File.FRAME_HEAD; W; az; count]
                        ++ (track ++ [f; cpi; n; r; dl])
                        ++ (Encoder.interleave iq ++ [File.FRAME_END])))
    by exact Ebuf.
  assert (E3 : buf = Encoder.pack_words
                       (([File.FRAME_HEAD; W; az; count]
                         ++ track ++ [f; cpi; n; r; dl])
                        ++ Encoder.interleave iq ++ [File.FRAME_END])).
  { rewrite Ebuf. unfold ws. cbn [app]. rewrite <- ?app_assoc. reflexivity. }
  unfold File.decode.
  rewrite (bind_step _ _ _ _ _ (read_pack_of buf _ _ _ 12 4 E1 eq_refl eq_refl)).
  rewrite pack_words_length.
  change (4 * length [W; az; count] <? 12)%nat with false. cbv iota.
  rewrite (frombuffer_pack [W; az; count]) by (repeat (apply Forall_cons; [assumption|]); apply Forall_nil).
  cbn [nth].
  replace ((count <? 0) || (1000 <? count)) with false
    by (symmetry; apply orb_false_iff; split; apply Z.ltb_ge; lia).
  assert (Hn2 : (count * 4 + 5) * 4
                = 4 * Z.of_nat (length (track ++ [f; cpi; n; r; dl])))
    by (rewrite length_app; cbn [length]; lia).
  rewrite (bind_step _ _ _ _ _
             (read_pack_of buf _ _ _ ((count * 4 + 5) * 4) (4 + 12)
                           E2 Hn2 eq_refl)).
  rewrite pack_words_length.
  replace (Z.of_nat (4 * length (track ++ [f; cpi; n; r; dl]))
           <? (count * 4 + 5) * 4) with false
    by (symmetry; apply Z.ltb_ge; lia).
  rewrite (frombuffer_pack (track ++ [f; cpi; n; r; dl]))
    by (apply Forall_app; split; [assumption |
         repeat (apply Forall_cons; [assumption|]); apply Forall_nil]).
  replace (Z.to_nat (count * 4)) with (length track) by lia.
  rewrite nth_middle.
  rewrite !app_nth2_plus. cbn [nth].
  assert (Htr : (if 0 <? count
                 then firstn (length track) (track ++ [f; cpi; n; r; dl])
                 else []) = track).
  { destruct (Z.ltb_spec 0 count) as [_|Hc0].
    - rewrite firstn_app, Nat.sub_diag, firstn_O, app_nil_r.
      apply firstn_all.
    - destruct track; [reflexivity | cbn [length] in Hlen; lia]. }
  rewrite Htr, Hok. cbn [negb prt_num].
  assert (Hn1 : 1 <= n) by (apply decoded_scalars_ok_iff in Hok; cbn in Hok; lia).
  assert (Hcl : length (concat iq) = (31 * Z.to_nat n)%nat).
  { rewrite <- Hrows. apply Forall_concat_length. exact Hcols. }
  assert (Hflat : length (Encoder.interleave iq)
                  = (2 * (31 * Z.to_nat n))%nat).
  { rewrite interleave_length. f_equal. exact Hcl. }
  assert (Hn3 : n * 31 * 2 * 4
                = 4 * Z.of_nat (length (Encoder.interleave iq)))
    by (rewrite Hflat; lia).
  assert (Hp3 : 4 + 12 + (count * 4 + 5) * 4
                = 4 * Z.of_nat (length ([File.FRAME_HEAD; W; az; count]
                                        ++ track ++ [f; cpi; n; r; dl])))
    by (rewrite !length_app; cbn [length]; lia).
  rewrite (bind_step _ _ _ _ _
             (read_pack_of buf _ _ _ (n * 31 * 2 * 4)
                           (4 + 12 + (count * 4 + 5) * 4) E3 Hn3 Hp3)).
  rewrite pack_words_length.
  replace (Z.of_nat (4 * length (Encoder.interleave iq)) <? n * 31 * 2 * 4)
    with false by (symmetry; apply Z.ltb_ge; lia).
  assert (Hflat_u32 : Forall Encoder.u32 (Encoder.interleave iq))
    by (apply interleave_u32; exact Hiq).
  rewrite (frombuffer_pack _ Hflat_u32).
  unfold Encoder.interleave.
  destruct (stride2_interleave F32.to_bits (concat iq)) as [S1 S2].
  rewrite S1, S2, decode_samples by (apply Forall_concat_of; exact Hiq).
  match goal with
  | |- context [Nat.eqb ?a ?b] =>
      replace a with b
        by (symmetry; exact Hcl)
  end.
  rewrite Nat.eqb_refl.
  cbn [negb].
  unfold File.bind, File.seek_cur, File.ret.
  assert (Hws : Z.of_nat (length ws)
                = 4 + Z.of_nat (length track) + 5 + 2 * (31 * n) + 1).
  { unfold ws. rewrite !length_app, Hflat. cbn [length]. lia. }
  destruct (Z.ltb_spec (4 + 12 + (count * 4 + 5) * 4 + n * 31 * 2 * 4 + 4) 0)
    as [|_]; [lia|].
  f_equal; [|lia].
  f_equal. apply reshape_concat; assumption.
Qed.

Lemma Qfloor_unique (y : Q) (w : Z) :
  (inject_Z w <= y)%Q -> (y < inject_Z w + 1)%Q -> Qfloor y = w.
Proof.
  intros H1 H2.
  apply Qfloor_resp_le in H1. rewrite Qfloor_Z in H1.
  assert (H3 : (inject_Z (Qfloor y) < inject_Z (w + 1))%Q).
  { rewrite inject_Z_plus. eapply Qle_lt_trans; [apply Qfloor_le | exact H2]. }
  rewrite <- Zlt_Qlt in H3. lia.
Qed.

(** Two roundings of relative error [u] leave [W * s] within half of
    [s], for a word [W]. *)
Lemma two_roundings_half (W s U x u : Q) :
  (0 < s -> 0 <= W -> 0 <= u -> u <= 1 -> W * (3 * u) <= 1 # 4 ->
   s * (1 - u) <= U <= s * (1 + u) ->
   W * U * (1 - u) <= x <= W * U * (1 + u) ->
   (W - (1 # 2)) * s <= x /\ x < (W + (1 # 2)) * s)%Q.
Proof.
  intros Hs HW Hu0 Hu1 Hsmall [HU1 HU2] [Hx1 Hx2].
  assert (HU0 : (0 <= U)%Q) by nra.
  assert (Hws : (0 <= W * s)%Q) by nra.
  assert (H1 : (W * s * (1 - u) <= W * U)%Q) by nra.
  assert (H2 : (W * U <= W * s * (1 + u))%Q) by nra.
  assert (HWU : (0 <= W * U)%Q) by nra.
  assert (H3 : (W * s * ((1 - u) * (1 - u)) <= x)%Q).
  { apply Qle_trans with (W * U * (1 - u))%Q; [|exact Hx1]. nra. }
  assert (H4 : (x <= W * s * ((1 + u) * (1 + u)))%Q).
  { apply Qle_trans with (W * U * (1 + u))%Q; [exact Hx2|]. nra. }
  assert (H5 : (s * (W * (3 * u)) <= s * (1 # 4))%Q) by nra.
  assert (H6 : (0 <= W * s * u)%Q) by nra.
  assert (H7 : (W * s * (u * u) <= W * s * u)%Q) by nra.
  split; nra.
Qed.

(** The raw word behind a scaled field is recovered from the field. *)
Lemma unscale_scaled (w : Z) (s U : Q) :
  (0 < s)%Q ->
  (s * (1 - (1 # 2 ^ 53)) <= U <= s * (1 + (1 # 2 ^ 53)))%Q ->
  Encoder.u32 w ->
  Encoder.unscale (scaled w U) s = w.
Proof.
  intros Hs HU [Hw0 Hw]. unfold Encoder.unscale, scaled, F64.mul.
  assert (HW : (0 <= inject_Z w)%Q) by (apply inject_Z_nonneg; exact Hw0).
  assert (HU0 : (0 <= U)%Q).
  { apply (near_nonneg (1 # 2 ^ 53) s); [discriminate | lra | apply HU]. }
  assert (Ex : (F64.round (F64.of_Z w * U) == F64.round (inject_Z w * U))%Q).
  { apply round_comp. rewrite (of_Z_exact w) by lia. reflexivity. }
  assert (Hx : (inject_Z w * U * (1 - (1 # 2 ^ 53))
                <= F64.round (F64.of_Z w * U)
                <= inject_Z w * U * (1 + (1 # 2 ^ 53)))%Q).
  { rewrite Ex. apply round_near. apply Qmult_le_0_compat; assumption. }
  assert (Hsmall : (inject_Z w * (3 * (1 # 2 ^ 53)) <= 1 # 4)%Q).
  { apply Qle_trans with (inject_Z (2 ^ 32) * (3 * (1 # 2 ^ 53)))%Q.
    - apply Qmult_le_compat_r; [|discriminate]. rewrite <- Zle_Qle. lia.
    - discriminate. }
  destruct (two_roundings_half (inject_Z w) s U _ (1 # 2 ^ 53) Hs HW
              ltac:(discriminate) ltac:(discriminate) Hsmall HU Hx)
    as [Hlo Hhi].
  set (x := F64.round (F64.of_Z w * U)) in *.
  apply Qfloor_unique.
  - assert (H : (inject_Z w - (1 # 2) <= x / s)%Q)
      by (apply Qle_shift_div_l; assumption).
    lra.
  - assert (H : (x / s < inject_Z w + (1 # 2))%Q)
      by (apply Qlt_shift_div_r; assumption).
    lra.
Qed.

Lemma unscale_units (w : Z) :
  Encoder.u32 w ->
  Encoder.unscale (scaled w AZ_UNIT) (1 # 100) = w
  /\ Encoder.unscale (scaled w FREQ_UNIT) 1000000 = w
  /\ Encoder.unscale (scaled w PRT_UNIT) (1 # 80000000) = w.
Proof.
  intros Hw. repeat split; apply unscale_scaled;
    solve [exact Hw | reflexivity | split; vm_compute; discriminate].
Qed.

(** C6, as the code has it: for a parameter record and an IQ matrix
    that the frame can hold -- fields within the documented bounds,
    scaled fields that come from raw 32-bit words, IQ parts that are
    finite and not [-0.0], a frame of at most 1,000,000 bytes -- the
    bytes written by the encoder that puts the
    azimuth word right after the declared length (no scan-index word)
    are decoded by [read_raw_data] into exactly that record and that
    matrix, with the cursor left at the end of the frame. *)
Theorem C6_round_trip_decoder_layout :
  forall (p : Parameters) (iq : IQMatrix),
    Encoder.representable p iq ->
    Encoder.frame_bytes p <= 1000000 ->
    File.read_raw_data (Encoder.encode p iq) 0
    = File.Val (p, iq) (Z.of_nat (length (Encoder.encode p iq))).
Proof.
  intros p iq.
  intros ((az & f & r & Haz & Hf & Hr & Eaz & Ef & Er) & Htrack
          & (count & Hcount & Hlen) & Hcpi & Hdl & Hok & Hrows & Hcols & Hiq)
         Hbytes.
  destruct p as [paz track pf cpi n pr dl].
  cbn [e_scan_az track_no_info freq cpi_count prt_num prt data_length] in *.
  subst paz pf pr.
  assert (Hn : 1 <= n <= 10000)
    by (apply decoded_scalars_ok_iff in Hok; cbn in Hok; lia).
  unfold Encoder.frame_bytes in Hbytes.
  cbn [track_no_info prt_num] in Hbytes.
  assert (Hflat : Z.of_nat (length (Encoder.interleave iq)) = 62 * n).
  { rewrite interleave_length.
    assert (Hcl : length (concat iq) = (31 * Z.to_nat n)%nat)
      by (rewrite <- Hrows; apply Forall_concat_length; exact Hcols).
    rewrite Hcl. lia. }
  set (W := 10 + Z.of_nat (length track) + 62 * n).
  assert (HW : Encoder.u32 W) by (unfold Encoder.u32, W; lia).
  assert (Hc32 : Encoder.u32 count) by (unfold Encoder.u32; lia).
  assert (Hn32 : Encoder.u32 n) by (unfold Encoder.u32; lia).
  assert (Hpw : Encoder.parameter_words
                  (mkParameters (scaled az AZ_UNIT) track
                                (scaled f FREQ_UNIT) cpi n
                                (scaled r PRT_UNIT) dl)
                = [az; count] ++ track ++ [f; cpi; n; r; dl]).
  { unfold Encoder.parameter_words.
    cbn [e_scan_az track_no_info freq cpi_count prt_num prt data_length].
    rewrite (proj1 (unscale_units az Haz)).
    rewrite (proj1 (proj2 (unscale_units f Hf))).
    rewrite (proj2 (proj2 (unscale_units r Hr))).
    rewrite Hlen, Z.div_mul by lia. reflexivity. }
  assert (Henc : Encoder.encode
                   (mkParameters (scaled az AZ_UNIT) track
                                 (scaled f FREQ_UNIT) cpi n
                                 (scaled r PRT_UNIT) dl) iq
                 = Encoder.pack_words
                     ([File.FRAME_HEAD] ++ [W; az; count]
                      ++ (track ++ [f; cpi; n; r; dl])
                      ++ Encoder.interleave iq ++ [File.FRAME_END])).
  { unfold Encoder.encode, Encoder.frame. rewrite Hpw. f_equal.
    rewrite !length_app. cbn [length app].
    replace (Z.of_nat (2 + (length track + 5)
                       + length (Encoder.interleave iq)) + 3) with W
      by (unfold W; lia).
    rewrite <- !app_assoc. reflexivity. }
  rewrite Henc.
  set (ws := [File.FRAME_HEAD] ++ [W; az; count]
             ++ (track ++ [f; cpi; n; r; dl])
             ++ Encoder.interleave iq ++ [File.FRAME_END]).
  assert (Hws : Z.of_nat (length ws) = W).
  { unfold ws. rewrite !length_app. cbn [length]. unfold W. lia. }
  unfold File.read_raw_data.
  assert (Hvalid : File.valid_frame_at (Encoder.pack_words ws) 0 (W * 4)).
  { unfold File.valid_frame_at, File.file_size.
    rewrite pack_words_length.
    split; [lia|]. split; [lia|].
    split; [apply (word_at_pack [] _ _ 0); [unfold Encoder.u32, File.FRAME_HEAD; lia | reflexivity]|].
    split.
    { f_equal. apply (word_at_pack [File.FRAME_HEAD] _ W (0 + 4) HW). reflexivity. }
    split.
    { unfold File.bad_length. apply orb_false_iff.
      split; [apply Z.leb_gt | apply Z.ltb_ge]; unfold W; lia. }
    unfold ws.
    replace ([File.FRAME_HEAD] ++ [W; az; count]
             ++ (track ++ [f; cpi; n; r; dl])
             ++ Encoder.interleave iq ++ [File.FRAME_END])
      with (([File.FRAME_HEAD] ++ [W; az; count]
             ++ (track ++ [f; cpi; n; r; dl])
             ++ Encoder.interleave iq) ++ [File.FRAME_END])
      by (rewrite <- !app_assoc; reflexivity).
    apply word_at_pack; [unfold Encoder.u32, File.FRAME_END; lia|].
    rewrite !length_app. cbn [length]. unfold W. lia. }
  rewrite (bind_step _ _ _ _ _
             (locate_finds_first_frame (Encoder.pack_words ws) 0 0 (W * 4)
                ltac:(lia) Hvalid ltac:(intros k Hk; lia))).
  rewrite pack_words_length.
  replace (Z.of_nat (4 * length ws)) with (4 * Z.of_nat (length ws)) by lia.
  apply (decode_layout W az count f cpi n r dl track iq); try assumption.
  repeat (apply Forall_cons; [assumption|]). apply Forall_nil.
Qed.

Lemma representable_uniform (az f r cpi n dl : Z) (track : list Z)
      (sample : IQSample) :
  Forall Encoder.u32 [az; f; r; cpi; dl] ->
  F32.plain (fst sample) -> F32.plain (snd sample) ->
  Forall Encoder.u32 track ->
  (exists count, 0 <= count <= 1000
                 /\ Z.of_nat (length track) = count * 4) ->
  let p := mkParameters (scaled az AZ_UNIT) track
                        (scaled f FREQ_UNIT) cpi n
                        (scaled r PRT_UNIT) dl in
  decoded_scalars_ok p = true ->
  Encoder.representable p (repeat (repeat sample (Z.to_nat n)) 31).
Proof.
  intros Hu Hs1 Hs2 Htrack Hcount p Hok.
  inversion Hu as [|? ? Haz Hu1]; inversion Hu1 as [|? ? Hf Hu2];
  inversion Hu2 as [|? ? Hr Hu3]; inversion Hu3 as [|? ? Hcpi Hu4];
  inversion Hu4 as [|? ? Hdl _]; subst.
  unfold Encoder.representable.
  split; [exists az, f, r; repeat split; solve [assumption | reflexivity | apply Haz | apply Hf | apply Hr]|].
  split; [exact Htrack|]. split; [exact Hcount|].
  split; [exact Hcpi|]. split; [exact Hdl|]. split; [exact Hok|].
  split; [apply repeat_length|].
  split; apply Forall_forall; intros row Hrow; apply repeat_spec in Hrow;
    subst row.
  - apply repeat_length.
  - apply Forall_forall. intros s Hs. apply repeat_spec in Hs. subst s.
    split; assumption.
Qed.

Lemma zero_sample_plain : F32.plain (F32.Bits 0).
Proof.
  exists 0. split; [reflexivity|]. split; [lia|].
  split; [vm_compute|]; discriminate.
Qed.

Lemma sample_representable (cpi : Z) :
  Encoder.u32 cpi -> Encoder.representable (Sample.params cpi) Sample.iq.
Proof.
  intros Hcpi.
  apply (representable_uniform 2000 1000 60000 cpi 2 31 [1; 2; 3; 1]
                               Sample.zero_sample).
  - repeat (apply Forall_cons; [first [exact Hcpi | cbv; split; [discriminate | reflexivity]]|]).
    apply Forall_nil.
  - exact zero_sample_plain.
  - exact zero_sample_plain.
  - repeat (apply Forall_cons; [cbv; split; [discriminate | reflexivity]|]).
    apply Forall_nil.
  - exists 1. split; [lia | reflexivity].
  - vm_compute. reflexivity.
Qed.

(** The sample frame of two pulses. *)
Lemma C6_round_trip_sample :
  File.read_raw_data (Encoder.encode (Sample.params 7) Sample.iq) 0
  = File.Val (Sample.params 7, Sample.iq) 552.
Proof.
  apply (C6_round_trip_decoder_layout (Sample.params 7) Sample.iq).
  - apply sample_representable. cbv. split; [discriminate | reflexivity].
  - vm_compute. discriminate.
Defined.

(** Three frames within the documented bounds that do not come back:
    the sample frame written in the documented field order, whose
    scan-index word is read as the azimuth and whose azimuth word
    (2000) is read as a target count out of range; a frame of 5000
    pulses, whose declared length exceeds 1,000,000 bytes; and the
    sample frame with the IQ samples [1.0 + inf j] and [-0.0 + 0.0 j],
    which [real + 1j * imag] turns into [nan + inf j] and
    [0.0 + 0.0 j]. *)
Lemma C6_documented_frames_not_decoded :
  (Encoder.representable (Sample.params 7) Sample.iq
   /\ File.read_raw_data
        (Encoder.encode_documented (Sample.params 7) Sample.iq) 0
      = File.NoFrame)
  /\ (Encoder.representable Sample.long_params Sample.long_iq
      /\ File.read_raw_data
           (Encoder.encode Sample.long_params Sample.long_iq) 0
         = File.NoFrame)
  /\ (has_shape 31 2 Sample.special_iq
      /\ File.read_raw_data
           (Encoder.encode (Sample.params 7) Sample.special_iq) 0
         = File.Val (Sample.params 7, Sample.special_iq_decoded) 552
      /\ Sample.special_iq_decoded <> Sample.special_iq).
Proof.
  split; [|split]; [split | split | split; [|split]];
    [| | | | split; [reflexivity | apply Forall_forall; intros row Hrow;
                     apply repeat_spec in Hrow; subst row; reflexivity]
     | vm_compute; reflexivity
     | vm_compute; discriminate].
  - apply sample_representable. cbv. split; [discriminate | reflexivity].
  - vm_compute. reflexivity.
  - apply (representable_uniform 2000 1000 60000 0 5000 31 [1; 2; 3; 1]
                                 Sample.zero_sample).
    + repeat (apply Forall_cons; [cbv; split; [discriminate | reflexivity]|]).
      apply Forall_nil.
    + exact zero_sample_plain.
    + exact zero_sample_plain.
    + repeat (apply Forall_cons; [cbv; split; [discriminate | reflexivity]|]).
      apply Forall_nil.
    + exists 1. split; [lia | reflexivity].
    + vm_compute. reflexivity.
  - vm_compute. reflexivity.
Qed.

(** * Further properties of the code *)

(** ** [read_raw_data]: outcomes and invariants *)

Lemma safe_bind {A B} (P : A -> Z -> Prop) (Q : B -> Z -> Prop)
      (m : File.io A) (k : A -> File.io B) (pos : Z) :
  safe P (m pos) ->
  (forall a p1, P a p1 -> safe Q (k a p1)) ->
  safe Q (File.bind m k pos).
Proof.
  unfold File.bind. destruct (m pos) as [a p1| | |]; cbn [safe];
    intros H Hk; try contradiction; [apply Hk; exact H | exact I].
Qed.

Lemma safe_weaken {A} (P Q : A -> Z -> Prop) (r : File.result A) :
  (forall a p, P a p -> Q a p) -> safe P r -> safe Q r.
Proof. destruct r; cbn [safe]; auto. Qed.

Section ReadSafety.

Variable buf : list byte.

Lemma read_u32_safe (q : Z) :
  0 <= q ->
  safe (fun w p => p = q + 4 /\ p <= File.file_size buf
                   /\ w = File.word_at buf q)
       (File.read_u32 buf q).
Proof.
  intros Hq. destruct (File.read_u32 buf q) as [w p| | |] eqn:E; cbn [safe].
  - apply read_u32_val in E; [|exact Hq].
    destruct E as (-> & Hsz & ->). repeat split. exact Hsz.
  - exact I.
  - unfold File.read_u32, File.bind, File.read in E.
    destruct (_ <? 4)%nat; discriminate E.
  - unfold File.read_u32, File.bind, File.read in E.
    destruct (_ <? 4)%nat; discriminate E.
Qed.

Lemma seek_cur_safe (d pos : Z) :
  0 <= pos + d ->
  safe (fun _ p => p = pos + d) (File.seek_cur d pos).
Proof.
  intros H. unfold File.seek_cur.
  destruct (Z.ltb_spec (pos + d) 0); [lia | reflexivity].
Qed.

Lemma tell_safe (pos : Z) :
  safe (fun a p => a = pos /\ p = pos) (File.tell pos).
Proof. unfold File.tell. cbn [safe]. split; reflexivity. Qed.

(** The header search neither raises nor runs out of turns, and leaves
    the cursor between where it started and the end of the file. *)
Lemma scan_header_safe (fuel : nat) :
  forall (h c : Z),
    4 <= c -> c <= File.file_size buf ->
    File.file_size buf - c <= Z.of_nat fuel ->
    safe (fun _ c' => c <= c' <= File.file_size buf)
         (File.scan_header buf fuel h c).
Proof.
  induction fuel as [|fuel IH]; intros h c Hc Hsz Hfuel;
    cbn [File.scan_header];
    destruct (negb (h =? File.FRAME_HEAD)); cbn [andb];
    try (cbn [safe]; lia);
    destruct (Z.ltb_spec c (File.file_size buf)) as [Hlt|Hge];
    try (cbn [safe]; lia).
  eapply safe_bind; [apply seek_cur_safe; lia|].
  intros _ p1 ->.
  eapply safe_bind; [apply read_u32_safe; lia|].
  intros w p2 (-> & Hp2 & _).
  eapply safe_weaken; [|apply IH; lia].
  cbv beta. intros _ c'. lia.
Qed.

(** The verification loop neither raises nor runs out of turns; the
    cursor it leaves is such that stepping back to the data start stays
    at least four bytes after the base of the first candidate. *)
Lemma resync_safe (fuel : nat) :
  forall (c : File.Candidate) (pos : Z),
    let base := pos - File.frame_data_length c in
    0 <= base + 1 -> base + 4 <= File.file_size buf ->
    File.file_size buf - 2 <= Z.of_nat fuel + base + 1 ->
    safe (fun c' pos' => base + 4 <= pos' - File.frame_data_length c' + 4)
         (File.resync buf fuel c pos).
Proof.
  induction fuel as [|fuel IH]; intros c pos base Hb0 Hb4 Hfuel;
    cbn [File.resync]; destruct (File.mismatch c);
    try (cbn [safe]; subst base; lia).
  eapply safe_bind; [apply seek_cur_safe; subst base; lia|].
  intros _ p1 ->.
  eapply safe_bind; [apply tell_safe|].
  intros start p2 [-> ->].
  eapply safe_bind; [apply read_u32_safe; subst base; lia|].
  intros h p3 (-> & Hp3 & _).
  eapply safe_bind; [apply read_u32_safe; subst base; lia|].
  intros len p4 (-> & Hp4 & _).
  cbv zeta.
  destruct (File.bad_length (len * 4)) eqn:Hbad; [exact I|].
  unfold File.bad_length in Hbad. apply orb_false_iff in Hbad.
  destruct Hbad as [Hb1 Hb2]. apply Z.leb_gt in Hb1.
  eapply safe_bind; [apply seek_cur_safe; subst base; lia|].
  intros _ p5 ->.
  eapply safe_bind; [apply read_u32_safe; subst base; lia|].
  intros e p6 (-> & Hp6 & _).
  eapply safe_bind; [apply tell_safe|].
  intros now p7 [-> ->].
  match goal with
  | |- safe _ ((if ?b then _ else _) _) => destruct b; [exact I|]
  end.
  eapply safe_weaken; [|apply IH].
  - cbv beta. cbn [File.frame_data_length]. intros c' pos'. subst base. lia.
  - cbn [File.frame_data_length]. subst base. lia.
  - cbn [File.frame_data_length]. subst base. lia.
  - cbn [File.frame_data_length]. subst base. lia.
Qed.

Lemma seek_read_safe (t pos : Z) :
  safe (fun _ p => 0 <= t /\ p = t + 4 /\ p <= File.file_size buf)
       (File.catch_os
          (File.bind (File.seek_set t) (fun _ => File.read_u32 buf)) pos).
Proof.
  unfold File.catch_os, File.bind, File.seek_set.
  destruct (Z.ltb_spec t 0) as [|Ht]; [exact I|].
  pose proof (read_u32_safe t Ht) as H.
  destruct (File.read_u32 buf t); cbn [safe] in *; try contradiction;
    [|exact I].
  destruct H as (-> & Hsz & _). repeat split; assumption.
Qed.

(** Frame location neither raises nor runs out of turns; the cursor it
    leaves is at least four bytes after the one it started from. *)
Lemma locate_safe (from : Z) :
  0 <= from ->
  safe (fun _ p => from + 4 <= p) (File.locate buf from).
Proof.
  intros Hfrom. unfold File.locate.
  eapply safe_bind; [apply read_u32_safe; exact Hfrom|].
  intros h0 p1 (-> & Hp1 & _).
  eapply safe_bind;
    [apply scan_header_safe; [lia | exact Hp1 | unfold File.file_size; lia]|].
  cbv beta. intros h p2 Hp2.
  eapply safe_bind; [apply tell_safe|].
  intros at_head p3 [-> ->].
  destruct (negb (h =? File.FRAME_HEAD)); [exact I|].
  eapply safe_bind; [apply read_u32_safe; lia|].
  intros len p4 (-> & Hp4 & _).
  cbv zeta.
  destruct (File.bad_length (len * 4)) eqn:Hbad; [exact I|].
  eapply safe_bind; [apply tell_safe|].
  intros current_pos p5 [-> ->].
  eapply safe_bind; [apply seek_read_safe|].
  cbv beta. intros e p6 (Ht & -> & Hp6).
  eapply safe_bind.
  - apply resync_safe; cbn [File.frame_data_length];
      unfold File.file_size in *; lia.
  - cbv beta. cbn [File.frame_data_length]. intros c p7 Hp7.
    eapply safe_bind; [apply seek_cur_safe; lia|].
    intros _ p8 ->. unfold File.ret. cbn [safe]. lia.
Qed.

Lemma read_safe (n pos : Z) :
  0 <= pos -> 0 <= n ->
  safe (fun bs p =>
          p = pos + Z.of_nat (length bs)
          /\ Z.of_nat (length bs) = Z.min n (Z.max 0 (File.file_size buf - pos)))
       (File.read buf n pos).
Proof.
  intros Hpos Hn. unfold File.read, File.file_size. cbn [safe].
  split; [reflexivity|].
  rewrite length_firstn, length_skipn. lia.
Qed.

End ReadSafety.

Lemma words_from_length (n : nat) (bs : list byte) :
  length (File.words_from n bs) = n.
Proof.
  revert bs; induction n as [|n IH]; intros bs; cbn [File.words_from length];
    [reflexivity | f_equal; apply IH].
Qed.

Lemma unpack_u32_range (bs : list byte) :
  (length bs <= 4)%nat -> Encoder.u32 (File.unpack_u32 bs).
Proof.
  intros Hlen. unfold Encoder.u32, File.unpack_u32.
  pose proof (le_combine_bound bs) as Hb.
  assert (2 ^ (8 * Z.of_nat (length bs)) <= 2 ^ 32)
    by (apply Z.pow_le_mono_r; lia).
  lia.
Qed.

Lemma words_from_u32 (n : nat) (bs : list byte) :
  Forall Encoder.u32 (File.words_from n bs).
Proof.
  revert bs; induction n as [|n IH]; intros bs; cbn [File.words_from];
    constructor; [|apply IH].
  apply unpack_u32_range. apply firstn_le_length.
Qed.

Lemma Forall_firstn_of {A} (P : A -> Prop) (n : nat) (l : list A) :
  Forall P l -> Forall P (firstn n l).
Proof.
  intros H. rewrite <- (firstn_skipn n l) in H.
  apply Forall_app in H. exact (proj1 H).
Qed.

Lemma reshape_shape {A} (rows cols : nat) (flat : list A) :
  length flat = (rows * cols)%nat ->
  length (File.reshape rows cols flat) = rows
  /\ Forall (fun row => length row = cols) (File.reshape rows cols flat).
Proof.
  intros Hlen. unfold File.reshape. split.
  - rewrite length_map, length_seq. reflexivity.
  - apply Forall_forall. intros row Hrow.
    apply in_map_iff in Hrow. destruct Hrow as (r & <- & Hr).
    apply in_seq in Hr.
    rewrite length_firstn, length_skipn, Hlen. nia.
Qed.

(** Decoding neither raises nor loops, and whatever it returns is
    within the bounds it checked. *)
Lemma decode_safe (buf : list byte) (pos : Z) :
  0 <= pos ->
  safe (decoded_frame_ok (File.file_size buf) (pos - 4)) (File.decode buf pos).
Proof.
  intros Hpos. unfold File.decode.
  eapply safe_bind; [apply read_safe; lia|].
  cbv beta. intros bs1 p1 [-> Hbs1].
  destruct (Nat.ltb_spec (length bs1) 12) as [|Hlen1]; [exact I|].
  cbv zeta.
  set (pn := nth 2 (File.frombuffer_u32 bs1) 0).
  destruct (Z.ltb_spec pn 0) as [|Hpn0]; [exact I|].
  destruct (Z.ltb_spec 1000 pn) as [|Hpn1]; [exact I|].
  cbn [orb].
  eapply safe_bind; [apply read_safe; lia|].
  cbv beta. intros bs2 p2 [-> Hbs2].
  destruct (Z.ltb_spec (Z.of_nat (length bs2)) ((pn * 4 + 5) * 4))
    as [|Hlen2]; [exact I|].
  set (data_temp := File.frombuffer_u32 bs2).
  set (track := if 0 <? pn then firstn (Z.to_nat (pn * 4)) data_temp else []).
  set (params := mkParameters _ track _ _ _ _ _).
  destruct (decoded_scalars_ok params) eqn:Hok; [|exact I].
  cbn [negb].
  assert (Hn : 1 <= prt_num params <= 10000)
    by (apply decoded_scalars_ok_iff in Hok; lia).
  eapply safe_bind; [apply read_safe; lia|].
  cbv beta. intros bs3 p3 [-> Hbs3].
  destruct (Z.ltb_spec (Z.of_nat (length bs3)) (prt_num params * 31 * 2 * 4))
    as [|Hlen3]; [exact I|].
  match goal with
  | |- safe _ ((if negb (Nat.eqb ?a ?b) then _ else _) _) =>
      destruct (Nat.eqb_spec a b) as [Hflat|]; [|exact I]
  end.
  cbn [negb].
  eapply safe_bind; [apply seek_cur_safe; lia|].
  intros _ p4 ->. unfold File.ret. cbn [safe decoded_frame_ok].
  assert (Hdt : length data_temp = Z.to_nat (pn * 4 + 5)).
  { unfold data_temp, File.frombuffer_u32. rewrite words_from_length.
    replace (length bs2) with (Z.to_nat (pn * 4 + 5) * 4)%nat by lia.
    apply Nat.div_mul. lia. }
  assert (Htrack : Z.of_nat (length track) = pn * 4).
  { unfold track. destruct (Z.ltb_spec 0 pn).
    - rewrite length_firstn, Hdt. lia.
    - cbn [length]. lia. }
  split; [exact Hok|].
  split; [exists pn; split; [lia | exact Htrack]|].
  split.
  { unfold track. destruct (0 <? pn); [|constructor].
    apply Forall_firstn_of. apply words_from_u32. }
  destruct (reshape_shape 31 (Z.to_nat (prt_num params)) _ Hflat)
    as [Hrows Hcols].
  split; [exact Hrows|].
  split.
  { eapply Forall_impl; [|exact Hcols].
    cbv beta. intros row Hrow.
    transitivity (Z.of_nat (Z.to_nat (prt_num params)));
      [f_equal; exact Hrow | lia]. }
  unfold File.file_size in *. lia.
Qed.

(** The whole of [read_raw_data]: a frame within bounds or
    [None, None]. *)
Lemma read_raw_data_safe (buf : list byte) (pos : Z) :
  0 <= pos ->
  safe (decoded_frame_ok (File.file_size buf) pos)
       (File.read_raw_data buf pos).
Proof.
  intros Hpos. unfold File.read_raw_data.
  eapply safe_bind; [apply locate_safe; exact Hpos|].
  cbv beta. intros _ p1 Hp1.
  eapply safe_weaken; [|apply decode_safe; lia].
  intros [p0 d0] q. unfold decoded_frame_ok.
  intros (H1 & H2 & H3 & H4 & H5 & H6).
  repeat split; try assumption; lia.
Qed.

(** X1: [read_raw_data] never lets an exception escape and its two
    search loops always end within the iteration bound of the file
    length: from any cursor position it either returns [None, None] or a
    frame. *)
Theorem read_raw_data_returns :
  forall (buf : list byte) (pos : Z),
    0 <= pos ->
    File.read_raw_data buf pos = File.NoFrame
    \/ exists p data pos', File.read_raw_data buf pos = File.Val (p, data) pos'.
Proof.
  intros buf pos Hpos.
  pose proof (read_raw_data_safe buf pos Hpos) as H.
  destruct (File.read_raw_data buf pos) as [[p data] pos'| | |];
    cbn [safe] in H; try contradiction.
  - right. exists p, data, pos'. reflexivity.
  - left. reflexivity.
Qed.

(** X2: every frame returned by [read_raw_data] has scalars inside the
    validated ranges, a track block of whole hints (at most 1000 of
    them, each word below 2^32) and an IQ matrix of exactly 31 rows of
    [prt_num] samples; the cursor has moved forward by at least 288
    bytes and is at most 4 bytes past the end of the file. *)
Theorem read_raw_data_frame_invariants :
  forall (buf : list byte) (pos : Z) (p : Parameters) (data : IQMatrix)
         (pos' : Z),
    0 <= pos ->
    File.read_raw_data buf pos = File.Val (p, data) pos' ->
    decoded_scalars_ok p = true
    /\ (exists count, 0 <= count <= 1000
                      /\ Z.of_nat (length (track_no_info p)) = count * 4)
    /\ Forall Encoder.u32 (track_no_info p)
    /\ length data = 31%nat
    /\ Forall (fun row => Z.of_nat (length row) = prt_num p) data
    /\ pos + 288 <= pos' <= File.file_size buf + 4.
Proof.
  intros buf pos p data pos' Hpos H.
  pose proof (read_raw_data_safe buf pos Hpos) as Hs.
  rewrite H in Hs. exact Hs.
Qed.

(** A frame read at the start of the sample file. *)
Lemma read_raw_data_returns_sample :
  File.read_raw_data (Encoder.encode (Sample.params 7) Sample.iq) 0
  = File.NoFrame
  \/ exists p data pos',
       File.read_raw_data (Encoder.encode (Sample.params 7) Sample.iq) 0
       = File.Val (p, data) pos'.
Proof.
  apply (read_raw_data_returns (Encoder.encode (Sample.params 7) Sample.iq) 0).
  lia.
Defined.

Lemma read_raw_data_frame_invariants_sample :
  length Sample.iq = 31%nat
  /\ 0 + 288 <= 552
     <= File.file_size (Encoder.encode (Sample.params 7) Sample.iq) + 4.
Proof.
  assert (H0 : 0 <= 0) by lia.
  assert (H : File.read_raw_data (Encoder.encode (Sample.params 7) Sample.iq) 0
              = File.Val (Sample.params 7, Sample.iq) 552)
    by (vm_compute; reflexivity).
  destruct (read_raw_data_frame_invariants _ _ _ _ _ H0 H)
    as (_ & _ & _ & H4 & _ & H6).
  split; [exact H4 | exact H6].
Defined.

(** ** The frame loop always ends *)

Lemma process_frame_not_raise (transform : option (RDMap -> RDMap))
      (spectrum_abs : IQMatrix -> list (list Q))
      (numpy : Np.promotion)
      (p : Parameters) (data : IQMatrix) :
  process_frame transform spectrum_abs numpy p data <> Raise.
Proof.
  unfold process_frame. destruct (negb (frame_guards_ok p)); [discriminate|].
  destruct (velocity_axis p) as [va|]; [|discriminate].
  unfold try_frame.
  destruct (frame_tail transform numpy p va (spectrum_abs data)); discriminate.
Qed.

Lemma frame_loop_returns (transform : option (RDMap -> RDMap))
      (spectrum_abs : IQMatrix -> list (list Q))
      (numpy : Np.promotion) (buf : list byte)
      (fuel : nat) :
  forall (pos : Z) (rd_matrices : list RDMap),
    0 <= pos -> (1 <= fuel)%nat ->
    File.file_size buf + 1 - pos <= Z.of_nat fuel ->
    exists maps pos',
      frame_loop transform spectrum_abs numpy buf fuel pos rd_matrices
      = File.Val maps pos'.
Proof.
  induction fuel as [|fuel IH]; intros pos rd_matrices Hpos Hfuel Hsize;
    [lia|].
  cbn [frame_loop].
  pose proof (read_raw_data_safe buf pos Hpos) as Hsafe.
  destruct (File.read_raw_data buf pos) as [[p data] pos'| | |];
    cbn [safe] in Hsafe; try contradiction.
  - destruct Hsafe as (_ & _ & _ & _ & _ & Hprog).
    pose proof (process_frame_not_raise transform spectrum_abs numpy p data)
      as Hnr.
    destruct (process_frame transform spectrum_abs numpy p data);
      [apply IH; lia | apply IH; lia | contradiction].
  - exists rd_matrices, pos. reflexivity.
Qed.

(** X3: the frame loop of [_process_batch] always ends, at the first
    read that returns [None, None]: no decoding error reaches the outer
    handler, and the method raises only when [np.stack] does (no map at
    all, or maps of different shapes). *)
Theorem process_batch_loop_ends :
  forall (transform : option (RDMap -> RDMap))
         (spectrum_abs : IQMatrix -> list (list Q))
         (numpy : Np.promotion) (buf : list byte),
  exists maps pos',
    frame_loop transform spectrum_abs numpy buf (S (length buf)) 0 []
    = File.Val maps pos'
    /\ process_batch transform spectrum_abs numpy buf = stack maps
    /\ (process_batch transform spectrum_abs numpy buf = None <->
        maps = [] \/ exists m rest,
                       maps = m :: rest
                       /\ forallb (same_shape m) rest = false).
Proof.
  intros transform spectrum_abs numpy buf.
  destruct (frame_loop_returns transform spectrum_abs numpy buf
              (S (length buf)) 0 [])
    as (maps & pos' & E); [lia | lia | unfold File.file_size; lia|].
  exists maps, pos'. split; [exact E|].
  assert (Hpb : process_batch transform spectrum_abs numpy buf = stack maps)
    by (unfold process_batch; rewrite E; reflexivity).
  split; [exact Hpb|].
  rewrite Hpb. unfold stack. destruct maps as [|m rest].
  - split; [left; reflexivity | reflexivity].
  - destruct (forallb (same_shape m) rest) eqn:Es; split.
    + discriminate.
    + intros [H | (m' & rest' & H & Hf)]; [discriminate H|].
      injection H as <- <-. congruence.
    + intros _. right. exists m, rest. split; [reflexivity | exact Es].
    + reflexivity.
Qed.

(** ** Frames inside a longer file *)














(** ** The velocity axis inside the frame loop *)

Lemma find_index_first {A} (f : A -> bool) (d : A) (l : list A) :
  forall i : nat,
    (i < length l)%nat ->
    f (nth i l d) = true ->
    (forall j, (j < i)%nat -> f (nth j l d) = false) ->
    find_index f l = Some i.
Proof.
  induction l as [|x l IH]; intros i Hi Hf Hbefore; [cbn in Hi; lia|].
  destruct i as [|i].
  - cbn in Hf. cbn [find_index]. rewrite Hf. reflexivity.
  - cbn [find_index].
    pose proof (Hbefore 0%nat ltac:(lia)) as H0. cbn [nth] in H0. rewrite H0.
    rewrite (IH i); [reflexivity | cbn in Hi; lia | exact Hf |].
    intros j Hj. apply (Hbefore (S j)). lia.
Qed.

(** An axis entry is zero for the index 0 only. *)
Lemma scaled_zero_iff (k : Z) (dv : Q) :
  (0 < dv)%Q -> (Qeq_bool (F64.mul (F64.of_Z k) dv) 0 = true <-> k = 0).
Proof.
  intros Hdv. rewrite Qeq_bool_iff. unfold F64.mul, F64.of_Z. split.
  - intros H. apply (proj1 (round_eq_0_iff _)) in H.
    apply Qmult_integral in H. destruct H as [H | H].
    + apply (proj1 (round_eq_0_iff _)) in H.
      unfold Qeq, inject_Z in H. cbn in H. lia.
    + rewrite H in Hdv. discriminate Hdv.
  - intros ->. reflexivity.
Qed.

(** The guards passed by a frame whose axis is built. *)
Lemma velocity_axis_guards (p : Parameters) (va : VelocityAxis) :
  velocity_axis p = Some va ->
  (0 < delta_v va /\ delta_v va <= 10000)%Q
  /\ 0 < half_prt va <= 10000
  /\ prt_num p = 2 * half_prt va
  /\ v_axis va = raw_v_axis (half_prt va) (delta_v va).
Proof.
  intros H.
  destruct (velocity_axis_some p va H)
    as (H2 & Hh & Hdv & Ehalf & Edv & Eax).
  rewrite Edv, Ehalf. repeat split; try apply Hdv; try lia.
  rewrite <- Ehalf, <- Edv. exact Eax.
Qed.

Lemma velocity_index_of_raw_axis (half : Z) (dv : Q) :
  0 < half -> (0 < dv)%Q ->
  velocity_index (raw_v_axis half dv) = Some half.
Proof.
  intros Hhalf Hdv. unfold velocity_index.
  rewrite (find_index_first _ 0%Q _ (Z.to_nat half)).
  - f_equal. lia.
  - rewrite raw_v_axis_length. lia.
  - rewrite raw_v_axis_nth by lia. apply scaled_zero_iff; [exact Hdv | lia].
  - intros j Hj.
    replace j with (Z.to_nat (Z.of_nat j)) by lia.
    rewrite raw_v_axis_nth by lia.
    destruct (Qeq_bool (F64.mul (F64.of_Z (Z.of_nat j - half)) dv) 0) eqn:E;
      [|reflexivity].
    apply scaled_zero_iff in E; [lia | exact Hdv].
Qed.

Lemma compress_length {A} (mask : list bool) :
  forall row : list A,
    length row = length mask ->
    length (compress mask row) = kept mask.
Proof.
  unfold kept.
  induction mask as [|b mask IH]; intros row Hlen; [reflexivity|].
  destruct row as [|x row]; [discriminate Hlen|].
  cbn [compress filter]. destruct b; cbn [length];
    [f_equal|]; apply IH; cbn [length] in Hlen; lia.
Qed.

Lemma slice_assign_length {A} (start stop : Z) (v : A) (a : list A) :
  length (Np.slice_assign start stop v a) = length a.
Proof.
  unfold Np.slice_assign.
  rewrite length_map, length_combine, length_seq. lia.
Qed.

Lemma noise_floor_rows (m : list (list Q)) :
  length (noise_floor m) = length m
  /\ forall cols, Forall (fun row => length row = cols) m ->
                  Forall (fun row => length row = cols) (noise_floor m).
Proof.
  unfold noise_floor, zero_below.
  destruct (percentile 5 (concat m)); split;
    try reflexivity; try (intros; assumption).
  - apply length_map.
  - intros cols H. apply Forall_forall. intros row Hrow.
    apply in_map_iff in Hrow. destruct Hrow as (row0 & <- & Hin).
    rewrite length_map. rewrite Forall_forall in H. apply H. exact Hin.
Qed.

(** With the axis built by the frame loop and a spectrum of as many
    columns, the clutter notch is placed with index [half_prt] and does
    not raise. *)
Lemma notched_on_built_axis (p : Parameters) (va : VelocityAxis)
      (mag : list (list Q)) (rows : Z) :
  velocity_axis p = Some va ->
  0 < rows ->
  has_shape rows (prt_num p) mag ->
  velocity_index (v_axis va) = Some (half_prt va)
  /\ notched mag (v_axis va)
     = Emit (notch (half_prt va)
                   (map (compress (velocity_mask (v_axis va))) mag)).
Proof.
  intros Hva Hrows [Hlen Hcols].
  destruct (velocity_axis_guards p va Hva) as ((Hdv & _) & Hhalf & Hn & Eax).
  assert (Hidx : velocity_index (v_axis va) = Some (half_prt va))
    by (rewrite Eax; apply velocity_index_of_raw_axis; [lia | exact Hdv]).
  split; [exact Hidx|].
  assert (Hmask : length (velocity_mask (v_axis va)) = Z.to_nat (prt_num p)).
  { unfold velocity_mask. rewrite length_map, Eax, raw_v_axis_length. lia. }
  unfold notched, select_columns, n_cols.
  destruct mag as [|row mag]; [cbn [length] in Hlen; lia|].
  inversion Hcols as [|? ? Hrow _]; subst. cbn [hd].
  rewrite Hmask, Hrow.
  destruct (Z.eqb_spec (Z.of_nat (Z.to_nat (prt_num p))) (prt_num p));
    [|lia].
  rewrite Hidx. reflexivity.
Qed.

(** X6: with the velocity axis that the frame loop builds, the zero
    column is always found, at index [half_prt]: the map builder never
    raises on it, and for a spectrum with as many columns as the axis
    it always emits a map, of the same number of rows, with one column
    per velocity inside (-56, 56) and one channel. *)
Theorem map_builder_emits_on_built_axis :
  forall (p : Parameters) (va : VelocityAxis) (mag : list (list Q))
         (rows : Z),
    velocity_axis p = Some va ->
    0 < rows ->
    has_shape rows (prt_num p) mag ->
    velocity_index (v_axis va) = Some (half_prt va)
    /\ exists rd_matrix,
         notched mag (v_axis va) = Emit rd_matrix
         /\ map_builder None mag (v_axis va)
            = Emit (add_channel (noise_floor rd_matrix))
         /\ has_shape rows (Z.of_nat (kept (velocity_mask (v_axis va))))
                      (add_channel (noise_floor rd_matrix))
         /\ Forall (Forall (fun cell => length cell = 1%nat))
                   (add_channel (noise_floor rd_matrix))
         /\ (1 <= kept (velocity_mask (v_axis va)))%nat.
Proof.
  intros p va mag rows Hva Hrows Hshape.
  destruct (notched_on_built_axis p va mag rows Hva Hrows Hshape)
    as [Hidx Hnotched].
  destruct Hshape as [Hlen Hcols].
  destruct (velocity_axis_guards p va Hva) as ((Hdv & _) & Hhalf & Hn & Eax).
  split; [exact Hidx|].
  assert (Hmask : length (velocity_mask (v_axis va)) = Z.to_nat (prt_num p)).
  { unfold velocity_mask. rewrite length_map, Eax, raw_v_axis_length. lia. }
  exists (notch (half_prt va) (map (compress (velocity_mask (v_axis va))) mag)).
  split; [exact Hnotched|].
  split; [unfold map_builder; rewrite Hnotched; reflexivity|].
  set (rd := notch (half_prt va)
                   (map (compress (velocity_mask (v_axis va))) mag)).
  assert (Hrd : length rd = length mag
                /\ Forall (fun row => length row
                                      = kept (velocity_mask (v_axis va))) rd).
  { unfold rd, notch. split; [rewrite !length_map; reflexivity|].
    apply Forall_forall. intros row Hrow.
    apply in_map_iff in Hrow. destruct Hrow as (row1 & <- & Hrow1).
    apply in_map_iff in Hrow1. destruct Hrow1 as (row0 & <- & Hrow0).
    rewrite slice_assign_length. apply compress_length.
    rewrite Forall_forall in Hcols. specialize (Hcols row0 Hrow0). lia. }
  destruct Hrd as [Hrd1 Hrd2].
  destruct (noise_floor_rows rd) as [Hnf1 Hnf2].
  specialize (Hnf2 _ Hrd2).
  split; [|split].
  - unfold has_shape, add_channel. rewrite length_map, Hnf1, Hrd1.
    split; [exact Hlen|].
    apply Forall_forall. intros row Hrow.
    apply in_map_iff in Hrow. destruct Hrow as (row0 & <- & Hrow0).
    rewrite length_map. rewrite Forall_forall in Hnf2.
    rewrite (Hnf2 row0 Hrow0). reflexivity.
  - unfold add_channel. apply Forall_forall. intros row Hrow.
    apply in_map_iff in Hrow. destruct Hrow as (row0 & <- & _).
    apply Forall_forall. intros cell Hcell.
    apply in_map_iff in Hcell. destruct Hcell as (x & <- & _). reflexivity.
  - unfold kept, velocity_mask. rewrite Eax.
    assert (Hin : In true (map (fun x => Qabs_lt_bool x 56)
                               (raw_v_axis (half_prt va) (delta_v va)))).
    { apply in_map_iff. exists (F64.mul (F64.of_Z 0) (delta_v va)). split.
      - reflexivity.
      - replace 0 with (half_prt va - half_prt va) by lia.
        rewrite <- (raw_v_axis_nth (half_prt va) (delta_v va) (half_prt va))
          by lia.
        apply nth_In. rewrite raw_v_axis_length. lia. }
    assert (Hf : In true (filter (fun b : bool => b)
                            (map (fun x => Qabs_lt_bool x 56)
                               (raw_v_axis (half_prt va) (delta_v va)))))
      by (apply filter_In; split; [exact Hin | reflexivity]).
    destruct (filter _ _); [contradiction | cbn [length]; lia].
Qed.

(** The two-pulse sample frame with a flat spectrum. *)
Lemma map_builder_emits_on_sample :
  velocity_index (raw_v_axis 1 (doppler_step (Sample.params 7))) = Some 1.
Proof.
  assert (Hva : velocity_axis (Sample.params 7)
                = Some (mkVelocityAxis 1 (doppler_step (Sample.params 7))
                          (raw_v_axis 1 (doppler_step (Sample.params 7)))))
    by (vm_compute; reflexivity).
  assert (Hrows : 0 < 31) by lia.
  assert (Hshape : has_shape 31 (prt_num (Sample.params 7))
                             (Sample.flat_spectrum Sample.iq)).
  { split; [reflexivity | repeat constructor]. }
  exact (proj1 (map_builder_emits_on_built_axis _ _ _ _ Hva Hrows Hshape)).
Defined.

(** ** Localisation never rejects a frame *)

Lemma argmax_from_lt (l : list Q) :
  forall (best : Q) (besti i : nat),
    (besti < i)%nat -> (argmax_from best besti i l < i + length l)%nat.
Proof.
  induction l as [|x l IH]; intros best besti i Hlt; cbn [argmax_from length];
    [lia|].
  destruct (Qlt_bool best x).
  - specialize (IH x i (S i) ltac:(lia)). lia.
  - specialize (IH best besti (S i) ltac:(lia)). lia.
Qed.

Lemma argmax_lt (l : list Q) :
  (0 < length l)%nat -> (argmax l < length l)%nat.
Proof.
  destruct l as [|x l]; cbn [length argmax]; [lia|]. intros _.
  pose proof (argmax_from_lt l x 0%nat 1%nat ltac:(lia)). lia.
Qed.

(** The slice of a 31-row spectrum under the search window: 11 rows of
    as many cells as the window has columns, at least one, when the
    start of the window does not wrap around. *)
Lemma crop_shape (numpy : Np.promotion) (n amp : Z) (mag : list (list Q)) :
  has_shape 31 n mag -> 0 <= amp <= n - 1 -> n <= 2 ^ 32 ->
  numpy = Np.Legacy \/ 5 <= amp ->
  let w := search_window numpy (n_rows mag) (n_cols mag) amp in
  has_shape 11 (doppler_end w - doppler_start w) (crop w mag)
  /\ range_start_local w = 10
  /\ 0 <= doppler_start w /\ doppler_start w < doppler_end w
  /\ doppler_end w <= n.
Proof.
  intros [Hrows Hcols] Hamp Hn Hrule w.
  assert (Hc : n_cols mag = n).
  { unfold n_cols. destruct mag as [|r rest]; [cbn in Hrows; lia|].
    inversion Hcols; subst. reflexivity. }
  assert (Hrs : range_start_local w = 10) by reflexivity.
  assert (Hre : range_end_local w = 21)
    by (subst w; cbn [search_window range_end_local]; unfold n_rows;
        rewrite Hrows; reflexivity).
  assert (Hsub : Np.sub_u32 numpy amp 5 = amp - 5)
    by (apply sub_u32_exact; destruct Hrule; [left; assumption | right; lia]).
  assert (Hds : doppler_start w = Z.max 0 (amp - 5)).
  { subst w. cbn [search_window doppler_start]. unfold local_radius.
    rewrite Hsub. reflexivity. }
  assert (Hde : doppler_end w = Z.min n (amp + 5 + 1))
    by (subst w; cbn [search_window doppler_end]; rewrite Hc; reflexivity).
  split; [|repeat split; lia].
  unfold has_shape, crop. rewrite Hrs, Hre. split.
  - rewrite length_map, slice_length by lia. reflexivity.
  - apply Forall_forall. intros row Hrow.
    apply in_map_iff in Hrow. destruct Hrow as (row0 & <- & Hrow0).
    apply slice_incl in Hrow0.
    rewrite Forall_forall in Hcols. specialize (Hcols row0 Hrow0).
    rewrite slice_length by lia. unfold extent. lia.
Qed.

(** Localisation keeps every frame whose window does not wrap
    around. *)
Lemma localize_accepts (numpy : Np.promotion) (p : Parameters)
      (va : VelocityAxis) (mag : list (list Q)) :
  velocity_axis p = Some va ->
  has_shape 31 (prt_num p) mag ->
  numpy = Np.Legacy
  \/ 5 <= recenter_hint (nth 3 (track_no_info p) 0) (half_prt va)
                        (prt_num p) ->
  localize numpy p va mag = true.
Proof.
  intros Hva Hshape Hrule.
  destruct (velocity_axis_guards p va Hva) as (_ & Hhalf & Hn & Eax).
  assert (Hamp : 0 <= recenter_hint (nth 3 (track_no_info p) 0)
                                    (half_prt va) (prt_num p)
                 <= prt_num p - 1)
    by (apply recenter_hint_range; lia).
  destruct (crop_shape numpy _ _ mag Hshape Hamp ltac:(lia) Hrule)
    as ((Hc1 & Hc2) & Hrs & Hds0 & Hdse & Hde).
  unfold localize.
  set (w := search_window numpy (n_rows mag) (n_cols mag)
              (recenter_hint (nth 3 (track_no_info p) 0) (half_prt va)
                             (prt_num p))) in *.
  set (abs_target := crop w mag) in *.
  set (width := length (hd [] abs_target)).
  assert (Hwidth : Z.of_nat width = doppler_end w - doppler_start w).
  { unfold width. destruct abs_target as [|row rest];
      [cbn [length] in Hc1; lia|].
    inversion Hc2; subst. cbn [hd]. assumption. }
  assert (Hflat : length (concat abs_target) = (11 * width)%nat).
  { rewrite (Forall_concat_length width).
    - f_equal. lia.
    - eapply Forall_impl; [|exact Hc2]. cbv beta. intros row Hrow. lia. }
  rewrite Hflat.
  destruct (Nat.eqb_spec (11 * width) 0) as [|_]; [lia|].
  pose proof (argmax_lt (concat abs_target) ltac:(lia)) as Hk.
  rewrite Hflat in Hk.
  set (k := argmax (concat abs_target)) in *.
  assert (Hrow : (k / width < 11)%nat)
    by (apply Nat.Div0.div_lt_upper_bound; lia).
  assert (Hcol : (k mod width < width)%nat)
    by (apply Nat.mod_upper_bound; lia).
  rewrite length_map, arange_length.
  replace (Z.to_nat (nth 2 (track_no_info p) 0 + 15 + 1
                     - (nth 2 (track_no_info p) 0 - 15))) with 31%nat by lia.
  destruct (Z.leb_spec (Z.of_nat 31) (range_start_local w + Z.of_nat (k / width)))
    as [|_]; [lia|].
  rewrite Eax, raw_v_axis_length.
  destruct (Z.leb_spec (Z.of_nat (Z.to_nat (2 * half_prt va)))
                       (doppler_start w + Z.of_nat (k mod width)))
    as [|_]; [lia | reflexivity].
Qed.

(** Under the promotion of NumPy 2 a re-centred hint below 5 empties
    the window, and localisation skips the frame. *)
Lemma localize_wraps (p : Parameters) (va : VelocityAxis)
      (mag : list (list Q)) :
  velocity_axis p = Some va ->
  recenter_hint (nth 3 (track_no_info p) 0) (half_prt va) (prt_num p) < 5 ->
  localize Np.Nep50 p va mag = false.
Proof.
  intros Hva Hlow.
  destruct (velocity_axis_guards p va Hva) as (_ & Hhalf & Hn & _).
  assert (Hamp : 0 <= recenter_hint (nth 3 (track_no_info p) 0)
                                    (half_prt va) (prt_num p)
                 <= prt_num p - 1)
    by (apply recenter_hint_range; lia).
  unfold localize.
  set (amp := recenter_hint (nth 3 (track_no_info p) 0) (half_prt va)
                            (prt_num p)) in *.
  rewrite crop_reversed; [reflexivity|].
  cbn [search_window doppler_start doppler_end]. unfold local_radius.
  rewrite sub_u32_wraps by lia. lia.
Qed.

Lemma velocity_axis_built_iff (p : Parameters) :
  velocity_axis p <> None <->
  (0 < doppler_step p /\ doppler_step p <= 10000)%Q
  /\ Z.even (prt_num p) = true
  /\ 2 <= prt_num p <= 20000.
Proof.
  split.
  - intros H. destruct (velocity_axis p) as [va|] eqn:E; [|contradiction].
    destruct (velocity_axis_guards p va E) as (Hdv & Hhalf & Hn & _).
    destruct (velocity_axis_some p va E) as (_ & _ & _ & _ & Edv & _).
    rewrite <- Edv.
    split; [exact Hdv|]. split; [|lia].
    rewrite Hn, Z.even_mul. reflexivity.
  - intros ((Hpos & Hle) & Heven & Hn).
    apply Z.even_spec in Heven. destruct Heven as [h Hh].
    assert (Hhalf : prt_num p / 2 = h)
      by (rewrite Hh, Z.mul_comm; apply Z.div_mul; lia).
    unfold velocity_axis.
    replace (Qle_bool (doppler_step p) 0)
      with false by (symmetry; apply Qle_bool_false; exact Hpos).
    replace (Qlt_bool 10000 (doppler_step p))
      with false by (symmetry; apply Qlt_bool_false; exact Hle).
    cbn [orb]. rewrite Hhalf.
    destruct (Z.leb_spec h 0) as [|_]; [lia|].
    destruct (Z.ltb_spec 10000 h) as [|_]; [lia|].
    cbn [orb]. rewrite raw_v_axis_length.
    destruct (Z.eqb_spec (Z.of_nat (Z.to_nat (2 * h))) (prt_num p)) as [_|];
      [|lia].
    cbn [negb]. discriminate.
Qed.

(** X7: which frames give a map.  For a decoded frame (its track hints
    32-bit words) whose spectrum has the shape of its data (31 rows of
    [prt_num] cells), one turn of the frame loop appends a map exactly
    when the frame passes the guards
    (at least one track hint, positive [prt], [prt_num], [freq]), its
    [prt_num] is even and between 2 and 20000, [delta_v] as computed in
    [float64] lies in (0, 10000], and the search window does not wrap
    around: NumPy promotes [uint32 - int] to a signed result, or the
    re-centred Doppler hint is at least 5.  In every other case the
    frame is skipped. *)
Theorem process_frame_emits_iff :
  forall (transform : option (RDMap -> RDMap))
         (spectrum_abs : IQMatrix -> list (list Q))
         (numpy : Np.promotion)
         (p : Parameters) (data : IQMatrix),
    Forall Encoder.u32 (track_no_info p) ->
    has_shape 31 (prt_num p) (spectrum_abs data) ->
    let amp := recenter_hint (nth 3 (track_no_info p) 0) (prt_num p / 2)
                             (prt_num p) in
    let accepted :=
      frame_guards_ok p = true
      /\ ((0 < doppler_step p /\ doppler_step p <= 10000)%Q
          /\ Z.even (prt_num p) = true
          /\ 2 <= prt_num p <= 20000)
      /\ (numpy = Np.Legacy \/ 5 <= amp) in
    ((exists m, process_frame transform spectrum_abs numpy p data
                = Emit m) <-> accepted)
    /\ (process_frame transform spectrum_abs numpy p data = Skip
        <-> ~ accepted).
Proof.
  intros transform spectrum_abs numpy p data _ Hshape amp accepted.
  assert (Hemit : (exists m, process_frame transform spectrum_abs
                               numpy p data = Emit m) <-> accepted).
  { unfold accepted. rewrite <- velocity_axis_built_iff.
    unfold process_frame. split.
    - intros [m H].
      destruct (frame_guards_ok p); [|discriminate H].
      split; [reflexivity|]. cbn [negb] in H.
      destruct (velocity_axis p) as [va|] eqn:E; [|discriminate H].
      split; [discriminate|].
      destruct (velocity_axis_some p va E) as (_ & _ & _ & Ehalf & _).
      destruct numpy; [left; reflexivity|].
      destruct (Z_lt_le_dec amp 5) as [Hlow|Hge]; [|right; exact Hge].
      exfalso. unfold frame_tail in H.
      rewrite (localize_wraps p va _ E) in H
        by (rewrite Ehalf; exact Hlow).
      discriminate H.
    - intros (Hg & Hva & Hrule). rewrite Hg. cbn [negb].
      destruct (velocity_axis p) as [va|] eqn:E; [|contradiction].
      destruct (velocity_axis_some p va E) as (_ & _ & _ & Ehalf & _).
      unfold frame_tail.
      rewrite (localize_accepts numpy p va _ E Hshape)
        by (rewrite Ehalf; exact Hrule).
      destruct (notched_on_built_axis p va _ 31 E ltac:(lia) Hshape)
        as [_ Hnotched].
      unfold map_builder. rewrite Hnotched. cbn [try_frame].
      eexists. reflexivity. }
  split; [exact Hemit|].
  rewrite <- Hemit. split.
  - intros H [m Hm]. congruence.
  - intros H.
    pose proof (process_frame_not_raise transform spectrum_abs numpy
                  p data) as Hnr.
    destruct (process_frame transform spectrum_abs numpy p data)
      as [m| |]; [exfalso; apply H; exists m; reflexivity
                 | reflexivity | contradiction].
Qed.

(** The twelve-pulse sample frame, whose re-centred hint is 6, is
    accepted under the promotion of NumPy 2. *)
Lemma process_frame_emits_sample :
  exists m,
    process_frame None Sample.flat_spectrum Np.Nep50
                  (Sample.wide_params 7) Sample.wide_iq = Emit m.
Proof.
  assert (Hshape : has_shape 31 (prt_num (Sample.wide_params 7))
                             (Sample.flat_spectrum Sample.wide_iq)).
  { split; [reflexivity | repeat constructor]. }
  assert (Htrack : Forall Encoder.u32 (track_no_info (Sample.wide_params 7))).
  { repeat (apply Forall_cons; [cbv; split; [discriminate | reflexivity]|]).
    apply Forall_nil. }
  apply (proj1 (process_frame_emits_iff None Sample.flat_spectrum Np.Nep50
                  (Sample.wide_params 7) Sample.wide_iq Htrack Hshape)).
  split; [vm_compute; reflexivity|].
  split; [split; [split; vm_compute; [reflexivity | discriminate]|]|].
  - split; [reflexivity|]. cbn [prt_num Sample.wide_params]. lia.
  - right. vm_compute. discriminate.
Defined.

(** ** [__getitem__]: every sequence length, every batch *)



(** X9: when a batch has more maps than the sequence length (at least
    two, at most 2^25 maps), the resampled indices are strictly
    increasing: no map of the batch is taken twice. *)
Theorem resampling_never_repeats :
  forall (L : nat) (N : Z),
    (2 <= L)%nat -> Z.of_nat L < N -> N <= 2 ^ 25 ->
    let indices := Np.linspace_int 0 (N - 1) L in
    (forall i j, (i < j < L)%nat -> nth i indices 0 < nth j indices 0)
    /\ NoDup indices.
Proof.
  intros L N HL HN Hbig indices.
  assert (Hstrict : forall i j, (i < j < L)%nat ->
                                nth i indices 0 < nth j indices 0)
    by (intros i j Hij; apply linspace_int_increasing; assumption).
  split; [exact Hstrict|].
  apply (NoDup_nth indices 0). intros i j Hi Hj Heq.
  subst indices. rewrite linspace_int_length in Hi, Hj.
  destruct (Nat.lt_trichotomy i j) as [Hlt | [-> | Hgt]]; [|reflexivity|].
  - specialize (Hstrict i j ltac:(lia)). lia.
  - specialize (Hstrict j i ltac:(lia)). lia.
Qed.

(** 300 maps resampled to 180. *)
Lemma resampling_never_repeats_300 :
  NoDup (Np.linspace_int 0 (300 - 1) 180).
Proof.
  apply (resampling_never_repeats 180 300); lia.
Defined.

(** ** Truncated files *)

Lemma bind_none {A B} (m : File.io A) (k : A -> File.io B) (pos : Z) :
  m pos = File.NoFrame -> File.bind m k pos = File.NoFrame.
Proof. intros H. unfold File.bind. rewrite H. reflexivity. Qed.

Lemma read_u32_short (buf : list byte) (q : Z) :
  0 <= q -> File.file_size buf < q + 4 ->
  File.read_u32 buf q = File.NoFrame.
Proof.
  intros Hq Hsz. unfold File.file_size in Hsz.
  unfold File.read_u32, File.bind, File.read.
  change (Z.to_nat 4) with 4%nat.
  set (bs := firstn 4 (skipn (Z.to_nat q) buf)).
  assert (Hbs : length bs = Nat.min 4 (length buf - Z.to_nat q))
    by (subst bs; rewrite length_firstn, length_skipn; reflexivity).
  destruct (Nat.ltb_spec (length bs) 4) as [_|Hge]; [reflexivity | lia].
Qed.

Lemma word_at_firstn (buf : list byte) (k : nat) (q : Z) :
  0 <= q -> q + 4 <= Z.of_nat k ->
  File.word_at (firstn k buf) q = File.word_at buf q.
Proof.
  intros Hq Hk. unfold File.word_at. f_equal.
  rewrite skipn_firstn_comm, firstn_firstn.
  f_equal. lia.
Qed.

Lemma frame_words (payload : list Z) :
  Z.of_nat (length payload) + 3 < 2 ^ 32 ->
  length (Encoder.frame payload) = (4 * (length payload + 3))%nat
  /\ File.word_at (Encoder.frame payload) 0 = File.FRAME_HEAD
  /\ File.word_at (Encoder.frame payload) 4 = Z.of_nat (length payload) + 3.
Proof.
  intros Hlen. unfold Encoder.frame. split; [|split].
  - rewrite pack_words_length, !length_app. cbn [length]. lia.
  - apply (word_at_pack [] _ File.FRAME_HEAD 0);
      [unfold Encoder.u32, File.FRAME_HEAD; lia | reflexivity].
  - apply (word_at_pack [File.FRAME_HEAD] _ _ 4);
      [unfold Encoder.u32; lia | reflexivity].
Qed.

(** X10: a frame cut short is never decoded and never raises: for any
    frame within the length limit, [read_raw_data] on any proper prefix
    of its bytes returns [None, None]. *)
Theorem truncated_frame_is_not_decoded :
  forall (payload : list Z) (k : nat),
    4 * (Z.of_nat (length payload) + 3) <= 1000000 ->
    (k < length (Encoder.frame payload))%nat ->
    File.read_raw_data (firstn k (Encoder.frame payload)) 0 = File.NoFrame.
Proof.
  intros payload k Hbytes Hk.
  destruct (frame_words payload ltac:(lia)) as (Hlen & Hhead & Hw).
  set (buf := Encoder.frame payload) in *.
  assert (Hsize : File.file_size (firstn k buf) = Z.of_nat k)
    by (unfold File.file_size; rewrite length_firstn; lia).
  unfold File.read_raw_data. apply bind_none. unfold File.locate.
  destruct (Z_lt_le_dec (Z.of_nat k) 4) as [Hk4|Hk4].
  { apply bind_none. apply read_u32_short; lia. }
  rewrite (bind_step _ _ _ _ _
             (read_u32_in (firstn k buf) 0 ltac:(lia) ltac:(lia))).
  rewrite word_at_firstn, Hhead by lia.
  assert (Hscan : File.scan_header (firstn k buf) (length (firstn k buf))
                                   File.FRAME_HEAD (0 + 4)
                  = File.Val File.FRAME_HEAD (0 + 4))
    by (destruct (length (firstn k buf)); reflexivity).
  rewrite (bind_step _ _ _ _ _ Hscan).
  rewrite (bind_step File.tell _ _ _ _ eq_refl).
  rewrite Z.eqb_refl. cbn [negb].
  destruct (Z_lt_le_dec (Z.of_nat k) 8) as [Hk8|Hk8].
  { apply bind_none. apply read_u32_short; lia. }
  rewrite (bind_step _ _ _ _ _
             (read_u32_in (firstn k buf) (0 + 4) ltac:(lia) ltac:(lia))).
  rewrite word_at_firstn by lia. change (0 + 4) with 4. rewrite Hw.
  cbv zeta.
  assert (Hbad : File.bad_length ((Z.of_nat (length payload) + 3) * 4) = false).
  { unfold File.bad_length. apply orb_false_iff.
    split; [apply Z.leb_gt | apply Z.ltb_ge]; lia. }
  rewrite Hbad.
  rewrite (bind_step File.tell _ _ _ _ eq_refl).
  apply bind_none.
  unfold File.catch_os, File.bind, File.seek_set.
  destruct (Z.ltb_spec (4 + 4 + (Z.of_nat (length payload) + 3) * 4 - 12) 0)
    as [|_]; [reflexivity|].
  rewrite read_u32_short by lia. reflexivity.
Qed.

(** The sample frame without its last byte. *)
Lemma truncated_sample_frame :
  File.read_raw_data
    (firstn 551 (Encoder.frame (Encoder.parameter_words (Sample.params 7)
                                ++ Encoder.interleave Sample.iq))) 0
  = File.NoFrame.
Proof.
  apply (truncated_frame_is_not_decoded _ 551).
  - vm_compute. discriminate.
  - vm_compute. lia.
Defined.

(** ** The noise-floor threshold *)

Lemma insert_sorted_in (x y : Q) (l : list Q) :
  In x (insert_sorted y l) <-> x = y \/ In x l.
Proof.
  induction l as [|z l IH]; cbn [insert_sorted In]; [intuition congruence|].
  destruct (Qle_bool y z); cbn [In]; [intuition congruence|].
  rewrite IH. tauto.
Qed.

Lemma sort_in (x : Q) (l : list Q) : In x (sort l) <-> In x l.
Proof.
  unfold sort. induction l as [|y l IH]; cbn [fold_right In]; [tauto|].
  rewrite insert_sorted_in, IH. intuition congruence.
Qed.

Lemma insert_sorted_length (y : Q) (l : list Q) :
  length (insert_sorted y l) = S (length l).
Proof.
  induction l as [|z l IH]; cbn [insert_sorted length]; [reflexivity|].
  destruct (Qle_bool y z); cbn [length]; [reflexivity | rewrite IH; reflexivity].
Qed.

Lemma sort_length (l : list Q) : length (sort l) = length l.
Proof.
  unfold sort. induction l as [|y l IH]; cbn [fold_right length];
    [reflexivity | rewrite insert_sorted_length, IH; reflexivity].
Qed.

(** The 5th percentile is an interpolation between two of the values. *)
Lemma percentile_interpolates (a : list Q) (t : Q) :
  percentile 5 a = Some t ->
  exists lo hi g,
    In lo a /\ In hi a /\ (0 <= g)%Q /\ (g <= 1)%Q
    /\ t = (lo + (hi - lo) * g)%Q.
Proof.
  intros Hp. unfold percentile in Hp.
  destruct a as [|x a']; [discriminate|].
  set (a := x :: a') in *.
  set (s := sort a) in *.
  set (n := Z.of_nat (length s)) in *.
  assert (Hn : 1 <= n)
    by (unfold n, s; rewrite sort_length; cbn [length a]; lia).
  set (vi := (inject_Z (n - 1) * (5 / 100))%Q) in *.
  assert (Hn0 : (0 <= inject_Z (n - 1))%Q)
    by (change 0%Q with (inject_Z 0); rewrite <- Zle_Qle; lia).
  assert (E : (vi == inject_Z (n - 1) * (1 # 20))%Q)
    by (unfold vi; apply Qmult_comp; reflexivity).
  assert (Hvi0 : (0 <= vi)%Q) by (rewrite E; nra).
  assert (Hvi1 : (vi <= inject_Z (n - 1))%Q) by (rewrite E; nra).
  assert (Hprev : 0 <= Qfloor vi <= n - 1).
  { split.
    - change 0 with (Qfloor 0). apply Qfloor_resp_le. exact Hvi0.
    - rewrite <- (Qfloor_Z (n - 1)). apply Qfloor_resp_le. exact Hvi1. }
  assert (Hg0 : (0 <= vi - inject_Z (Qfloor vi))%Q)
    by (pose proof (Qfloor_le vi); lra).
  assert (Hg1 : (vi - inject_Z (Qfloor vi) <= 1)%Q).
  { pose proof (Qlt_floor vi) as H. rewrite inject_Z_plus in H.
    change (inject_Z 1) with 1%Q in H. lra. }
  assert (Hnth : forall i, 0 <= i <= n - 1 -> In (nth (Z.to_nat i) s 0%Q) a)
    by (intros i Hi; apply sort_in; apply nth_In; unfold n, s in *; lia).
  injection Hp as <-.
  exists (nth (Z.to_nat (Qfloor vi)) s 0%Q),
         (nth (Z.to_nat (Z.min (Qfloor vi + 1) (n - 1))) s 0%Q),
         (vi - inject_Z (Qfloor vi))%Q.
  split; [apply Hnth; lia|]. split; [apply Hnth; lia|].
  split; [exact Hg0|]. split; [exact Hg1 | reflexivity].
Qed.

(** X11: the noise-floor threshold lies between the smallest and the
    largest value of the map, so the step never zeroes a cell that is
    at least as large as every other cell: the strongest cells of every
    map survive. *)
Theorem noise_floor_keeps_the_maximum :
  forall (m : list (list Q)) (t : Q),
    percentile 5 (concat m) = Some t ->
    (forall upper, (forall y, In y (concat m) -> (y <= upper)%Q) ->
                   (t <= upper)%Q)
    /\ (forall lower, (forall y, In y (concat m) -> (lower <= y)%Q) ->
                      (lower <= t)%Q)
    /\ (forall row x,
          In row m -> In x row ->
          (forall y, In y (concat m) -> (y <= x)%Q) ->
          exists row', In row' (noise_floor m) /\ In x row').
Proof.
  intros m t Hp.
  destruct (percentile_interpolates _ t Hp)
    as (lo & hi & g & Hlo & Hhi & Hg0 & Hg1 & ->).
  assert (Hupper : forall upper,
             (forall y, In y (concat m) -> (y <= upper)%Q) ->
             (lo + (hi - lo) * g <= upper)%Q).
  { intros upper Hb. pose proof (Hb lo Hlo). pose proof (Hb hi Hhi). nra. }
  split; [exact Hupper|]. split.
  - intros lower Hb. pose proof (Hb lo Hlo). pose proof (Hb hi Hhi). nra.
  - intros row x Hrow Hx Hmax.
    exists (map (fun y => if Qlt_bool y (lo + (hi - lo) * g) then 0%Q else y)
                row).
    split.
    + unfold noise_floor. rewrite Hp. unfold zero_below.
      apply in_map. exact Hrow.
    + apply in_map_iff. exists x. split; [|exact Hx].
      replace (Qlt_bool x (lo + (hi - lo) * g)) with false; [reflexivity|].
      symmetry. apply Qlt_bool_false. apply Hupper. exact Hmax.
Qed.

(** A row of four values: the threshold is between 1 and 4 and the 4
    stays. *)
Lemma noise_floor_keeps_the_maximum_sample :
  exists t,
    percentile 5 (concat [[3; 1; 4; 2]%Q]) = Some t
    /\ (t <= 4)%Q.
Proof.
  eexists. split; [vm_compute; reflexivity|].
  eapply (fun H => proj1 (noise_floor_keeps_the_maximum
                            [[3; 1; 4; 2]%Q] _ H) 4%Q).
  - vm_compute. reflexivity.
  - intros y Hy. cbn in Hy.
    destruct Hy as [<- | [<- | [<- | [<- | []]]]]; discriminate.
Defined.

(** ** The clutter notch when no column is masked out *)

Lemma compress_all_true {A} (mask : list bool) :
  Forall (fun b => b = true) mask ->
  forall row : list A, length row = length mask -> compress mask row = row.
Proof.
  induction 1 as [|b mask Hb _ IH]; intros row Hlen.
  - destruct row; [reflexivity | discriminate Hlen].
  - destruct row as [|x row]; [discriminate Hlen|].
    cbn [compress]. rewrite Hb. f_equal. apply IH.
    cbn [length] in Hlen. lia.
Qed.

Lemma arange_in (lo hi k : Z) : In k (Np.arange lo hi) -> lo <= k < hi.
Proof.
  unfold Np.arange. intros H. apply in_map_iff in H.
  destruct H as (i & <- & Hi). apply in_seq in Hi. lia.
Qed.

(** The magnitude of an axis entry grows with the magnitude of its
    index. *)
Lemma scaled_index_bound (half k : Z) (dv : Q) :
  (0 < dv)%Q -> - half <= k <= half ->
  (Qabs (F64.mul (F64.of_Z k) dv) <= F64.mul (F64.of_Z half) dv)%Q.
Proof.
  intros Hdv Hk.
  assert (Hmono : forall a b, a <= b ->
            (F64.mul (F64.of_Z a) dv <= F64.mul (F64.of_Z b) dv)%Q).
  { intros a b Hab. unfold F64.mul, F64.of_Z. apply round_le.
    apply Qmult_le_compat_r; [|lra].
    apply round_le. rewrite <- Zle_Qle. exact Hab. }
  apply Qabs_Qle_condition. split.
  - rewrite <- scaled_index_opp. apply Hmono. lia.
  - apply Hmono. lia.
Qed.

Lemma velocity_mask_all_true (half : Z) (dv : Q) :
  (0 < dv)%Q -> (F64.mul (F64.of_Z half) dv < 56)%Q ->
  Forall (fun b => b = true) (velocity_mask (raw_v_axis half dv)).
Proof.
  intros Hdv Hband. unfold velocity_mask, raw_v_axis.
  rewrite map_map. apply Forall_forall. intros b Hb.
  apply in_map_iff in Hb. destruct Hb as (k & <- & Hk).
  apply arange_in in Hk.
  unfold Qabs_lt_bool. apply Qlt_bool_iff.
  eapply Qle_lt_trans; [|exact Hband].
  apply scaled_index_bound; [exact Hdv | lia].
Qed.

Lemma slice_assign_nth {A} (start stop : Z) (v d : A) (a : list A) (j : nat) :
  0 <= start -> 0 <= stop <= Z.of_nat (length a) ->
  (j < length a)%nat ->
  nth j (Np.slice_assign start stop v a) d
  = if (start <=? Z.of_nat j) && (Z.of_nat j <? stop) then v else nth j a d.
Proof.
  intros Hstart Hstop Hj. unfold Np.slice_assign.
  rewrite (nth_map_in _ _ _ _ (0%nat, d))
    by (rewrite length_combine, length_seq; lia).
  rewrite combine_nth by (rewrite length_seq; reflexivity).
  rewrite seq_nth by exact Hj. cbn [fst snd Nat.add].
  unfold Np.slice_bound.
  destruct (Z.ltb_spec start 0) as [|_]; [lia|].
  destruct (Z.ltb_spec stop 0) as [|_]; [lia|].
  destruct (Z.leb_spec start (Z.of_nat j));
    destruct (Z.ltb_spec (Z.of_nat j) stop);
    destruct (Z.leb_spec (Z.max 0 (Z.min (Z.of_nat (length a)) start))
                         (Z.of_nat j));
    destruct (Z.ltb_spec (Z.of_nat j)
                         (Z.max 0 (Z.min (Z.of_nat (length a)) stop)));
    cbn [andb]; try reflexivity; lia.
Qed.

(** X12: when every velocity of the axis lies inside (-56, 56) -- the
    largest speed on it, [half_prt * delta_v] in [float64], is below
    56, so the mask removes no column -- and [half_prt >= 4], the
    clutter notch zeroes exactly the seven columns [half_prt - 4 .. half_prt + 2]
    (four columns before the zero-velocity column, that column, and two
    after it) in every row, and changes no other cell. *)
Theorem notch_centred_when_nothing_is_masked :
  forall (p : Parameters) (va : VelocityAxis) (mag : list (list Q))
         (rows : Z),
    velocity_axis p = Some va ->
    0 < rows ->
    has_shape rows (prt_num p) mag ->
    4 <= half_prt va ->
    (F64.mul (F64.of_Z (half_prt va)) (delta_v va) < 56)%Q ->
    exists rd_matrix,
      notched mag (v_axis va) = Emit rd_matrix
      /\ length rd_matrix = length mag
      /\ forall (i : nat) (j : Z),
           (i < length mag)%nat -> 0 <= j < prt_num p ->
           nth (Z.to_nat j) (nth i rd_matrix []) 0%Q
           = if (half_prt va - 4 <=? j) && (j <? half_prt va + 3)
             then 0%Q
             else nth (Z.to_nat j) (nth i mag []) 0%Q.
Proof.
  intros p va mag rows Hva Hrows Hshape Hhalf4 Hband.
  destruct (notched_on_built_axis p va mag rows Hva Hrows Hshape)
    as [_ Hnotched].
  destruct Hshape as [Hlen Hcols].
  destruct (velocity_axis_guards p va Hva) as ((Hdv & _) & Hhalf & Hn & Eax).
  assert (Hall : Forall (fun b => b = true) (velocity_mask (v_axis va)))
    by (rewrite Eax; apply velocity_mask_all_true; assumption).
  assert (Hmask : length (velocity_mask (v_axis va)) = Z.to_nat (prt_num p)).
  { unfold velocity_mask. rewrite length_map, Eax, raw_v_axis_length. lia. }
  assert (Hid : map (compress (velocity_mask (v_axis va))) mag = mag).
  { rewrite <- (map_id mag) at 2. apply map_ext_in. intros row Hrow.
    apply compress_all_true; [exact Hall|].
    rewrite Forall_forall in Hcols. specialize (Hcols row Hrow). lia. }
  rewrite Hid in Hnotched.
  exists (notch (half_prt va) mag).
  split; [exact Hnotched|]. unfold notch.
  split; [apply length_map|].
  intros i j Hi Hj.
  assert (Hrow : Z.of_nat (length (nth i mag [])) = prt_num p).
  { rewrite Forall_forall in Hcols. apply Hcols. apply nth_In. exact Hi. }
  rewrite (nth_map_in _ _ _ _ []) by exact Hi.
  rewrite slice_assign_nth by lia.
  replace (Z.of_nat (Z.to_nat j)) with j by lia. reflexivity.
Qed.

(** Sixteen pulses at 1 m/s per bin. *)
Lemma notch_centred_on_sixteen_pulses :
  let p := mkParameters 0 [0; 0; 100; 8] (scaled 18750 FREQ_UNIT) 0 16
                        (scaled 40000 PRT_UNIT) 31 in
  exists rd_matrix,
    notched (repeat (repeat 1%Q 16) 31) (raw_v_axis 8 (doppler_step p))
    = Emit rd_matrix
    /\ length rd_matrix = 31%nat.
Proof.
  cbv zeta.
  set (p := mkParameters 0 [0; 0; 100; 8] (scaled 18750 FREQ_UNIT) 0 16
                         (scaled 40000 PRT_UNIT) 31).
  assert (Hva : velocity_axis p
                = Some (mkVelocityAxis 8 (doppler_step p)
                                       (raw_v_axis 8 (doppler_step p))))
    by (vm_compute; reflexivity).
  assert (Hshape : has_shape 31 (prt_num p) (repeat (repeat 1%Q 16) 31)).
  { split; [reflexivity|].
    apply Forall_forall. intros row Hrow. apply repeat_spec in Hrow.
    subst row. reflexivity. }
  assert (Hrows : 0 < 31) by lia.
  assert (Hhalf : 4 <= 8) by lia.
  assert (Hband : (F64.mul (F64.of_Z 8) (doppler_step p) < 56)%Q)
    by (vm_compute; reflexivity).
  destruct (notch_centred_when_nothing_is_masked p _ _ 31 Hva Hrows Hshape
              Hhalf Hband)
    as (rd & Hrd & Hlen & _).
  exists rd. split; [exact Hrd|].
  rewrite Hlen. apply repeat_length.
Defined.

(** ** Train/validation split *)

Lemma update_at_length {A} (f : A -> A) (l : list A) :
  forall i, length (Split.update_at i f l) = length l.
Proof.
  induction l as [|x l IH]; intros [|i]; cbn [Split.update_at length];
    try reflexivity. rewrite IH. reflexivity.
Qed.

Lemma update_at_nth {A} (f : A -> A) (d : A) (l : list A) :
  forall i j,
    (i < length l)%nat ->
    nth j (Split.update_at i f l) d
    = if (j =? i)%nat then f (nth j l d) else nth j l d.
Proof.
  induction l as [|x l IH]; intros i j Hi; [cbn in Hi; lia|].
  destruct i as [|i]; destruct j as [|j]; cbn [Split.update_at nth Nat.eqb];
    try reflexivity.
  apply IH. cbn in Hi. lia.
Qed.

Lemma concat_update_at_perm {A} (b : A) (ll : list (list A)) :
  forall i, (i < length ll)%nat ->
    Permutation (concat (Split.update_at i (fun l => l ++ [b]) ll))
                (concat ll ++ [b]).
Proof.
  induction ll as [|l ll IH]; intros i Hi; [cbn in Hi; lia|].
  destruct i as [|i]; cbn [Split.update_at concat].
  - rewrite <- !app_assoc. apply Permutation_app_head.
    apply Permutation_app_comm.
  - rewrite <- app_assoc. apply Permutation_app_head.
    apply IH. cbn in Hi. lia.
Qed.


Lemma add_batch_cases (num_classes : Z) (st : list Z * list (list BatchFile))
      (b : BatchFile) :
  (Split.in_classes num_classes b = false
   /\ Split.add_batch num_classes st b = st)
  \/ (Split.in_classes num_classes b = true
      /\ (Z.to_nat (label b - 1) < Z.to_nat num_classes)%nat
      /\ Split.add_batch num_classes st b
         = (Split.update_at (Z.to_nat (label b - 1)) (fun k => k + 1) (fst st),
            Split.update_at (Z.to_nat (label b - 1)) (fun l => l ++ [b])
                            (snd st))).
Proof.
  unfold Split.add_batch, Split.in_classes.
  destruct (label b - 1 <? 0) eqn:Hlo; cbn [orb].
  - apply Z.ltb_lt in Hlo. left. split; [|reflexivity].
    replace (1 <=? label b) with false by (symmetry; apply Z.leb_gt; lia).
    reflexivity.
  - apply Z.ltb_ge in Hlo.
    replace (1 <=? label b) with true by (symmetry; apply Z.leb_le; lia).
    cbn [andb].
    destruct (num_classes <=? label b - 1) eqn:Hhi.
    + apply Z.leb_le in Hhi. left. split; [|reflexivity].
      apply Z.leb_gt. lia.
    + apply Z.leb_gt in Hhi. right. repeat split; [|lia].
      apply Z.leb_le. lia.
Qed.

Lemma count_by_class_invariant (num_classes : Z) (batch_files : list BatchFile) :
  forall st,
    length (fst st) = Z.to_nat num_classes ->
    length (snd st) = Z.to_nat num_classes ->
    (forall i, (i < Z.to_nat num_classes)%nat ->
               nth i (fst st) 0 = Z.of_nat (length (nth i (snd st) []))) ->
    length (fst (fold_left (Split.add_batch num_classes) batch_files st))
    = Z.to_nat num_classes
    /\ length (snd (fold_left (Split.add_batch num_classes) batch_files st))
       = Z.to_nat num_classes
    /\ (forall i, (i < Z.to_nat num_classes)%nat ->
          nth i (fst (fold_left (Split.add_batch num_classes) batch_files st)) 0
          = Z.of_nat
              (length
                 (nth i (snd (fold_left (Split.add_batch num_classes)
                                        batch_files st)) [])))
    /\ Permutation
         (concat (snd (fold_left (Split.add_batch num_classes) batch_files st)))
         (concat (snd st)
          ++ filter (Split.in_classes num_classes) batch_files).
Proof.
  induction batch_files as [|b rest IH]; intros st Hn Hl Hc.
  - cbn [fold_left filter]. rewrite app_nil_r. auto.
  - cbn [fold_left filter].
    destruct (add_batch_cases num_classes st b)
      as [[Hout ->] | (Hin & Hcn & ->)].
    + rewrite Hout. apply IH; assumption.
    + rewrite Hin.
      set (c := Z.to_nat (label b - 1)) in *.
      set (st1 := (Split.update_at c (fun k => k + 1) (fst st),
                   Split.update_at c (fun l => l ++ [b]) (snd st))).
      destruct (IH st1) as (H1 & H2 & H3 & H4).
      { unfold st1. cbn [fst]. rewrite update_at_length. exact Hn. }
      { unfold st1. cbn [snd]. rewrite update_at_length. exact Hl. }
      { intros i Hi. unfold st1. cbn [fst snd].
        rewrite !update_at_nth by lia.
        destruct (i =? c)%nat.
        - rewrite Hc by exact Hi. rewrite length_app. cbn [length]. lia.
        - apply Hc. exact Hi. }
      repeat split; try assumption.
      eapply Permutation_trans; [exact H4|].
      unfold st1. cbn [snd].
      eapply Permutation_trans.
      { apply Permutation_app_tail. apply concat_update_at_perm. lia. }
      rewrite <- app_assoc. reflexivity.
Qed.

Lemma int_of_float_share (num : Z) (val_ratio : Q) :
  0 <= num ->
  (0 <= val_ratio)%Q -> (val_ratio <= 1)%Q ->
  0 <= Split.int_of_float (inject_Z num * (1 - val_ratio)) <= num.
Proof.
  intros Hnum Hr0 Hr1. unfold Split.int_of_float.
  assert (Hq : (0 <= inject_Z num)%Q)
    by (change 0%Q with (inject_Z 0); rewrite <- Zle_Qle; exact Hnum).
  assert (Hx0 : (0 <= inject_Z num * (1 - val_ratio))%Q) by nra.
  assert (Hx1 : (inject_Z num * (1 - val_ratio) <= inject_Z num)%Q) by nra.
  replace (Qle_bool 0 (inject_Z num * (1 - val_ratio))) with true
    by (symmetry; apply Qle_bool_iff; exact Hx0).
  split.
  - change 0 with (Qfloor 0). apply Qfloor_resp_le. exact Hx0.
  - rewrite <- (Qfloor_Z num) at 2. apply Qfloor_resp_le. exact Hx1.
Qed.

Lemma py_slice_cut {A} (t v : Z) (l : list A) :
  0 <= t <= Z.of_nat (length l) ->
  t + v = Z.of_nat (length l) ->
  Split.py_slice 0 t l ++ Split.py_slice t (t + v) l = l.
Proof.
  intros Ht Hv. unfold Split.py_slice, Np.slice_bound.
  replace (0 <? 0) with false by reflexivity.
  replace (t <? 0) with false by (symmetry; apply Z.ltb_ge; lia).
  replace (t + v <? 0) with false by (symmetry; apply Z.ltb_ge; lia).
  rewrite Hv.
  replace (Z.max 0 (Z.min (Z.of_nat (length l)) 0)) with 0 by lia.
  replace (Z.max 0 (Z.min (Z.of_nat (length l)) t)) with t by lia.
  replace (Z.max 0 (Z.min (Z.of_nat (length l)) (Z.of_nat (length l))))
    with (Z.of_nat (length l)) by lia.
  replace (Z.to_nat 0) with 0%nat by reflexivity.
  cbn [skipn]. rewrite Z.sub_0_r.
  rewrite (firstn_all2 (n := Z.to_nat (Z.of_nat (length l) - t))).
  - apply firstn_skipn.
  - rewrite length_skipn. lia.
Qed.

Lemma split_loop_partition
      (rng_shuffle : nat -> list BatchFile -> list BatchFile)
      (shuffle : bool) (train_nums val_nums : list Z)
      (entries : list (nat * list BatchFile)) :
  (forall i l, Permutation (rng_shuffle i l) l) ->
  (forall i l, In (i, l) entries ->
               0 <= nth i train_nums 0 <= Z.of_nat (length l)
               /\ nth i train_nums 0 + nth i val_nums 0
                  = Z.of_nat (length l)) ->
  forall acc,
    let res := fold_left (Split.split_class rng_shuffle shuffle
                                            train_nums val_nums)
                         entries acc in
    Permutation (fst res ++ snd res)
                ((fst acc ++ snd acc) ++ concat (map snd entries)).
Proof.
  intros Hperm. induction entries as [|[i l] rest IH]; intros Hnums acc.
  - cbn [fold_left map concat]. rewrite app_nil_r. reflexivity.
  - cbn [fold_left map concat snd].
    eapply Permutation_trans.
    { apply IH. intros j l' Hin. apply Hnums. right. exact Hin. }
    rewrite app_assoc. apply Permutation_app_tail.
    unfold Split.split_class. cbn [fst snd].
    set (l' := if shuffle then rng_shuffle i l else l).
    assert (Hl' : Permutation l' l)
      by (unfold l'; destruct shuffle; [apply Hperm | reflexivity]).
    destruct (Hnums i l (or_introl eq_refl)) as [Ht Hv].
    rewrite <- (Permutation_length Hl') in Ht, Hv.
    eapply Permutation_trans;
      [| apply Permutation_app_head; exact Hl'].
    rewrite <- (py_slice_cut (nth i train_nums 0) (nth i val_nums 0) l')
      at 3 by assumption.
    set (x := Split.py_slice 0 _ l'). set (y := Split.py_slice _ _ l').
    rewrite <- !app_assoc. apply Permutation_app_head.
    rewrite !app_assoc. apply Permutation_app_tail.
    apply Permutation_app_comm.
Qed.

Lemma enumerate_entries {A} (d : A) (l : list A) :
  forall k i x,
    In (i, x) (combine (seq k (length l)) l) ->
    (k <= i)%nat /\ (i - k < length l)%nat /\ nth (i - k) l d = x.
Proof.
  induction l as [|y l IH]; intros k i x Hin; [contradiction|].
  cbn [length seq combine] in Hin. destruct Hin as [Heq | Hin].
  - inversion Heq; subst. rewrite Nat.sub_diag. cbn. repeat split; lia.
  - apply IH in Hin. destruct Hin as (Hk & Hi & Hx).
    replace (i - k)%nat with (S (i - S k)) by lia.
    cbn [nth length]. repeat split; try lia. exact Hx.
Qed.

Lemma enumerate_values {A} (l : list A) :
  forall k, map snd (combine (seq k (length l)) l) = l.
Proof.
  induction l as [|y l IH]; intros k; [reflexivity|].
  cbn [length seq combine map snd]. rewrite IH. reflexivity.
Qed.

Lemma concat_repeat_nil {A} (n : nat) : concat (repeat ([] : list A) n) = [].
Proof. induction n; [reflexivity | exact IHn]. Qed.

Lemma nth_repeat_nil {A} (n i : nat) : nth i (repeat ([] : list A) n) [] = [].
Proof.
  revert i; induction n; intros [|i]; cbn; try reflexivity. apply IHn.
Qed.

Lemma nth_repeat_zero (n i : nat) : nth i (repeat 0 n) 0 = 0.
Proof.
  revert i; induction n; intros [|i]; cbn; try reflexivity. apply IHn.
Qed.

(** X13 ([split_train_val]): for a validation ratio between 0 and 1 and
    whatever permutation the shuffle applies, the training list and the
    validation list together are a rearrangement of the batch files whose
    label lies in [1, num_classes]: each such file lands in exactly one
    of the two lists, and files with another label land in neither. *)
Theorem split_train_val_partitions
        (rng_shuffle : nat -> list BatchFile -> list BatchFile)
        (batch_files : list BatchFile) (num_classes : Z) (val_ratio : Q)
        (shuffle : bool) :
  (0 <= val_ratio)%Q -> (val_ratio <= 1)%Q ->
  (forall i l, Permutation (rng_shuffle i l) l) ->
  Permutation
    (fst (Split.split_train_val rng_shuffle batch_files num_classes
                                val_ratio shuffle)
     ++ snd (Split.split_train_val rng_shuffle batch_files num_classes
                                   val_ratio shuffle))
    (filter (Split.in_classes num_classes) batch_files).
Proof.
  intros Hr0 Hr1 Hperm. unfold Split.split_train_val, Split.count_by_class.
  pose proof (count_by_class_invariant num_classes batch_files
                (repeat 0 (Z.to_nat num_classes),
                 repeat [] (Z.to_nat num_classes))) as Hinv.
  cbn [fst snd] in Hinv.
  destruct Hinv as (Hn & Hl & Hc & Hp).
  { apply repeat_length. }
  { apply repeat_length. }
  { intros i _. rewrite nth_repeat_zero, nth_repeat_nil. reflexivity. }
  rewrite concat_repeat_nil in Hp. cbn [app] in Hp.
  destruct (fold_left (Split.add_batch num_classes) batch_files _)
    as [label_nums by_cls].
  cbn [fst snd] in Hn, Hl, Hc, Hp.
  eapply Permutation_trans; [apply split_loop_partition; [exact Hperm|]|].
  - intros i l Hin.
    apply (enumerate_entries []) in Hin. destruct Hin as (_ & Hi & Hnth).
    rewrite Nat.sub_0_r in Hi, Hnth.
    assert (Hi' : (i < Z.to_nat num_classes)%nat) by lia.
    set (f := fun num => Split.int_of_float (inject_Z num * (1 - val_ratio))).
    assert (Ht : nth i (map f label_nums) 0 = f (nth i label_nums 0)).
    { rewrite (nth_indep _ 0 (f 0)) by (rewrite length_map; lia).
      apply map_nth. }
    rewrite Ht.
    assert (Hv : nth i (map (fun nt => fst nt - snd nt)
                            (combine label_nums (map f label_nums))) 0
                 = nth i label_nums 0 - f (nth i label_nums 0)).
    { rewrite (nth_indep _ 0 ((fun nt => fst nt - snd nt) (0, 0)))
        by (rewrite length_map, length_combine, length_map; lia).
      rewrite (map_nth (fun nt => fst nt - snd nt)).
      rewrite combine_nth by (rewrite length_map; reflexivity).
      cbn [fst snd]. rewrite Ht. reflexivity. }
    rewrite Hv. rewrite Hc by exact Hi'. rewrite Hnth.
    split; [|lia].
    unfold f. apply int_of_float_share; [lia | exact Hr0 | exact Hr1].
  - cbn [fst snd app]. rewrite enumerate_values. exact Hp.
Qed.

(** Seven files over two classes, two of them with a label outside the
    classes, split with a fifth held out and each class reversed. *)
Lemma split_train_val_partitions_sample :
  Permutation
    (fst (Split.split_train_val (fun _ l => rev l) Split.sample_files 2
                                (1 # 5) true)
     ++ snd (Split.split_train_val (fun _ l => rev l) Split.sample_files 2
                                   (1 # 5) true))
    (filter (Split.in_classes 2) Split.sample_files).
Proof.
  apply split_train_val_partitions.
  - unfold Qle; simpl; lia.
  - unfold Qle; simpl; lia.
  - intros i l. symmetry. apply Permutation_rev.
Defined.
